(** * t80m: identity resolution, file naming and the CSV record store

    A shallow embedding of the core of the TIC-80 collection manager
    ([tcolmanager/data_utils.py], [tcolmanager/filename_utils.py] and
    [tcolmanager/csv_manager.py]) together with the properties its
    specification states about it.

    Conventions of the embedding.
    - A Python [str] is a [string]; a character is an [ascii] and the
      string methods below follow Python on code points below 128.
    - A record ([dict[str, str]]) is a [gmap string string]; the store
      ([dict[str, dict[str, str]]]) is an insertion-ordered association
      list, because [sorted] is stable and sees the rows in that order.
    - A Python [float] is a binary64 value of [spec_float].
    - A function that can raise returns a [result]. *)

From Stdlib Require Import ZArith Ascii String List Bool Lia.
From Stdlib Require Import DecimalString DecimalPos Sorting.Sorted Sorting.Permutation.
From Stdlib Require Import Floats.SpecFloat.
From stdpp Require Import base option gmap strings list.

Local Open Scope Z_scope.

(* ================================================================== *)
(** * Python strings *)
(* ================================================================== *)

(** Truthiness of a string and the value of [a or b]. *)
Definition str_truthy (s : string) : bool :=
  match s with EmptyString => false | String _ _ => true end.

Definition str_or (a b : string) : string := if str_truthy a then a else b.

(** [str.isspace] on one character: TAB..CR, FS..US and the space. *)
Definition isspace (c : ascii) : bool :=
  let n := Z.of_N (N_of_ascii c) in
  ((9 <=? n) && (n <=? 13)) || ((28 <=? n) && (n <=? 32)).

(** C's [isspace], which is what [float()] skips around a number. *)
Definition c_isspace (c : ascii) : bool :=
  let n := Z.of_N (N_of_ascii c) in
  ((9 <=? n) && (n <=? 13)) || (n =? 32).

Fixpoint lstrip_by (sp : ascii -> bool) (s : string) : string :=
  match s with
  | EmptyString => EmptyString
  | String c r => if sp c then lstrip_by sp r else s
  end.

Fixpoint rstrip_by (sp : ascii -> bool) (s : string) : string :=
  match s with
  | EmptyString => EmptyString
  | String c r =>
      let r' := rstrip_by sp r in
      if sp c && negb (str_truthy r') then EmptyString else String c r'
  end.

Definition strip_by (sp : ascii -> bool) (s : string) : string :=
  rstrip_by sp (lstrip_by sp s).

(** [s.strip()] *)
Definition strip (s : string) : string := strip_by isspace s.

Definition lower_char (c : ascii) : ascii :=
  let n := N_of_ascii c in
  if ((65 <=? n) && (n <=? 90))%N then ascii_of_N (n + 32) else c.

Definition upper_char (c : ascii) : ascii :=
  let n := N_of_ascii c in
  if ((97 <=? n) && (n <=? 122))%N then ascii_of_N (n - 32) else c.

Fixpoint map_string (f : ascii -> ascii) (s : string) : string :=
  match s with
  | EmptyString => EmptyString
  | String c r => String (f c) (map_string f r)
  end.

(** [s.lower()] and [s.upper()] *)
Definition lower (s : string) : string := map_string lower_char s.
Definition upper (s : string) : string := map_string upper_char s.

Fixpoint filter_string (keep : ascii -> bool) (s : string) : string :=
  match s with
  | EmptyString => EmptyString
  | String c r =>
      if keep c then String c (filter_string keep r) else filter_string keep r
  end.

Fixpoint mem_char (c : ascii) (s : string) : bool :=
  match s with
  | EmptyString => false
  | String d r => Ascii.eqb c d || mem_char c r
  end.

(** [s.split()]: the maximal runs of non-space characters. *)
Fixpoint split_from (cur : string) (s : string) : list string :=
  match s with
  | EmptyString => if str_truthy cur then [cur] else []
  | String c r =>
      if isspace c
      then (if str_truthy cur then cur :: split_from EmptyString r
            else split_from EmptyString r)
      else split_from (cur +:+ String c EmptyString) r
  end.

Definition str_split (s : string) : list string := split_from EmptyString s.

(** [sep.join(l)] *)
Definition str_join (sep : string) (l : list string) : string := String.concat sep l.

(** [s.endswith(suf)] *)
Definition endswith (s suf : string) : bool :=
  let n := String.length s in
  let k := String.length suf in
  (k <=? n)%nat && String.eqb (String.substring (n - k) k s) suf.

(** [s[:-1]] *)
Definition drop_last (s : string) : string :=
  String.substring 0 (String.length s - 1) s.

Fixpoint repeat_char (c : ascii) (n : nat) : string :=
  match n with
  | O => EmptyString
  | S k => String c (repeat_char c k)
  end.

(** [s.rjust(width, fill)] *)
Definition rjust (s : string) (width : nat) (fill : ascii) : string :=
  repeat_char fill (width - String.length s) +:+ s.

(** Order of [str] values: lexicographic on code points. *)
Definition str_le (a b : string) : bool := String.leb a b.

(** [str(n)] for an [int]. *)
Definition str_of_int (n : Z) : string := NilZero.string_of_int (Z.to_int n).

(** Decimal rendering left-padded with zeros, as [%02d] and [%04d]. *)
Definition zero_pad (width : nat) (n : Z) : string :=
  rjust (str_of_int n) width "0"%char.

(* ================================================================== *)
(** * Exceptions *)
(* ================================================================== *)

Inductive exn : Type :=
| ValueError
| TypeError
| OverflowError
| OSError
| KeyError (key : string).

Inductive result (A : Type) : Type :=
| Ok (a : A)
| Raise (e : exn).

Arguments Ok {A} a.
Arguments Raise {A} e.

Definition bind {A B : Type} (r : result A) (k : A -> result B) : result B :=
  match r with
  | Ok a => k a
  | Raise e => Raise e
  end.

Notation "x <- r ;; k" := (bind r (fun x => k))
  (at level 100, r at next level, right associativity).

Definition raises {A : Type} (r : result A) : Prop :=
  match r with Ok _ => False | Raise _ => True end.

(** The handler [except (ValueError, TypeError)]. *)
Definition caught (e : exn) : bool :=
  match e with
  | ValueError | TypeError => true
  | _ => false
  end.

(** [try: x = body / except (ValueError, TypeError): x = fallback] *)
Definition try_except {A : Type} (body : result A) (fallback : A) : result A :=
  match body with
  | Ok a => Ok a
  | Raise e => if caught e then Ok fallback else Raise e
  end.

(* ================================================================== *)
(** * Python floats *)
(* ================================================================== *)

(** A [float] is an IEEE 754 binary64 number. *)
Definition prec : Z := 53.
Definition emax : Z := 1024.

Definition float_of_Z_pow2 (m e : Z) (szero : bool) : spec_float :=
  binary_normalize prec emax m e szero.

(** The binary64 number nearest to [(-1)^neg * m * 10^e10], ties to even,
    as the correctly rounded [strtod] of CPython returns it. For a negative
    exponent the quotient is taken with more than [prec + 2] bits below
    every rounding position and a sticky bit records an inexact division. *)
Definition float_of_decimal (neg : bool) (m : N) (e10 : Z) : spec_float :=
  let sgn (z : Z) := if neg then - z else z in
  if (m =? 0)%N then S754_zero neg
  else if 0 <=? e10 then float_of_Z_pow2 (sgn (Z.of_N m * 10 ^ e10)) 0 neg
  else
    let n := - e10 in
    let k := 1100 + 4 * n in
    let num := Z.of_N m * 2 ^ k in
    let den := 10 ^ n in
    let sticky := if num mod den =? 0 then 0 else 1 in
    float_of_Z_pow2 (sgn (2 * (num / den) + sticky)) (- k - 1) neg.

Definition is_digit (c : ascii) : bool :=
  let n := N_of_ascii c in ((48 <=? n) && (n <=? 57))%N.

Definition digit_value (c : ascii) : N := (N_of_ascii c - 48)%N.

Definition digits_value (ds : list ascii) : N :=
  fold_left (fun acc c => (10 * acc + digit_value c)%N) ds 0%N.

Fixpoint span_digits (l : list ascii) : list ascii * list ascii :=
  match l with
  | c :: r =>
      if is_digit c then let '(ds, rest) := span_digits r in (c :: ds, rest)
      else ([], l)
  | [] => ([], [])
  end.

(** Underscores may only stand between two digits; they are then dropped. *)
Fixpoint underscores_ok (prev : option ascii) (l : list ascii) : bool :=
  match l with
  | [] => match prev with Some "_"%char => false | _ => true end
  | c :: r =>
      let prev_digit := match prev with Some p => is_digit p | None => false end in
      let prev_under := match prev with Some "_"%char => true | _ => false end in
      (if Ascii.eqb c "_" then prev_digit
       else negb prev_under || is_digit c)
      && underscores_ok (Some c) r
  end.

Definition drop_underscores (l : list ascii) : list ascii :=
  List.filter (fun c => negb (Ascii.eqb c "_")) l.

Definition take_sign (l : list ascii) : bool * list ascii :=
  match l with
  | "-"%char :: r => (true, r)
  | "+"%char :: r => (false, r)
  | _ => (false, l)
  end.

(** [digits [. digits] [(e|E) [sign] digits]] with at least one mantissa
    digit; the result is the mantissa and the decimal exponent. *)
Definition parse_decimal (l : list ascii) : option (N * Z) :=
  let '(ip, r1) := span_digits l in
  let '(fp, r2) :=
    match r1 with
    | "."%char :: r => span_digits r
    | _ => ([], r1)
    end in
  match ip ++ fp with
  | [] => None
  | ds =>
      let mant := digits_value ds in
      let shift := - Z.of_nat (length fp) in
      match r2 with
      | [] => Some (mant, shift)
      | c :: r3 =>
          if Ascii.eqb c "e" || Ascii.eqb c "E" then
            let '(eneg, r4) := take_sign r3 in
            match span_digits r4 with
            | ([], _) => None
            | (ed, []) =>
                let ev := Z.of_N (digits_value ed) in
                Some (mant, (if eneg then - ev else ev) + shift)
            | _ => None
            end
          else None
      end
  end.

(** [float(s)] for a string: [ValueError] when [s] is not a number. *)
Definition py_float (s : string) : result spec_float :=
  let body := list_ascii_of_string (strip_by c_isspace s) in
  if negb (underscores_ok None body) then Raise ValueError else
  let '(neg, rest) := take_sign (drop_underscores body) in
  let word := lower (string_of_list_ascii rest) in
  if String.eqb word "inf" || String.eqb word "infinity" then Ok (S754_infinity neg)
  else if String.eqb word "nan" then Ok S754_nan
  else match parse_decimal rest with
       | Some (m, e10) => Ok (float_of_decimal neg m e10)
       | None => Raise ValueError
       end.

(** Truthiness of a float: every value but [0.0] and [-0.0]. *)
Definition float_truthy (f : spec_float) : bool :=
  match f with S754_zero _ => false | _ => true end.

(** Truthiness of an optional float ([None] is falsy). *)
Definition opt_float_truthy (o : option spec_float) : bool :=
  match o with Some f => float_truthy f | None => false end.

(** [min(a, b)]: [b] when [b < a], else [a]. *)
Definition py_min (a b : spec_float) : spec_float :=
  if SFltb b a then b else a.

(** [int(f)]: truncation towards zero. *)
Definition py_int (f : spec_float) : result Z :=
  match f with
  | S754_nan => Raise ValueError
  | S754_infinity _ => Raise OverflowError
  | S754_zero _ => Ok 0
  | S754_finite s m e =>
      let v := if s then Z.neg m else Z.pos m in
      Ok (if 0 <=? e then v * 2 ^ e else Z.quot v (2 ^ (- e)))
  end.

(* ================================================================== *)
(** * Timestamps and dates *)
(* ================================================================== *)

(** The integer nearest to [m * 2^e], ties to even. *)
Definition round_half_even_pow2 (m e : Z) : Z :=
  if 0 <=? e then m * 2 ^ e
  else
    let d := 2 ^ (- e) in
    let q := m / d in
    let r := m mod d in
    match 2 * r ?= d with
    | Lt => q
    | Gt => q + 1
    | Eq => if Z.even q then q else q + 1
    end.

Definition round_half_even (f : spec_float) : Z :=
  match f with
  | S754_finite s m e => round_half_even_pow2 (if s then Z.neg m else Z.pos m) e
  | _ => 0
  end.

(** The whole seconds [datetime.fromtimestamp] keeps of a float: the value
    is split with [modf], the fraction is scaled to microseconds in binary64
    and rounded half to even, and a carry or a negative fraction moves the
    second. [NaN] is a [ValueError]; what does not fit a 64-bit [time_t] is
    an [OverflowError] (the behaviour of CPython on Linux). *)
Definition timestamp_seconds (f : spec_float) : result Z :=
  match f with
  | S754_nan => Raise ValueError
  | S754_infinity _ => Raise OverflowError
  | S754_zero _ => Ok 0
  | S754_finite s m e =>
      let v := if s then Z.neg m else Z.pos m in
      let intpart := if 0 <=? e then v * 2 ^ e else Z.quot v (2 ^ (- e)) in
      let fracnum := if 0 <=? e then 0 else Z.rem v (2 ^ (- e)) in
      let us := round_half_even (float_of_Z_pow2 (fracnum * 1000000) e false) in
      let sec :=
        if 1000000 <=? us then intpart + 1
        else if us <? 0 then intpart - 1
        else intpart in
      if (- 2 ^ 63 <=? sec) && (sec <? 2 ^ 63) then Ok sec
      else Raise OverflowError
  end.

Record date : Type := mkdate { year : Z; month : Z; day : Z }.

(** The proleptic Gregorian date of a day number counted from 1970-01-01. *)
Definition civil_from_days (days : Z) : date :=
  let z := days + 719468 in
  let era := z / 146097 in
  let doe := z - era * 146097 in
  let yoe := (doe - doe / 1460 + doe / 36524 - doe / 146096) / 365 in
  let doy := doe - (365 * yoe + yoe / 4 - yoe / 100) in
  let mp := (5 * doy + 2) / 153 in
  let d := doy - (153 * mp + 2) / 5 + 1 in
  let m := if mp <? 10 then mp + 3 else mp - 9 in
  mkdate (yoe + era * 400 + (if m <=? 2 then 1 else 0)) m d.

(** [d.strftime('%Y-%m-%d')], the year on four digits (the C library of
    some platforms leaves years below 1000 unpadded). *)
Definition strftime_ymd (d : date) : string :=
  zero_pad 4 (year d) +:+ "-" +:+ zero_pad 2 (month d) +:+ "-" +:+ zero_pad 2 (day d).

Section LocalTime.

(** The time zone of the process: the offset of local time from UTC, in
    seconds, at a given POSIX time. [datetime.fromtimestamp] without a [tz]
    argument renders local time. *)
Variable tz : Z -> Z.

Definition local_date (t : Z) : date := civil_from_days ((t + tz t) / 86400).

Definition year_ok (d : date) : bool := (1 <=? year d) && (year d <=? 9999).

(** [datetime.datetime.fromtimestamp(f)], as far as its date goes. The
    local year has to fit the C [int] of [struct tm] ([OSError] otherwise)
    and both the instant and the instant probed one day earlier for the
    fold have to fall in the years 1..9999 ([ValueError] otherwise). *)
Definition fromtimestamp (f : spec_float) : result date :=
  t <- timestamp_seconds f ;;
  let d := local_date t in
  if negb ((- 2 ^ 31 <=? year d - 1900) && (year d - 1900 <? 2 ^ 31)) then Raise OSError
  else if negb (year_ok d) then Raise ValueError
  else if negb (year_ok (local_date (t - 86400))) then Raise ValueError
  else Ok d.

End LocalTime.

(* ================================================================== *)
(** * Records *)
(* ================================================================== *)

(** [row.get(k, d)] and [row[k]]; [row.get(k)] is the lookup [row !! k]. *)
Definition get_default (row : gmap string string) (k d : string) : string :=
  default d (row !! k).

Definition getitem (row : gmap string string) (k : string) : result string :=
  match row !! k with
  | Some v => Ok v
  | None => Raise (KeyError k)
  end.

(** [o or b] for an optional string [o]: [None] and the empty string are falsy. *)
Definition opt_or (o : option string) (b : string) : string :=
  match o with
  | Some a => str_or a b
  | None => b
  end.

Definition opt_truthy (o : option string) : bool :=
  match o with
  | Some a => str_truthy a
  | None => false
  end.

(** What an f-string prints for a [str | None]. *)
Definition format_opt (o : option string) : string :=
  match o with
  | Some a => a
  | None => "None"
  end.

(* ================================================================== *)
(** * data_utils.py *)
(* ================================================================== *)

Definition normalize_id (id_str : string) : result string :=
  if negb (str_truthy id_str) then Ok id_str
  else
    let id_str := strip id_str in
    try_except
      (f <- py_float id_str ;; n <- py_int f ;; Ok (str_of_int n))
      id_str.

(** The result has the Python type [str | None]. *)
Definition get_primary_game_id (row : gmap string string) : option string :=
  let source := lower (strip (get_default row "source_with_bestversion" "")) in
  let tic_id := get_default row "tic_id" "" in
  let itch_id := get_default row "itch_id" "" in
  let id_val := get_default row "id" "" in
  let preferred_id :=
    if String.eqb source "tic80com" || negb (str_truthy source) then tic_id
    else if String.eqb source "itch" then itch_id
    else id_val in
  if str_truthy preferred_id then Some preferred_id
  else Some (str_or (str_or tic_id itch_id) id_val).

Definition get_rom_category (row : gmap string string) : string :=
  let rom_source :=
    str_or (get_default row "source_with_bestversion" "tic80com") "tic80com" in
  opt_or (row !! "rom_category")
    (if String.eqb rom_source "itch" then "Itch"
     else if String.eqb rom_source "tic80com"
          then get_default row "tic_category" "Games"
          else "Unclassified").

(* ================================================================== *)
(** * filename_utils.py *)
(* ================================================================== *)

(** [FORBIDDEN_CHARS] of config.py: the nine characters
    less-than, greater-than, colon, double quote, slash, backslash, bar,
    question mark and star. *)
Definition FORBIDDEN_CHARS : string :=
  "<>:" +:+ String (ascii_of_N 34) "/\|?*".

Record FileInfo : Type := mkFileInfo {
  pre_filename : string;
  gamename : string;
  rom_filename : string;
  image_filename : string
}.

Definition create_safe_filename (name : string) : string :=
  let name := filter_string (fun c => negb (mem_char c FORBIDDEN_CHARS)) name in
  str_join " " (str_split name).

(** The guarded conversion used for every timestamp field:
    [x = None; if s: try: x = float(s) except (ValueError, TypeError): pass] *)
Definition float_field (o : option string) : result (option spec_float) :=
  if opt_truthy o
  then try_except (f <- py_float (default "" o) ;; Ok (Some f)) None
  else Ok None.

(** The category suffix of step 2. *)
Definition category_suffix
  (rom_folder_organization : string) (filename_category_parenthesis : bool)
  (game_category : string) : string :=
  if String.eqb rom_folder_organization "single"
     && filename_category_parenthesis
     && negb (String.eqb game_category "Games")
  then
    let suffix_name :=
      if String.eqb game_category "Tools" then "Tool"
      else if negb (String.eqb game_category "Demoscene") && endswith game_category "s"
           then drop_last game_category
           else game_category in
    " (" +:+ suffix_name +:+ ")"
  else "".

(** Step 4. *)
Definition apply_case (filename_case : string) (s : string) : string :=
  if String.eqb filename_case "uppercase" then upper s
  else if String.eqb filename_case "lowercase" then lower s
  else s.

Section Generate.

Variable tz : Z -> Z.

(** [datetime.datetime.fromtimestamp(f).strftime('%Y-%m-%d')] *)
Definition render (f : spec_float) : result string :=
  d <- fromtimestamp tz f ;; Ok (strftime_ymd d).

(** Lines 63-73: the date of [overwrite_upd_timestamp], or the empty string. *)
Definition overwrite_date (row : gmap string string) : result string :=
  upd_ts <- float_field (row !! "overwrite_upd_timestamp") ;;
  if opt_truthy (row !! "overwrite_upd_timestamp") && opt_float_truthy upd_ts
  then render (default S754_nan upd_ts)
  else Ok "".

(** [row.get("tic_upd_date") or row.get("tic_pub_date", "")] *)
Definition tic_date (row : gmap string string) : string :=
  opt_or (row !! "tic_upd_date") (get_default row "tic_pub_date" "").

(** Lines 75-76. *)
Definition tic_step (row : gmap string string) (update_date : string) : string :=
  if String.eqb update_date ""
     && String.eqb (get_default row "source_with_bestversion" "tic80com") "tic80com"
  then tic_date row
  else update_date.

(** Lines 96-110: the timestamp chosen among the itch fields. *)
Definition itch_selected_ts (row : gmap string string) : result (option spec_float) :=
  lastmod_ts <- float_field (row !! "itch_lastmodified_timestamp") ;;
  upd_ts <- float_field (row !! "itch_upd_timestamp") ;;
  if opt_float_truthy upd_ts && opt_float_truthy lastmod_ts
  then Ok (Some (py_min (default S754_nan upd_ts) (default S754_nan lastmod_ts)))
  else if opt_float_truthy upd_ts then Ok upd_ts
  else if opt_float_truthy lastmod_ts then Ok lastmod_ts
  else float_field (row !! "itch_pub_timestamp").

(** Lines 78-115. *)
Definition itch_step (row : gmap string string) (update_date : string) : result string :=
  if String.eqb update_date "" then
    selected_ts <- itch_selected_ts row ;;
    if opt_float_truthy selected_ts
    then render (default S754_nan selected_ts)
    else Ok (tic_date row)
  else Ok update_date.

(** The date placed in the ROM filename. *)
Definition effective_date (row : gmap string string) : result string :=
  update_date <- overwrite_date row ;;
  itch_step row (tic_step row update_date).

Definition generate_filename_and_gamename
  (row : gmap string string)
  (use_custom_filenames use_custom_gamenames filename_category_parenthesis : bool)
  (filename_case rom_folder_organization : string) : result FileInfo :=
  let game_id := get_primary_game_id row in
  let orig_name :=
    str_or (get_default row "name_original_reference" "")
           (get_default row "itch_titlename" "") in
  let overwrite_name := strip (get_default row "name_overwrite" "") in
  let game_category := get_rom_category row in
  update_date <- effective_date row ;;
  let base_filename_name :=
    if use_custom_filenames && str_truthy overwrite_name
    then overwrite_name else orig_name in
  let game_name :=
    if use_custom_gamenames && str_truthy overwrite_name
    then overwrite_name else orig_name in
  let category_suffix :=
    category_suffix rom_folder_organization filename_category_parenthesis
      game_category in
  let pre_filename := base_filename_name +:+ category_suffix in
  let pre_filename := apply_case filename_case pre_filename in
  let base_filename_name := apply_case filename_case base_filename_name in
  let base_filename_name := create_safe_filename base_filename_name in
  let pre_filename := create_safe_filename pre_filename in
  let game_name := create_safe_filename game_name in
  let final_filename :=
    pre_filename +:+ " - " +:+ format_opt game_id +:+ " (" +:+ update_date +:+ ").tic" in
  let image_filename :=
    base_filename_name +:+ " - " +:+ format_opt game_id +:+ ".png" in
  Ok (mkFileInfo pre_filename game_name final_filename image_filename).

End Generate.

(* ================================================================== *)
(** * csv_manager.py *)
(* ================================================================== *)

(** ** Insertion-ordered dictionaries *)

Fixpoint dict_get {V : Type} (d : list (string * V)) (k : string) : option V :=
  match d with
  | [] => None
  | (k', v) :: rest => if String.eqb k k' then Some v else dict_get rest k
  end.

(** [d[k] = v]: a present key keeps its place, a new key goes last. *)
Fixpoint dict_set {V : Type} (d : list (string * V)) (k : string) (v : V)
  : list (string * V) :=
  match d with
  | [] => [(k, v)]
  | (k', v') :: rest =>
      if String.eqb k k' then (k, v) :: rest else (k', v') :: dict_set rest k v
  end.

Definition dict_contains {V : Type} (d : list (string * V)) (k : string) : bool :=
  match dict_get d k with Some _ => true | None => false end.

Definition dict_keys {V : Type} (d : list (string * V)) : list string := map fst d.
Definition dict_values {V : Type} (d : list (string * V)) : list V := map snd d.

(** ** [sorted]: a stable sort by key *)

Fixpoint insert_by {A : Type} (key : A -> string) (x : A) (l : list A) : list A :=
  match l with
  | [] => [x]
  | y :: r => if str_le (key x) (key y) then x :: l else y :: insert_by key x r
  end.

Definition py_sorted {A : Type} (key : A -> string) (l : list A) : list A :=
  foldr (insert_by key) [] l.

(** The order [sorted] leaves the elements in. *)
Definition key_le {A : Type} (key : A -> string) (x y : A) : Prop :=
  str_le (key x) (key y) = true.

(** ** The file as [csv.DictReader] and [csv.DictWriter] see it *)

(** A parsed file: the header row and the data rows, cell by cell. A file
    without any line has an empty header and no rows. *)
Record csv_file : Type := mkcsv {
  fieldnames : list string;
  records : list (list string)
}.

(** Every data row is blank or has as many cells as the header (the
    reader's [restkey] and [restval] for other rows are outside the
    embedding). *)
Definition csv_wf (f : csv_file) : Prop :=
  Forall (fun cells => cells = [] \/ length cells = length (fieldnames f))
         (records f).

(** [dict(zip(fieldnames, cells))]: a repeated column keeps its last cell. *)
Definition dict_of_cells (names cells : list string) : gmap string string :=
  fold_left (fun m kv => <[fst kv := snd kv]> m) (combine names cells) ∅.

(** The rows of a [DictReader]; blank lines are skipped. *)
Definition DictReader (f : csv_file) : list (gmap string string) :=
  map (dict_of_cells (fieldnames f))
    (List.filter (fun cells => negb (Nat.eqb (length cells) 0)) (records f)).

(** ** Loading *)

Inductive warning : Type :=
| DuplicateGameId (game_id : string)
| MissingGameId (line : nat).

(** The module state a load leaves behind, and what it printed. *)
Record globals : Type := mkglobals {
  _global_db : list (string * gmap string string);
  _global_fieldnames : option (list string);
  warnings : list warning
}.

(** [row[c] = normalize_id(row[c])] *)
Definition normalize_field (row : gmap string string) (c : string)
  : result (gmap string string) :=
  v <- getitem row c ;; n <- normalize_id v ;; Ok (<[c := n]> row).

(** Lines 46-48 on one row. *)
Definition normalize_row (row : gmap string string) : result (gmap string string) :=
  row <- normalize_field row "id" ;;
  row <- normalize_field row "itch_id" ;;
  normalize_field row "tic_id".

(** One turn of the loop of lines 45-57; [i] is the index from [enumerate]. *)
Definition load_row (g : globals) (i : nat) (row : gmap string string) : result globals :=
  row <- normalize_row row ;;
  let game_id := get_primary_game_id row in
  if opt_truthy game_id then
    let key := format_opt game_id in
    let w := if dict_contains (_global_db g) key then [DuplicateGameId key] else [] in
    Ok (mkglobals (dict_set (_global_db g) key row) (_global_fieldnames g)
          (warnings g ++ w))
  else
    Ok (mkglobals (_global_db g) (_global_fieldnames g)
          (warnings g ++ [MissingGameId (i + 2)])).

Fixpoint load_rows (g : globals) (i : nat) (rows : list (gmap string string))
  : result globals :=
  match rows with
  | [] => Ok g
  | row :: rest => g' <- load_row g i row ;; load_rows g' (S i) rest
  end.

(** [load_csv_database]; [None] is a path that does not exist. *)
Definition load_csv_database (file : option csv_file) : result globals :=
  match file with
  | None => Ok (mkglobals [] None [])
  | Some f =>
      let names := match fieldnames f with [] => None | l => Some l end in
      load_rows (mkglobals [] names []) 0 (DictReader f)
  end.

(** ** Saving *)

(** [DEFAULT_FIELDNAMES] of config.py ("match_type" stands twice there). *)
Definition DEFAULT_FIELDNAMES : list string :=
  [ "name_original_reference"; "itch_titlename"; "name_overwrite"; "sortname";
    "lang"; "region"; "id"; "tic_id";
    "itch_id"; "source_with_bestversion"; "notes"; "sscrp_id"; "sscrp_id2";
    "sscrp_note1"; "sscrp_note2"; "NOT_GAME";
    "include_in_collection"; "include_in_curated_collection"; "distribution_license";
    "rom_category"; "tic_category";
    "overwrite_author"; "tic_author_name"; "tic_uploader_name"; "itch_author_name";
    "itch_author_slug"; "itch_author_id"; "tic_uploader_id";
    "tic_pub_date"; "tic_upd_date"; "itch_pub_date";
    "itch_upd_date"; "itch_lastmodified_date";
    "overwrite_pub_timestamp"; "overwrite_upd_timestamp";
    "tic_pub_timestamp"; "tic_upd_timestamp"; "itch_pub_timestamp";
    "itch_upd_timestamp"; "itch_lastmodified_timestamp";
    "download_url"; "itch_page";
    "overwrite_genre"; "sccrp_genre"; "itch_genre"; "num_players";
    "esde_controller"; "match_type";
    "tic_md5"; "file_md5"; "file_sha1"; "file_CRC"; "ipfs_cid";
    "overwrite_description"; "sscrp_description"; "tic_description";
    "tic_description_extra"; "itch_description"; "itch_description_extra";
    "match_type" ].

(** Lines 73-89: the columns of the written file. *)
Definition final_fieldnames
  (base : list string) (database : list (string * gmap string string)) : list string :=
  let all_present : gset string :=
    fold_left (fun s row => s ∪ dom row) (dict_values database) ∅ in
  let '(kept, remaining) :=
    fold_left
      (fun '(acc, present) field =>
         if decide (field ∈ present)
         then (acc ++ [field], present ∖ {[field]})
         else (acc, present))
      base (@nil string, all_present) in
  kept ++ py_sorted (fun s => s) (elements remaining).

(** Lines 98-108: the key the rows are sorted by. *)
Definition sort_key (r : gmap string string) : string :=
  strip (lower
    (str_or (str_or (str_or (str_or (get_default r "sortname" "")
                                    (get_default r "name_overwrite" ""))
                            (get_default r "name_original_reference" ""))
                    (get_default r "itch_titlename" ""))
            ""))
  +:+ " " +:+ rjust (strip (get_default r "id" "")) 10 "0".

(** What [save_csv_database] writes: the header and the rows in order.
    [global_fieldnames] is the module variable [_global_fieldnames]. *)
Record written : Type := mkwritten {
  written_header : list string;
  written_rows : list (gmap string string)
}.

Definition save_csv_database
  (global_fieldnames : option (list string))
  (database : list (string * gmap string string)) : written :=
  let base :=
    match global_fieldnames with
    | None | Some [] => DEFAULT_FIELDNAMES
    | Some names => names
    end in
  mkwritten (final_fieldnames base database)
            (py_sorted sort_key (dict_values database)).

(** The cells [DictWriter] writes for one row. *)
Definition written_cells (w : written) : list (list string) :=
  map (fun row => map (fun field => get_default row field "") (written_header w))
      (written_rows w).

(* ================================================================== *)
(** * The specification's wording, as definitions *)
(* ================================================================== *)

(** ** Identity resolver (section 4.1) *)

Inductive source_class : Type := CatalogA | CatalogB | CustomSource.

(** [preferred_source] is read case-insensitively and trimmed. *)
Definition classify_source (preferred_source : string) : source_class :=
  let s := lower (strip preferred_source) in
  if String.eqb s "tic80com" || String.eqb s "" then CatalogA
  else if String.eqb s "itch" then CatalogB
  else CustomSource.

(** The first non-empty string of a list, the empty string if there is none. *)
Fixpoint first_nonempty (l : list string) : string :=
  match l with
  | [] => ""
  | x :: r => if str_truthy x then x else first_nonempty r
  end.

Definition spec_resolve_primary (row : gmap string string) : string :=
  let tic_id := get_default row "tic_id" "" in
  let itch_id := get_default row "itch_id" "" in
  let id_val := get_default row "id" "" in
  let preferred :=
    match classify_source (get_default row "source_with_bestversion" "") with
    | CatalogA => tic_id
    | CatalogB => itch_id
    | CustomSource => id_val
    end in
  if str_truthy preferred then preferred
  else first_nonempty [tic_id; itch_id; id_val].

(** ** Timestamp reconciler (section 4.2) *)

(** A timestamp field counts when it is present, parses as a number and the
    number is not zero. *)
Definition usable_ts (o : option string) : option spec_float :=
  match o with
  | Some s =>
      match py_float s with
      | Ok f => if float_truthy f then Some f else None
      | Raise _ => None
      end
  | None => None
  end.

(** The instant the catalogB rule selects: the earlier of update and
    last-modified, else the one that counts, else the publication time. *)
Definition spec_itch_choice (row : gmap string string) : option spec_float :=
  match usable_ts (row !! "itch_upd_timestamp"),
        usable_ts (row !! "itch_lastmodified_timestamp") with
  | Some u, Some l => Some (py_min u l)
  | Some u, None => Some u
  | None, Some l => Some l
  | None, None => usable_ts (row !! "itch_pub_timestamp")
  end.

(** [a] is not after [b], for two numbers. *)
Definition float_le (a b : spec_float) : bool := SFleb a b.

Definition is_nan (f : spec_float) : bool :=
  match f with S754_nan => true | _ => false end.

(** ** Filename generator (section 4.3) *)



(** The fields of a record the generator reads. *)
Definition naming_fields : list string :=
  [ "source_with_bestversion"; "tic_id"; "itch_id"; "id";
    "name_original_reference"; "itch_titlename"; "name_overwrite";
    "rom_category"; "tic_category";
    "overwrite_upd_timestamp"; "tic_upd_date"; "tic_pub_date";
    "itch_lastmodified_timestamp"; "itch_upd_timestamp"; "itch_pub_timestamp" ].

Definition agree_on (fields : list string) (r1 r2 : gmap string string) : Prop :=
  Forall (fun k => r1 !! k = r2 !! k) fields.

(** ** Record store (section 4.4) *)

(** The display key and the padded canonical identity the specification
    sorts by, and the lexicographic order of such pairs. *)
Definition spec_display_key (r : gmap string string) : string :=
  strip (lower (first_nonempty
    [ get_default r "sortname" ""; get_default r "name_overwrite" "";
      get_default r "name_original_reference" ""; get_default r "itch_titlename" "" ])).

Definition spec_padded_identity (r : gmap string string) : string :=
  rjust (format_opt (get_primary_game_id r)) 10 "0".

Definition pair_lt (a b : string * string) : bool :=
  String.ltb (fst a) (fst b) || (String.eqb (fst a) (fst b) && String.ltb (snd a) (snd b)).

(** The later of the rows of [rows] that resolve to identity [k]. *)
Fixpoint last_with_id (k : string) (rows : list (gmap string string))
  : option (gmap string string) :=
  match rows with
  | [] => None
  | r :: rest =>
      match last_with_id k rest with
      | Some r' => Some r'
      | None => if decide (get_primary_game_id r = Some k) then Some r else None
      end
  end.

(** The store after one more normalized row: the row is filed under its
    identity when that is not empty, and dropped otherwise. *)
Definition store_add
  (db : list (string * gmap string string)) (row : gmap string string)
  : list (string * gmap string string) :=
  if opt_truthy (get_primary_game_id row)
  then dict_set db (format_opt (get_primary_game_id row)) row
  else db.

(** Some usual time zones. *)
Definition utc : Z -> Z := fun _ => 0.
Definition utc_plus_12 : Z -> Z := fun _ => 43200.

(* ================================================================== *)
(** * More of the code *)
(* ================================================================== *)

(** ** More string methods *)

(** [s.startswith(p)] and [needle in s] *)
Definition startswith (s p : string) : bool := String.prefix p s.

Fixpoint contains (needle s : string) : bool :=
  String.prefix needle s
  || match s with
     | EmptyString => false
     | String _ r => contains needle r
     end.

(** [s.replace(old, new)] for a non-empty [old]: the occurrences are taken
    from the left and do not overlap; [skip] counts the characters of the
    occurrence just replaced that are still to be passed over. *)
Fixpoint replace_from (old new : string) (skip : nat) (s : string) : string :=
  match s with
  | EmptyString => EmptyString
  | String c r =>
      match skip with
      | S k => replace_from old new k r
      | O =>
          if String.prefix old s
          then new +:+ replace_from old new (String.length old - 1) r
          else String c (replace_from old new 0 r)
      end
  end.

(** For an empty [old], [new] goes before every character and at the end. *)
Fixpoint replace_empty (new : string) (s : string) : string :=
  match s with
  | EmptyString => new
  | String c r => new +:+ String c (replace_empty new r)
  end.

Definition str_replace (s old new : string) : string :=
  match old with
  | EmptyString => replace_empty new s
  | String _ _ => replace_from old new 0 s
  end.

(** [s[:-n]] *)
Definition drop_last_n (n : nat) (s : string) : string :=
  String.substring 0 (String.length s - n) s.

(** [c.isalpha()] on a character below 128. *)
Definition is_alpha (c : ascii) : bool :=
  let n := N_of_ascii c in
  (((65 <=? n) && (n <=? 90)) || ((97 <=? n) && (n <=? 122)))%N.

(** [s.split(sep)] for a separator of one character: every occurrence
    splits, and empty pieces are kept. *)
Fixpoint split_char_from (sep : ascii) (cur : string) (s : string) : list string :=
  match s with
  | EmptyString => [cur]
  | String c r =>
      if Ascii.eqb c sep then cur :: split_char_from sep EmptyString r
      else split_char_from sep (cur +:+ String c EmptyString) r
  end.

Definition split_char (sep : ascii) (s : string) : list string :=
  split_char_from sep EmptyString s.

(** [s.split(sep, 1)] when [sep] occurs in [s]: the text before the first
    occurrence and the text after it; [None] when [sep in s] is false. *)
Fixpoint partition_char (sep : ascii) (s : string) : option (string * string) :=
  match s with
  | EmptyString => None
  | String c r =>
      if Ascii.eqb c sep then Some (EmptyString, r)
      else match partition_char sep r with
           | Some (a, b) => Some (String c a, b)
           | None => None
           end
  end.

(** ** data_utils.py, continued *)

(** [int(s)] in base 10 for a string: blanks around, a sign, and digits
    that single underscores may separate; more than 4300 digits are refused
    (the interpreter's default limit). *)
Fixpoint int_digits_ok (prev : option ascii) (l : list ascii) : bool :=
  match l with
  | [] => match prev with Some "_"%char | None => false | _ => true end
  | c :: r =>
      (if Ascii.eqb c "_"
       then match prev with Some p => is_digit p | None => false end
       else is_digit c)
      && int_digits_ok (Some c) r
  end.

Definition py_int_of_string (s : string) : result Z :=
  let body := list_ascii_of_string (strip_by c_isspace s) in
  let '(neg, rest) := take_sign body in
  if int_digits_ok None rest && (length (drop_underscores rest) <=? 4300)%nat
  then let n := Z.of_N (digits_value (drop_underscores rest)) in
       Ok (if neg then - n else n)
  else Raise ValueError.

(** [datetime.fromtimestamp(n, tz=timezone.utc)] for an [int], as far as
    the fields that are printed go. *)
Definition fromtimestamp_utc (n : Z) : result (date * Z * Z) :=
  if negb ((- 2 ^ 63 <=? n) && (n <? 2 ^ 63)) then Raise OverflowError
  else
    let d := civil_from_days (n / 86400) in
    if negb ((- 2 ^ 31 <=? year d - 1900) && (year d - 1900 <? 2 ^ 31)) then Raise OSError
    else if negb (year_ok d) then Raise ValueError
    else Ok (d, (n mod 86400) / 3600, (n mod 3600) / 60).

(** [except Exception: ...]: any exception gives the fallback. *)
Definition try_except_all {A : Type} (body : result A) (fallback : A) : A :=
  match body with
  | Ok a => a
  | Raise _ => fallback
  end.

Definition ts_to_parts (ts : string) : string * string :=
  if negb (str_truthy ts) then ("", "")
  else
    try_except_all
      (n <- py_int_of_string ts ;;
       dt <- fromtimestamp_utc n ;;
       let '(d, hour, minute) := dt in
       Ok (strftime_ymd d, zero_pad 2 hour +:+ ":" +:+ zero_pad 2 minute))
      ("", "").

(** [a == b] for a [str | None] and the result of [row.get(k)]. *)
Definition opt_eqb (a b : option string) : bool :=
  match a, b with
  | Some x, Some y => String.eqb x y
  | None, None => true
  | _, _ => false
  end.

Definition get_secondary_game_id (row : gmap string string) : option string :=
  let primary_id := get_primary_game_id row in
  let tic_id := row !! "tic_id" in
  let itch_id := row !! "itch_id" in
  if opt_eqb primary_id tic_id && opt_truthy itch_id && negb (opt_eqb tic_id itch_id)
  then itch_id
  else if opt_eqb primary_id itch_id && opt_truthy tic_id && negb (opt_eqb tic_id itch_id)
  then tic_id
  else None.

Definition parse_raw_headers (raw_headers_str : string) : gmap string string :=
  if negb (str_truthy (strip raw_headers_str)) then ∅
  else
    fold_left
      (fun (headers : gmap string string) line =>
         if startswith (strip line) "#" then headers
         else match partition_char ":" line with
              | Some (key, value) => <[strip key := strip value]> headers
              | None => headers
              end)
      (split_char "010" (strip raw_headers_str)) ∅.

(** ** filename_utils.py, continued *)

(** The loop of lines 32-36: the first alphabetic character is upper-cased. *)
Fixpoint upper_first_alpha (s : string) : string :=
  match s with
  | EmptyString => EmptyString
  | String c r =>
      if is_alpha c then String (upper_char c) r
      else String c (upper_first_alpha r)
  end.

Definition sanitize_game_title_name (name : string) : string :=
  let name := if endswith (lower name) ".tic" then drop_last_n 4 name else name in
  let name := str_replace name "_" " " in
  let name :=
    str_replace
      (str_replace
         (str_replace (str_replace name "&amp;" "&") "&#34;" "'")
         "&#39;" "'")
      (String (ascii_of_N 34) EmptyString) "'" in
  let name := str_join " " (str_split name) in
  upper_first_alpha name.

(** ** gamelist_utils.py *)

Definition escape_xml (text : string) : string :=
  str_replace
    (str_replace
       (str_replace
          (str_replace
             (str_replace (str_replace text "&amp;" "&") "&lt;" "<")
             "&gt;" ">")
          "&" "&amp;")
       "<" "&lt;")
    ">" "&gt;".

Definition get_description (row : gmap string string) : string :=
  let description :=
    strip
      (str_or (str_or (str_or (str_or (get_default row "overwrite_description" "")
                                      (get_default row "sscrp_description" ""))
                              (get_default row "tic_description" ""))
                      (get_default row "itch_description" ""))
              "") in
  escape_xml description.

Definition get_author (row : gmap string string) : string :=
  strip
    (escape_xml
       (str_or (str_or (str_or (get_default row "overwrite_author" "")
                               (get_default row "tic_author_name" ""))
                       (get_default row "itch_author_name" ""))
               "")).

(** ** commands/sync_filenames.py: the modification time of a ROM *)

(** [if s: try: x = float(s) except (ValueError, TypeError): pass], where [x]
    keeps the value it had. *)
Definition float_field_keep (prev : option spec_float) (o : option string)
  : result (option spec_float) :=
  if opt_truthy o
  then try_except (f <- py_float (default "" o) ;; Ok (Some f)) prev
  else Ok prev.

(** Lines 62-119 of [sync_filenames_command]: the timestamp the file's
    modification time is set to, when it is truthy. *)
Definition sync_selected_ts (row : gmap string string) : result (option spec_float) :=
  selected_ts <- float_field_keep None (row !! "overwrite_upd_timestamp") ;;
  selected_ts <-
    (if negb (opt_float_truthy selected_ts)
        && String.eqb (get_default row "source_with_bestversion" "tic80com") "tic80com"
     then
       if opt_truthy (row !! "tic_upd_timestamp")
       then float_field_keep selected_ts (row !! "tic_upd_timestamp")
       else float_field_keep selected_ts (row !! "tic_pub_timestamp")
     else Ok selected_ts) ;;
  if negb (opt_float_truthy selected_ts) then
    itch_upd_ts <- float_field_keep None (row !! "itch_upd_timestamp") ;;
    itch_lastmod_ts <- float_field_keep None (row !! "itch_lastmodified_timestamp") ;;
    if opt_float_truthy itch_upd_ts && opt_float_truthy itch_lastmod_ts
    then Ok (Some (py_min (default S754_nan itch_upd_ts) (default S754_nan itch_lastmod_ts)))
    else if opt_float_truthy itch_upd_ts then Ok itch_upd_ts
    else if opt_float_truthy itch_lastmod_ts then Ok itch_lastmod_ts
    else float_field_keep selected_ts (row !! "itch_pub_timestamp")
  else Ok selected_ts.

(** Lines 142 and 156 of [find_game_file]: the pattern looked for, and the
    test a file name has to pass. *)
Definition game_file_pattern (game_id : string) : string :=
  "- " +:+ game_id +:+ " (".

Definition game_file_matches (game_id name : string) : bool :=
  contains (game_file_pattern game_id) name.

(* ================================================================== *)
(** * Notions used in the statements *)
(* ================================================================== *)

(** A word: a non-empty string without white space. *)
Definition word (w : string) : Prop :=
  w <> "" /\ Forall (fun c => isspace c = false) (list_ascii_of_string w).

(** The characters of a file name after [create_safe_filename]. *)
Definition safe_char (c : ascii) : Prop :=
  mem_char c FORBIDDEN_CHARS = false /\ (isspace c = true -> c = " "%char).

(** Every ampersand of [s] starts one of the entities written by
    [escape_xml]. *)
Fixpoint ampersands_escaped (s : string) : bool :=
  match s with
  | EmptyString => true
  | String c r =>
      (if Ascii.eqb c "&"
       then String.prefix "amp;" r || String.prefix "lt;" r || String.prefix "gt;" r
       else true)
      && ampersands_escaped r
  end.

(** [f(c)] for every character [c] of [s], joined. *)
Fixpoint concat_map_string (f : ascii -> string) (s : string) : string :=
  match s with
  | EmptyString => EmptyString
  | String c r => f c +:+ concat_map_string f r
  end.

Definition xml_entity (c : ascii) : string :=
  if Ascii.eqb c "&" then "&amp;"
  else if Ascii.eqb c "<" then "&lt;"
  else if Ascii.eqb c ">" then "&gt;"
  else String c EmptyString.

(** The timestamp the generator turns into a date, if any: the overwrite
    timestamp when it counts; else, when the catalogA dates are not taken at
    lines 75-76, the timestamp chosen among the itch fields. *)
Definition rendered_ts (row : gmap string string) : option spec_float :=
  match usable_ts (row !! "overwrite_upd_timestamp") with
  | Some f => Some f
  | None => if String.eqb (tic_step row "") "" then spec_itch_choice row else None
  end.

(** The key a row is stored under. *)
Definition store_key (row : gmap string string) : string :=
  format_opt (get_primary_game_id row).

(* ================================================================== *)
(** * Properties *)
(* ================================================================== *)

(** ** Strings *)

Lemma str_truthy_false (s : string) : str_truthy s = false <-> s = "".
Proof. destruct s; simpl; split; intros H; congruence. Qed.

Lemma str_truthy_true (s : string) : str_truthy s = true <-> s <> "".
Proof. destruct s; simpl; split; intros H; congruence. Qed.

Lemma str_or_empty (a b : string) : str_or a b = "" <-> a = "" /\ b = "".
Proof.
  unfold str_or. destruct a as [|c a]; simpl.
  - split; [intros ->; auto | intros [_ ->]; reflexivity].
  - split; [discriminate | intros [H _]; discriminate].
Qed.

Lemma str_or_assoc (a b c : string) :
  str_or (str_or a b) c = str_or a (str_or b c).
Proof. unfold str_or. destruct a, b; reflexivity. Qed.

Lemma first_nonempty_or (a b c : string) :
  first_nonempty [a; b; c] = str_or (str_or a b) c.
Proof. unfold str_or. simpl. destruct a, b, c; reflexivity. Qed.

Lemma eqb_empty_truthy (s : string) : String.eqb s "" = negb (str_truthy s).
Proof. destruct s; reflexivity. Qed.

(** ** Identity resolver *)

Lemma primary_is_spec (row : gmap string string) :
  get_primary_game_id row = Some (spec_resolve_primary row).
Proof.
  unfold get_primary_game_id, spec_resolve_primary, classify_source.
  rewrite first_nonempty_or, eqb_empty_truthy.
  set (source := lower (strip (get_default row "source_with_bestversion" ""))).
  destruct (String.eqb source "tic80com"), (str_truthy source),
    (String.eqb source "itch"); simpl;
    match goal with |- context [str_truthy ?p] => destruct (str_truthy p) end;
    reflexivity.
Qed.

Lemma spec_primary_empty (row : gmap string string) :
  spec_resolve_primary row = "" <->
  get_default row "tic_id" "" = ""
  /\ get_default row "itch_id" "" = ""
  /\ get_default row "id" "" = "".
Proof.
  unfold spec_resolve_primary. rewrite first_nonempty_or.
  set (t := get_default row "tic_id" "").
  set (i := get_default row "itch_id" "").
  set (d := get_default row "id" "").
  clearbody t i d.
  destruct (classify_source _), t, i, d; unfold str_or; simpl;
    intuition congruence.
Qed.

(** C1, as amended: the primary identifier is the field the preferred
    source designates ([tic_id] for [tic80com] or an empty source,
    [itch_id] for [itch], [id] otherwise; the source is trimmed and its case
    ignored) when that field is not empty, and else the first non-empty of
    [tic_id], [itch_id], [id]. The result is always a string, never [None];
    it is the empty string exactly when the three identifier fields are
    empty, so a record with an identifier gets a non-empty one. *)
Theorem get_primary_game_id_resolves (row : gmap string string) :
  get_primary_game_id row = Some (spec_resolve_primary row)
  /\ get_primary_game_id row <> None
  /\ (spec_resolve_primary row = "" <->
      get_default row "tic_id" "" = ""
      /\ get_default row "itch_id" "" = ""
      /\ get_default row "id" "" = "").
Proof.
  split; [apply primary_is_spec |].
  split; [rewrite primary_is_spec; discriminate | apply spec_primary_empty].
Qed.

(** C1 as stated fails: for a record without any identifier the function
    returns the empty string, which is not [None]. *)
Lemma get_primary_game_id_blank_record_not_None :
  let row : gmap string string :=
    {[ "name_original_reference" := "Cave"; "tic_id" := ""; "itch_id" := ""; "id" := "" ]} in
  get_default row "tic_id" "" = ""
  /\ get_default row "itch_id" "" = ""
  /\ get_default row "id" "" = ""
  /\ get_primary_game_id row = Some ""
  /\ get_primary_game_id row <> None.
Proof. vm_compute. repeat split; discriminate. Qed.

(** The examples of the specification. *)
Example primary_prefers_catalogA :
  get_primary_game_id
    {[ "source_with_bestversion" := ""; "tic_id" := "42"; "itch_id" := "99" ]}
  = Some "42".
Proof. vm_compute. reflexivity. Qed.

Example primary_falls_back :
  get_primary_game_id
    {[ "source_with_bestversion" := " Itch "; "tic_id" := "42"; "itch_id" := "" ]}
  = Some "42".
Proof. vm_compute. reflexivity. Qed.

(** ** Floats and guarded conversions *)

Lemma py_float_raises (s : string) (e : exn) :
  py_float s = Raise e -> e = ValueError.
Proof.
  unfold py_float.
  destruct (negb (underscores_ok None _)); [congruence |].
  destruct (take_sign _) as [neg rest].
  destruct (String.eqb _ "inf" || String.eqb _ "infinity"); [discriminate |].
  destruct (String.eqb _ "nan"); [discriminate |].
  destruct (parse_decimal rest) as [[m e10]|]; [discriminate | congruence].
Qed.

Lemma py_float_empty : py_float "" = Raise ValueError.
Proof. reflexivity. Qed.

(** The guarded conversion never raises, and what it yields counts as a
    timestamp exactly when [usable_ts] says so. *)
Lemma float_field_usable (o : option string) :
  exists r, float_field o = Ok r
            /\ (if opt_float_truthy r then usable_ts o = r else usable_ts o = None).
Proof.
  destruct o as [s|]; [| exists None; split; reflexivity].
  unfold float_field, opt_truthy, usable_ts.
  destruct (str_truthy s) eqn:Hs.
  - simpl. destruct (py_float s) as [f|e] eqn:Hf; simpl.
    + exists (Some f). split; [reflexivity |]. simpl.
      destruct (float_truthy f); reflexivity.
    + apply py_float_raises in Hf. subst e. simpl.
      exists None. split; reflexivity.
  - apply str_truthy_false in Hs. subst s. rewrite py_float_empty.
    exists None. split; reflexivity.
Qed.

Lemma usable_ts_None (o : option string) :
  usable_ts o = None <->
  o = None
  \/ (exists s, o = Some s /\ raises (py_float s))
  \/ (exists s z, o = Some s /\ py_float s = Ok (S754_zero z)).
Proof.
  unfold usable_ts. destruct o as [s|].
  - destruct (py_float s) as [f|e] eqn:Hf.
    + split.
      * intros H. destruct f; simpl in H; try discriminate.
        right. right. eauto.
      * intros [H | [(s' & H & Hr) | (s' & z & H & Hz)]].
        -- discriminate.
        -- injection H as <-. rewrite Hf in Hr. simpl in Hr. contradiction.
        -- injection H as <-. rewrite Hf in Hz. injection Hz as ->. reflexivity.
    + split; [intros _ | reflexivity].
      right. left. exists s. rewrite Hf. simpl. auto.
  - split; auto.
Qed.

Lemma usable_ts_Some (o : option string) (f : spec_float) :
  usable_ts o = Some f <->
  exists s, o = Some s /\ py_float s = Ok f /\ float_truthy f = true.
Proof.
  unfold usable_ts. destruct o as [s|].
  - destruct (py_float s) as [g|e] eqn:Hg.
    + destruct (float_truthy g) eqn:Ht; split.
      * intros [= <-]. eauto.
      * intros (s' & [= <-] & Hs & _). congruence.
      * discriminate.
      * intros (s' & [= <-] & Hs & Hf). congruence.
    + split; [discriminate |]. intros (s' & [= <-] & Hs & _). congruence.
  - split; [discriminate |]. intros (s' & Hs & _). discriminate.
Qed.

(** ** Timestamp reconciler *)

Section Reconciler.

Variable tz : Z -> Z.

Lemma overwrite_date_usable (row : gmap string string) :
  overwrite_date tz row =
  match usable_ts (row !! "overwrite_upd_timestamp") with
  | Some f => render tz f
  | None => Ok ""
  end.
Proof.
  unfold overwrite_date.
  destruct (float_field_usable (row !! "overwrite_upd_timestamp")) as (r & -> & Hr).
  simpl. destruct (opt_float_truthy r) eqn:Ht.
  - rewrite Hr. destruct r as [f|]; [| discriminate]. simpl.
    destruct (opt_truthy _) eqn:Hp; [reflexivity |].
    destruct (row !! "overwrite_upd_timestamp") as [s|] eqn:Hrow; [| discriminate].
    simpl in Hp. apply str_truthy_false in Hp. subst s.
    simpl in Hr. discriminate.
  - rewrite Hr, andb_false_r. reflexivity.
Qed.

Lemma itch_selected_usable (row : gmap string string) :
  exists r, itch_selected_ts row = Ok r
            /\ (if opt_float_truthy r then spec_itch_choice row = r
                else spec_itch_choice row = None).
Proof.
  unfold itch_selected_ts, spec_itch_choice.
  destruct (float_field_usable (row !! "itch_lastmodified_timestamp")) as (l & -> & Hl).
  destruct (float_field_usable (row !! "itch_upd_timestamp")) as (u & -> & Hu).
  simpl.
  destruct (opt_float_truthy u) eqn:Htu, (opt_float_truthy l) eqn:Htl;
    rewrite Hu, Hl; simpl.
  - destruct u as [u|], l as [l|]; try discriminate. simpl.
    eexists. split; [reflexivity |].
    assert (Hmin : float_truthy (py_min u l) = true)
      by (unfold py_min; destruct (SFltb l u); assumption).
    simpl. rewrite Hmin. reflexivity.
  - destruct u as [u|]; [| discriminate].
    exists (Some u). split; [reflexivity |]. simpl in *. rewrite Htu. reflexivity.
  - destruct l as [l|]; [| discriminate].
    exists (Some l). split; [reflexivity |]. simpl in *. rewrite Htl.
    destruct u; reflexivity.
  - destruct (float_field_usable (row !! "itch_pub_timestamp")) as (p & Hp & Hp').
    exists p. split; [exact Hp |].
    destruct u, (opt_float_truthy p); exact Hp'.
Qed.

Lemma itch_step_usable (row : gmap string string) :
  itch_step tz row "" =
  match spec_itch_choice row with
  | Some f => render tz f
  | None => Ok (tic_date row)
  end.
Proof.
  unfold itch_step. simpl.
  destruct (itch_selected_usable row) as (r & -> & Hr). simpl.
  destruct (opt_float_truthy r) eqn:Ht; rewrite Hr.
  - destruct r; [reflexivity | discriminate].
  - reflexivity.
Qed.

Lemma itch_step_nonempty (row : gmap string string) (d : string) :
  d <> "" -> itch_step tz row d = Ok d.
Proof.
  intros Hd. unfold itch_step.
  rewrite eqb_empty_truthy. apply str_truthy_true in Hd. rewrite Hd. reflexivity.
Qed.

End Reconciler.

Lemma append_empty (a b : string) : a +:+ b = "" -> a = "" /\ b = "".
Proof. destruct a; simpl; [auto | discriminate]. Qed.

Lemma strftime_ymd_nonempty (d : date) : strftime_ymd d <> "".
Proof.
  unfold strftime_ymd. intros H.
  apply append_empty in H as [_ H]. discriminate.
Qed.

Lemma tic_step_nonempty (row : gmap string string) (d : string) :
  d <> "" -> tic_step row d = d.
Proof.
  intros Hd. unfold tic_step.
  rewrite eqb_empty_truthy. apply str_truthy_true in Hd. rewrite Hd. reflexivity.
Qed.

(** C2, as amended: when [overwrite_upd_timestamp] is present, parses as a
    number other than zero and that instant has a date, the date in the ROM
    filename is that date (in the local time zone, as YYYY-MM-DD), whatever
    the preferred source and the other fields are. When the field is
    missing, does not parse (the empty string included) or parses to zero,
    it counts as absent: this step yields no date and raises nothing, and
    the date is the one the following rules give. *)
Theorem overwrite_timestamp_precedence
  (tz : Z -> Z) (row : gmap string string)
  (use_custom_filenames use_custom_gamenames filename_category_parenthesis : bool)
  (filename_case rom_folder_organization : string) :
  (forall s f d,
      row !! "overwrite_upd_timestamp" = Some s ->
      py_float s = Ok f ->
      float_truthy f = true ->
      fromtimestamp tz f = Ok d ->
      effective_date tz row = Ok (strftime_ymd d)
      /\ exists fi,
          generate_filename_and_gamename tz row use_custom_filenames
            use_custom_gamenames filename_category_parenthesis filename_case
            rom_folder_organization = Ok fi
          /\ rom_filename fi =
             pre_filename fi +:+ " - " +:+ format_opt (get_primary_game_id row)
             +:+ " (" +:+ strftime_ymd d +:+ ").tic")
  /\ (row !! "overwrite_upd_timestamp" = None
      \/ (exists s, row !! "overwrite_upd_timestamp" = Some s /\ raises (py_float s))
      \/ (exists s z, row !! "overwrite_upd_timestamp" = Some s
                      /\ py_float s = Ok (S754_zero z)) ->
      overwrite_date tz row = Ok ""
      /\ effective_date tz row = itch_step tz row (tic_step row "")).
Proof.
  split.
  - intros s f d Hrow Hf Ht Hd.
    assert (Hu : usable_ts (row !! "overwrite_upd_timestamp") = Some f)
      by (apply usable_ts_Some; eauto).
    assert (He : effective_date tz row = Ok (strftime_ymd d)).
    { unfold effective_date. rewrite overwrite_date_usable, Hu.
      unfold render. rewrite Hd. simpl.
      rewrite tic_step_nonempty by apply strftime_ymd_nonempty.
      apply itch_step_nonempty, strftime_ymd_nonempty. }
    split; [exact He |].
    unfold generate_filename_and_gamename. rewrite He. simpl.
    eexists. split; reflexivity.
  - intros H. apply usable_ts_None in H.
    unfold effective_date. rewrite overwrite_date_usable, H. simpl. auto.
Qed.

Lemma overwrite_timestamp_precedence_witness :
  let row1 : gmap string string :=
    {[ "overwrite_upd_timestamp" := "1749562835.7";
       "source_with_bestversion" := "itch";
       "itch_upd_timestamp" := "86400"; "tic_upd_date" := "2022-01-01" ]} in
  let row2 : gmap string string :=
    {[ "overwrite_upd_timestamp" := "soon";
       "source_with_bestversion" := "tic80com"; "tic_upd_date" := "2022-01-01" ]} in
  effective_date utc row1 = Ok "2025-06-10"
  /\ effective_date utc row2 = itch_step utc row2 (tic_step row2 "").
Proof.
  intros row1 row2. split.
  - refine (proj1 (proj1 (overwrite_timestamp_precedence utc row1 true true true
                            "unchanged" "single")
                     "1749562835.7"
                     (S754_finite false 7338198400027853 (-22))
                     (mkdate 2025 6 10) _ _ _ _));
      vm_compute; reflexivity.
  - refine (proj2 (proj2 (overwrite_timestamp_precedence utc row2 true true true
                            "unchanged" "single") _)).
    right. left. exists "soon". split; vm_compute; [reflexivity | exact I].
Defined.

(** C2 as stated fails: the timestamp [0] is present and parses as a number,
    and its date is 1970-01-01; the generated name carries the catalogA
    date instead. *)
Lemma overwrite_timestamp_zero_is_skipped :
  let row : gmap string string :=
    {[ "overwrite_upd_timestamp" := "0"; "tic_id" := "42";
       "name_original_reference" := "Cave"; "tic_upd_date" := "2022-01-01" ]} in
  py_float "0" = Ok (S754_zero false)
  /\ render utc (S754_zero false) = Ok "1970-01-01"
  /\ (fi <- generate_filename_and_gamename utc row false false false
             "unchanged" "multiple" ;; Ok (rom_filename fi))
     = Ok "Cave - 42 (2022-01-01).tic".
Proof. vm_compute. repeat split. Qed.

(** A number that has no date is not skipped: the conversion to a date
    raises, and nothing in the generator catches it. *)
Lemma overwrite_timestamp_without_date_raises :
  let row (v : string) : gmap string string :=
    {[ "overwrite_upd_timestamp" := v; "tic_id" := "42";
       "name_original_reference" := "Cave"; "tic_upd_date" := "2022-01-01" ]} in
  generate_filename_and_gamename utc (row "nan") false false false
    "unchanged" "multiple" = Raise ValueError
  /\ generate_filename_and_gamename utc (row "inf") false false false
       "unchanged" "multiple" = Raise OverflowError
  /\ generate_filename_and_gamename utc (row "1e12") false false false
       "unchanged" "multiple" = Raise ValueError.
Proof. vm_compute. repeat split. Qed.

Lemma overwrite_date_lookup (tz : Z -> Z) (r1 r2 : gmap string string) :
  r1 !! "overwrite_upd_timestamp" = r2 !! "overwrite_upd_timestamp" ->
  overwrite_date tz r1 = overwrite_date tz r2.
Proof. intros H. rewrite !overwrite_date_usable, H. reflexivity. Qed.

Lemma tic_rule_core (tz : Z -> Z) (row : gmap string string) :
  overwrite_date tz row = Ok "" ->
  get_default row "source_with_bestversion" "tic80com" = "tic80com" ->
  tic_date row <> "" ->
  effective_date tz row = Ok (tic_date row).
Proof.
  intros Ho Hs Hd. unfold effective_date. rewrite Ho. simpl.
  unfold tic_step. rewrite Hs. simpl.
  apply itch_step_nonempty, Hd.
Qed.

(** When no itch timestamp counts, the itch step ends on the catalogA
    dates, whatever the source is. *)
Lemma tic_dates_without_itch (tz : Z -> Z) (row : gmap string string) :
  overwrite_date tz row = Ok "" ->
  spec_itch_choice row = None ->
  effective_date tz row = Ok (tic_date row).
Proof.
  intros Ho Hi. unfold effective_date. rewrite Ho. simpl.
  unfold tic_step. simpl.
  destruct (String.eqb (get_default row "source_with_bestversion" "tic80com")
                       "tic80com").
  - destruct (tic_date row) as [|c d] eqn:Hd.
    + rewrite itch_step_usable, Hi, Hd. reflexivity.
    + apply itch_step_nonempty. discriminate.
  - rewrite itch_step_usable, Hi. reflexivity.
Qed.

(** C3, as amended: when the overwrite step gave no date and one of
    [tic_upd_date], [tic_pub_date] is not empty, the effective date is
    [tic_upd_date] if that is not empty and else [tic_pub_date], copied as it
    stands, in each of these cases: the source field is absent from the
    record; it is exactly [tic80com]; or no itch timestamp counts (whatever
    the source is, so in particular when it is present but empty). In the
    first two cases this holds whatever the itch timestamp fields hold. *)
Theorem tic_dates_used_directly (tz : Z -> Z) (row : gmap string string) :
  overwrite_date tz row = Ok "" ->
  tic_date row <> "" ->
  row !! "source_with_bestversion" = None
  \/ row !! "source_with_bestversion" = Some "tic80com"
  \/ spec_itch_choice row = None ->
  effective_date tz row = Ok (tic_date row)
  /\ tic_date row =
     (if opt_truthy (row !! "tic_upd_date") then default "" (row !! "tic_upd_date")
      else get_default row "tic_pub_date" "")
  /\ (row !! "source_with_bestversion" = None
      \/ row !! "source_with_bestversion" = Some "tic80com" ->
      forall u l p : string,
        effective_date tz
          (<["itch_upd_timestamp" := u]>
             (<["itch_lastmodified_timestamp" := l]>
                (<["itch_pub_timestamp" := p]> row)))
        = Ok (tic_date row)).
Proof.
  intros Ho Hd Hcase.
  assert (Hsrc : row !! "source_with_bestversion" = None
                 \/ row !! "source_with_bestversion" = Some "tic80com" ->
                 get_default row "source_with_bestversion" "tic80com" = "tic80com")
    by (unfold get_default; intros [-> | ->]; reflexivity).
  split; [| split].
  - destruct Hcase as [Hs | [Hs | Hi]].
    + apply tic_rule_core; auto.
    + apply tic_rule_core; auto.
    + apply tic_dates_without_itch; assumption.
  - unfold tic_date, opt_or, opt_truthy, str_or.
    destruct (row !! "tic_upd_date") as [s|]; [| reflexivity].
    destruct (str_truthy s); reflexivity.
  - intros Hs u l p. apply Hsrc in Hs.
    set (row' := <["itch_upd_timestamp" := u]> _).
    assert (Hl : forall k, k <> "itch_upd_timestamp" ->
                           k <> "itch_lastmodified_timestamp" ->
                           k <> "itch_pub_timestamp" -> row' !! k = row !! k).
    { intros k H1 H2 H3. unfold row'.
      rewrite !lookup_insert_ne by congruence. reflexivity. }
    assert (Hd' : tic_date row' = tic_date row).
    { unfold tic_date, get_default. rewrite !Hl by discriminate. reflexivity. }
    rewrite <- Hd'. apply tic_rule_core.
    + rewrite <- Ho. apply overwrite_date_lookup, Hl; discriminate.
    + unfold get_default. rewrite Hl by discriminate. exact Hs.
    + rewrite Hd'. exact Hd.
Qed.

(** The example of the specification (an empty source, no itch
    timestamp), and a record without a source field under itch timestamps
    of every kind. *)
Lemma tic_dates_used_directly_witness :
  let example : gmap string string :=
    {[ "source_with_bestversion" := ""; "tic_id" := "42";
       "tic_upd_date" := "2022-01-01"; "tic_pub_date" := "2020-01-01";
       "itch_upd_timestamp" := "0"; "itch_pub_timestamp" := "" ]} in
  let row : gmap string string :=
    {[ "tic_id" := "42"; "tic_upd_date" := "2022-01-01";
       "tic_pub_date" := "2020-01-01" ]} in
  effective_date utc example = Ok "2022-01-01"
  /\ effective_date utc
       (<["itch_upd_timestamp" := "1700000000"]>
          (<["itch_lastmodified_timestamp" := "1600000000"]>
             (<["itch_pub_timestamp" := "soon"]> row)))
     = Ok "2022-01-01".
Proof.
  intros example row. split.
  - refine (proj1 (tic_dates_used_directly utc example _ _ _)).
    + vm_compute. reflexivity.
    + vm_compute. discriminate.
    + right. right. vm_compute. reflexivity.
  - refine (proj2 (proj2 (tic_dates_used_directly utc row _ _ _)) _
              "1700000000" "1600000000" "soon").
    + vm_compute. reflexivity.
    + vm_compute. discriminate.
    + left. vm_compute. reflexivity.
    + left. vm_compute. reflexivity.
Defined.

(** C3 as stated fails: with the source [tic80com] and both catalogA dates
    empty, the date is not the (empty) [tic_pub_date]; selection goes on to
    the itch timestamps. *)
Lemma tic_dates_empty_falls_to_itch :
  let row : gmap string string :=
    {[ "source_with_bestversion" := "tic80com"; "tic_id" := "42";
       "tic_upd_date" := ""; "tic_pub_date" := "";
       "itch_upd_timestamp" := "86400" ]} in
  overwrite_date utc row = Ok ""
  /\ row !! "tic_upd_date" = Some ""
  /\ row !! "tic_pub_date" = Some ""
  /\ effective_date utc row = Ok "1970-01-02".
Proof. vm_compute. repeat split. Qed.

(** A source that is present but empty does not take the catalogA rule
    when an itch timestamp counts, unlike an absent one: line 75 defaults a
    missing key only, where [get_primary_game_id] and [get_rom_category]
    read the empty source as [tic80com]. *)
Lemma empty_source_skips_tic_dates :
  let row : gmap string string :=
    {[ "source_with_bestversion" := ""; "tic_id" := "42";
       "tic_upd_date" := "2022-01-01"; "tic_pub_date" := "2020-01-01";
       "itch_upd_timestamp" := "86400" ]} in
  effective_date utc row = Ok "1970-01-02"
  /\ effective_date utc (delete "source_with_bestversion" row) = Ok "2022-01-01"
  /\ get_rom_category row = get_rom_category (delete "source_with_bestversion" row)
  /\ get_primary_game_id row = get_primary_game_id (delete "source_with_bestversion" row).
Proof. vm_compute. repeat split. Qed.

(** ** The earlier of two instants *)

Lemma SFcompare_refl (x : spec_float) :
  is_nan x = false -> SFcompare x x = Some Eq.
Proof.
  destruct x as [s|s| |s m e]; simpl; try discriminate; intros _.
  - reflexivity.
  - destruct s; reflexivity.
  - rewrite Z.compare_refl.
    assert (H : Pos.compare_cont Eq m m = Eq) by apply Pos.compare_refl.
    rewrite H. destruct s; reflexivity.
Qed.

Lemma SFcompare_antisym (x y : spec_float) :
  SFcompare y x = option_map CompOpp (SFcompare x y).
Proof.
  destruct x as [s1|s1| |s1 m1 e1], y as [s2|s2| |s2 m2 e2]; simpl;
    try reflexivity; try (destruct s1; reflexivity);
    try (destruct s2; reflexivity); try (destruct s1, s2; reflexivity).
  assert (Hm : Pos.compare_cont Eq m2 m1 = CompOpp (Pos.compare_cont Eq m1 m2))
    by (rewrite Pos.compare_cont_antisym; reflexivity).
  rewrite (Z.compare_antisym e1 e2), Hm.
  destruct s1, s2, (e1 ?= e2), (Pos.compare_cont Eq m1 m2); reflexivity.
Qed.

Lemma SFcompare_defined (x y : spec_float) :
  is_nan x = false -> is_nan y = false -> exists c, SFcompare x y = Some c.
Proof.
  destruct x, y; simpl; try discriminate; intros _ _; eauto.
Qed.

Lemma py_min_choice (a b : spec_float) : py_min a b = a \/ py_min a b = b.
Proof. unfold py_min. destruct (SFltb b a); auto. Qed.

Lemma py_min_le (a b : spec_float) :
  is_nan a = false -> is_nan b = false ->
  float_le (py_min a b) a = true /\ float_le (py_min a b) b = true.
Proof.
  intros Ha Hb. unfold py_min, float_le, SFltb, SFleb.
  destruct (SFcompare_defined b a Hb Ha) as [c Hc].
  pose proof (SFcompare_antisym b a) as Hanti. rewrite Hc in Hanti.
  rewrite Hc. destruct c; simpl in Hanti.
  - rewrite SFcompare_refl by assumption. rewrite Hanti. auto.
  - rewrite Hc, SFcompare_refl by assumption. auto.
  - rewrite SFcompare_refl by assumption. rewrite Hanti. auto.
Qed.

(** C4, as amended: on the catalogB branch (no overwrite date and no
    catalogA date taken), a timestamp field counts when it parses as a
    number other than zero. If [itch_upd_timestamp] and
    [itch_lastmodified_timestamp] both count, the date is rendered from the
    earlier of the two; if one counts, from that one; otherwise from
    [itch_pub_timestamp] if it counts; otherwise the date is [tic_upd_date],
    else [tic_pub_date]. An update instant after the last-modified one gives
    the date of the last-modified one. *)
Theorem itch_timestamp_rule (tz : Z -> Z) (row : gmap string string) :
  overwrite_date tz row = Ok "" ->
  tic_step row "" = "" ->
  effective_date tz row =
    match spec_itch_choice row with
    | Some f => render tz f
    | None => Ok (tic_date row)
    end
  /\ forall u l,
      usable_ts (row !! "itch_upd_timestamp") = Some u ->
      usable_ts (row !! "itch_lastmodified_timestamp") = Some l ->
      spec_itch_choice row = Some (py_min u l)
      /\ (py_min u l = u \/ py_min u l = l)
      /\ (is_nan u = false -> is_nan l = false ->
          float_le (py_min u l) u = true /\ float_le (py_min u l) l = true)
      /\ (SFltb l u = true -> effective_date tz row = render tz l).
Proof.
  intros Ho Ht.
  assert (He : effective_date tz row =
               match spec_itch_choice row with
               | Some f => render tz f
               | None => Ok (tic_date row)
               end).
  { unfold effective_date. rewrite Ho. simpl. rewrite Ht.
    apply itch_step_usable. }
  split; [exact He |].
  intros u l Hu Hl.
  assert (Hc : spec_itch_choice row = Some (py_min u l))
    by (unfold spec_itch_choice; rewrite Hu, Hl; reflexivity).
  split; [exact Hc |].
  split; [apply py_min_choice |].
  split; [apply py_min_le |].
  intros Hlt. rewrite He, Hc. unfold py_min. rewrite Hlt. reflexivity.
Qed.

Lemma itch_timestamp_rule_witness :
  let row : gmap string string :=
    {[ "source_with_bestversion" := "itch"; "itch_id" := "99";
       "itch_upd_timestamp" := "1700000000";
       "itch_lastmodified_timestamp" := "1600000000.5";
       "itch_pub_timestamp" := "1500000000" ]} in
  effective_date utc row = Ok "2020-09-13".
Proof.
  intros row.
  pose proof (itch_timestamp_rule utc row) as H.
  destruct H as [_ H]; [vm_compute; reflexivity | vm_compute; reflexivity |].
  destruct (H (float_of_decimal false 1700000000 0)
              (float_of_decimal false 16000000005 (-1))) as (_ & _ & _ & Hl);
    [vm_compute; reflexivity | vm_compute; reflexivity |].
  rewrite Hl; vm_compute; reflexivity.
Defined.

(** C4 as stated fails: both timestamps parse as numbers and the earlier
    of the two instants is 1970-01-01, yet the date comes from the
    last-modified instant alone, because a timestamp of zero is skipped. *)
Lemma itch_zero_timestamp_is_skipped :
  let row : gmap string string :=
    {[ "source_with_bestversion" := "itch"; "itch_id" := "99";
       "itch_upd_timestamp" := "0";
       "itch_lastmodified_timestamp" := "86400" ]} in
  overwrite_date utc row = Ok ""
  /\ tic_step row "" = ""
  /\ py_float "0" = Ok (S754_zero false)
  /\ py_float "86400" = Ok (float_of_decimal false 86400 0)
  /\ render utc (py_min (S754_zero false) (float_of_decimal false 86400 0))
     = Ok "1970-01-01"
  /\ effective_date utc row = Ok "1970-01-02".
Proof. vm_compute. repeat split. Qed.

(** ** Filename generator *)






(** A category that is present but empty is a category other than [Games]. *)
Example category_suffix_of_empty_category :
  category_suffix "single" true (get_rom_category {[ "tic_category" := "" ]}) = " ()".
Proof. vm_compute. reflexivity. Qed.

(** ** Determinism and the fields that matter *)

Ltac split_agree H :=
  unfold agree_on, naming_fields in H;
  repeat match type of H with
         | Forall _ (_ :: _) =>
             let Hk := fresh "Hk" in
             pose proof (Forall_inv H) as Hk; simpl in Hk;
             apply Forall_inv_tail in H
         end;
  clear H.

Ltac rewrite_agree :=
  repeat match goal with
         | Hk : _ !! _ = _ !! _ |- _ => rewrite ?Hk; clear Hk
         end.

Lemma get_primary_game_id_agree (r1 r2 : gmap string string) :
  agree_on naming_fields r1 r2 ->
  get_primary_game_id r1 = get_primary_game_id r2.
Proof.
  intros H. split_agree H.
  unfold get_primary_game_id, get_default. rewrite_agree. reflexivity.
Qed.

Lemma get_rom_category_agree (r1 r2 : gmap string string) :
  agree_on naming_fields r1 r2 ->
  get_rom_category r1 = get_rom_category r2.
Proof.
  intros H. split_agree H.
  unfold get_rom_category, get_default. rewrite_agree. reflexivity.
Qed.

Lemma effective_date_agree (tz : Z -> Z) (r1 r2 : gmap string string) :
  agree_on naming_fields r1 r2 ->
  effective_date tz r1 = effective_date tz r2.
Proof.
  intros H. split_agree H.
  unfold effective_date, overwrite_date, tic_step, itch_step, itch_selected_ts,
    tic_date, get_default.
  rewrite_agree. reflexivity.
Qed.

Lemma agree_on_insert (fields : list string) (row : gmap string string) (k v : string) :
  k ∉ fields -> agree_on fields (<[k := v]> row) row.
Proof.
  intros Hk. unfold agree_on. apply Forall_forall. intros x Hx.
  apply lookup_insert_ne. intros ->. exact (Hk Hx).
Qed.

(** C6, as amended: under one local time zone the generated names are a
    function of the naming options and of the fifteen fields the generator
    reads. Two records that agree on those fields give the same [FileInfo]
    (or the same exception), so changing any other field, a description
    for one, leaves [rom_filename] and the rest unchanged. *)
Theorem generate_reads_naming_fields_only
  (tz : Z -> Z) (r1 r2 : gmap string string)
  (use_custom_filenames use_custom_gamenames filename_category_parenthesis : bool)
  (filename_case rom_folder_organization : string) :
  agree_on naming_fields r1 r2 ->
  generate_filename_and_gamename tz r1 use_custom_filenames use_custom_gamenames
    filename_category_parenthesis filename_case rom_folder_organization
  = generate_filename_and_gamename tz r2 use_custom_filenames use_custom_gamenames
      filename_category_parenthesis filename_case rom_folder_organization
  /\ forall k v : string,
      k ∉ naming_fields ->
      generate_filename_and_gamename tz (<[k := v]> r1) use_custom_filenames
        use_custom_gamenames filename_category_parenthesis filename_case
        rom_folder_organization
      = generate_filename_and_gamename tz r2 use_custom_filenames
          use_custom_gamenames filename_category_parenthesis filename_case
          rom_folder_organization.
Proof.
  assert (Hgen : forall a b, agree_on naming_fields a b ->
            generate_filename_and_gamename tz a use_custom_filenames
              use_custom_gamenames filename_category_parenthesis filename_case
              rom_folder_organization
            = generate_filename_and_gamename tz b use_custom_filenames
                use_custom_gamenames filename_category_parenthesis filename_case
                rom_folder_organization).
  { intros a b H. unfold generate_filename_and_gamename.
    rewrite (get_primary_game_id_agree a b H), (get_rom_category_agree a b H),
      (effective_date_agree tz a b H).
    split_agree H. unfold get_default. rewrite_agree. reflexivity. }
  intros H. split; [apply Hgen, H |].
  intros k v Hk. rewrite (Hgen (<[k := v]> r1) r1 (agree_on_insert _ _ _ _ Hk)).
  apply Hgen, H.
Qed.

Lemma generate_reads_naming_fields_only_witness :
  let row : gmap string string :=
    {[ "name_original_reference" := "Cave"; "tic_id" := "42";
       "tic_upd_date" := "2022-01-01"; "tic_description" := "A cave." ]} in
  generate_filename_and_gamename utc
    (<["tic_description" := "A deep cave."]> row) true true true "lowercase" "single"
  = generate_filename_and_gamename utc row true true true "lowercase" "single".
Proof.
  intros row.
  refine (proj2 (generate_reads_naming_fields_only utc row row true true true
                   "lowercase" "single" _) "tic_description" "A deep cave." _).
  - apply Forall_forall. reflexivity.
  - vm_compute. intros H. repeat (inversion H as [|? ? ? H']; clear H; rename H' into H).
Defined.

(** C6 as stated fails: the record and the options do not fix the name,
    because timestamps are rendered in the time zone of the process. *)
Lemma generate_depends_on_time_zone :
  let row : gmap string string :=
    {[ "source_with_bestversion" := "itch"; "itch_id" := "99";
       "itch_titlename" := "Cave"; "itch_upd_timestamp" := "1700000000" ]} in
  (fi <- generate_filename_and_gamename utc row false false false
           "unchanged" "multiple" ;; Ok (rom_filename fi))
  = Ok "Cave - 99 (2023-11-14).tic"
  /\ (fi <- generate_filename_and_gamename utc_plus_12 row false false false
              "unchanged" "multiple" ;; Ok (rom_filename fi))
     = Ok "Cave - 99 (2023-11-15).tic".
Proof. vm_compute. repeat split. Qed.

(** ** The order of strings and the stable sort *)

Lemma ascii_compare_refl (a : ascii) : Ascii.compare a a = Eq.
Proof. unfold Ascii.compare. apply N.compare_refl. Qed.

Lemma ascii_compare_lt_trans (a b c : ascii) :
  Ascii.compare a b = Lt -> Ascii.compare b c = Lt -> Ascii.compare a c = Lt.
Proof.
  unfold Ascii.compare. rewrite !N.compare_lt_iff. apply N.lt_trans.
Qed.

Lemma string_compare_refl (s : string) : String.compare s s = Eq.
Proof.
  induction s as [|a s IH]; simpl; [reflexivity |].
  rewrite ascii_compare_refl. exact IH.
Qed.

Lemma string_compare_lt_trans (a b c : string) :
  String.compare a b = Lt -> String.compare b c = Lt -> String.compare a c = Lt.
Proof.
  revert b c. induction a as [|x a IH]; intros [|y b] [|z c]; simpl;
    try discriminate; try reflexivity.
  destruct (Ascii.compare x y) eqn:Hxy; try discriminate;
    destruct (Ascii.compare y z) eqn:Hyz; try discriminate; intros Hab Hbc.
  - apply Ascii.compare_eq_iff in Hxy, Hyz. subst.
    rewrite ascii_compare_refl. eapply IH; eassumption.
  - apply Ascii.compare_eq_iff in Hxy. subst. rewrite Hyz. reflexivity.
  - apply Ascii.compare_eq_iff in Hyz. subst. rewrite Hxy. reflexivity.
  - rewrite (ascii_compare_lt_trans x y z Hxy Hyz). reflexivity.
Qed.

Lemma str_le_spec (a b : string) :
  str_le a b = true <-> String.compare a b = Lt \/ a = b.
Proof.
  unfold str_le, String.leb.
  destruct (String.compare a b) eqn:H; split; intros H'; auto.
  - right. apply String.compare_eq_iff, H.
  - discriminate.
  - destruct H' as [H' | ->]; [discriminate |].
    rewrite string_compare_refl in H. discriminate.
Qed.

Lemma str_le_refl (a : string) : str_le a a = true.
Proof. apply str_le_spec. auto. Qed.

Lemma str_le_trans (a b c : string) :
  str_le a b = true -> str_le b c = true -> str_le a c = true.
Proof.
  rewrite !str_le_spec. intros [Hab | ->] [Hbc | ->]; auto.
  left. eapply string_compare_lt_trans; eassumption.
Qed.

Lemma str_le_total (a b : string) : str_le a b = true \/ str_le b a = true.
Proof. apply String.leb_total. Qed.

Section Sorted.

Context {A : Type} (key : A -> string).

Lemma insert_by_perm (x : A) (l : list A) :
  Permutation (x :: l) (insert_by key x l).
Proof.
  induction l as [|y l IH]; simpl; [reflexivity |].
  destruct (str_le (key x) (key y)); [reflexivity |].
  rewrite <- IH. apply perm_swap.
Qed.

Lemma insert_by_sorted (x : A) (l : list A) :
  StronglySorted (key_le key) l -> StronglySorted (key_le key) (insert_by key x l).
Proof.
  induction l as [|y l IH]; simpl; intros Hs.
  - constructor; [constructor | constructor].
  - inversion Hs as [|? ? Hl Hy]; subst.
    destruct (str_le (key x) (key y)) eqn:Hxy.
    + constructor; [exact Hs |].
      constructor; [exact Hxy |].
      eapply Forall_impl; [exact Hy |].
      intros z Hz. eapply str_le_trans; [exact Hxy | exact Hz].
    + constructor; [apply IH, Hl |].
      assert (Hyx : key_le key y x).
      { destruct (str_le_total (key x) (key y)) as [H | H]; [congruence | exact H]. }
      eapply Permutation_Forall; [apply insert_by_perm |].
      constructor; assumption.
Qed.

Lemma py_sorted_perm (l : list A) : Permutation l (py_sorted key l).
Proof.
  induction l as [|x l IH]; simpl; [reflexivity |].
  rewrite <- insert_by_perm. constructor. exact IH.
Qed.

Lemma py_sorted_sorted (l : list A) : StronglySorted (key_le key) (py_sorted key l).
Proof.
  induction l as [|x l IH]; simpl; [constructor |].
  apply insert_by_sorted, IH.
Qed.

Lemma strongly_sorted_lookup (l : list A) (i j : nat) (x y : A) :
  StronglySorted (key_le key) l ->
  (i < j)%nat -> l !! i = Some x -> l !! j = Some y -> key_le key x y.
Proof.
  intros Hs. revert i j. induction Hs as [|a l Hl IH Ha]; intros i j Hij Hi Hj.
  - discriminate.
  - destruct j as [|j]; [lia |]. simpl in Hj.
    destruct i as [|i].
    + injection Hi as <-. rewrite Forall_forall in Ha.
      apply Ha. eapply list_elem_of_lookup_2, Hj.
    + simpl in Hi. apply (IH i j); [lia | assumption | assumption].
Qed.

(** [sorted] is stable: the elements of one key keep their order. *)
Lemma insert_by_stable (k : string) (x : A) (l : list A) :
  List.filter (fun y => String.eqb (key y) k) (insert_by key x l)
  = List.filter (fun y => String.eqb (key y) k) (x :: l).
Proof.
  induction l as [|y l IH]; [reflexivity |].
  cbn [insert_by]. destruct (str_le (key x) (key y)) eqn:Hxy; [reflexivity |].
  cbn [List.filter] in *. rewrite IH.
  destruct (String.eqb (key x) k) eqn:Hx, (String.eqb (key y) k) eqn:Hy;
    try reflexivity.
  apply String.eqb_eq in Hx, Hy. rewrite Hx, Hy, str_le_refl in Hxy. discriminate.
Qed.

Lemma py_sorted_stable (k : string) (l : list A) :
  List.filter (fun y => String.eqb (key y) k) (py_sorted key l)
  = List.filter (fun y => String.eqb (key y) k) l.
Proof.
  induction l as [|x l IH]; [reflexivity |].
  cbn [py_sorted foldr]. rewrite insert_by_stable.
  cbn [List.filter]. unfold py_sorted in IH. rewrite IH. reflexivity.
Qed.

End Sorted.

Lemma first_nonempty_or4 (a b c d : string) :
  str_or (str_or (str_or (str_or a b) c) d) "" = first_nonempty [a; b; c; d].
Proof. unfold str_or. simpl. destruct a, b, c, d; reflexivity. Qed.

(** C7, as amended: the rows are written in the order of one string key,
    the display key (the first non-empty of [sortname], [name_overwrite],
    [name_original_reference], [itch_titlename], lower-cased and trimmed)
    followed by a space and by the record's [id] field, trimmed and
    left-padded with zeros to 10 characters. The written rows are the rows
    of the store; of any two of them the earlier one has the smaller or
    equal key, and rows of equal key stay in the order of the store. *)
Theorem save_rows_sorted_by_key
  (global_fieldnames : option (list string))
  (database : list (string * gmap string string)) :
  let out := written_rows (save_csv_database global_fieldnames database) in
  Permutation (dict_values database) out
  /\ (forall i j ri rj,
        (i < j)%nat -> out !! i = Some ri -> out !! j = Some rj ->
        str_le (sort_key ri) (sort_key rj) = true)
  /\ (forall k,
        List.filter (fun r => String.eqb (sort_key r) k) out
        = List.filter (fun r => String.eqb (sort_key r) k) (dict_values database))
  /\ forall r,
      sort_key r =
      spec_display_key r +:+ " " +:+ rjust (strip (get_default r "id" "")) 10 "0".
Proof.
  simpl. split; [apply py_sorted_perm |]. split; [| split].
  - intros i j ri rj Hij Hi Hj.
    exact (strongly_sorted_lookup sort_key _ i j ri rj
             (py_sorted_sorted sort_key _) Hij Hi Hj).
  - intros k. apply py_sorted_stable.
  - intros r. unfold sort_key, spec_display_key.
    rewrite first_nonempty_or4. reflexivity.
Qed.

(** C7 as stated fails: two records with the same display key are written
    in the order of their [id] fields, not of their canonical identities. *)
Lemma save_orders_by_id_field :
  let a : gmap string string :=
    {[ "name_original_reference" := "Cave"; "tic_id" := "1"; "id" := "2" ]} in
  let b : gmap string string :=
    {[ "name_original_reference" := "Cave"; "tic_id" := "2"; "id" := "1" ]} in
  get_primary_game_id a = Some "1"
  /\ get_primary_game_id b = Some "2"
  /\ pair_lt (spec_display_key a, spec_padded_identity a)
             (spec_display_key b, spec_padded_identity b) = true
  /\ written_rows (save_csv_database None [("1", a); ("2", b)]) = [b; a].
Proof. vm_compute. repeat split. Qed.

(** The key is one string, so a display key that extends another one can
    come before it: the join compares the padding with the extension. *)
Lemma save_key_is_one_string :
  let a : gmap string string :=
    {[ "name_original_reference" := "Cave"; "tic_id" := "1"; "id" := "1" ]} in
  let b : gmap string string :=
    {[ "name_original_reference" := "Cave !"; "tic_id" := "2"; "id" := "2" ]} in
  pair_lt (spec_display_key a, spec_padded_identity a)
          (spec_display_key b, spec_padded_identity b) = true
  /\ written_rows (save_csv_database None [("1", a); ("2", b)]) = [b; a].
Proof. vm_compute. repeat split. Qed.

(** ** Insertion-ordered dictionaries *)

Section Dict.

Context {V : Type}.

Lemma dict_get_set (d : list (string * V)) (k k' : string) (v : V) :
  dict_get (dict_set d k v) k' = if String.eqb k' k then Some v else dict_get d k'.
Proof.
  induction d as [|[k0 v0] d IH]; simpl.
  - reflexivity.
  - destruct (String.eqb k k0) eqn:Hk; simpl.
    + apply String.eqb_eq in Hk. subst k0.
      destruct (String.eqb k' k); reflexivity.
    + rewrite IH. destruct (String.eqb k' k0) eqn:Hk0; [| reflexivity].
      apply String.eqb_eq in Hk0. subst k0.
      rewrite String.eqb_sym, Hk. reflexivity.
Qed.

Lemma dict_set_keys_in (d : list (string * V)) (k k' : string) (v : V) :
  k' ∈ dict_keys (dict_set d k v) <-> k' = k \/ k' ∈ dict_keys d.
Proof.
  unfold dict_keys. induction d as [|[k0 v0] d IH]; simpl.
  - rewrite list_elem_of_singleton. split; [auto | intros [H | H]; [exact H |]].
    apply not_elem_of_nil in H. contradiction.
  - destruct (String.eqb k k0) eqn:Hk; simpl.
    + apply String.eqb_eq in Hk. subst k0. rewrite !elem_of_cons. tauto.
    + rewrite !elem_of_cons, IH. tauto.
Qed.

Lemma dict_set_NoDup (d : list (string * V)) (k : string) (v : V) :
  NoDup (dict_keys d) -> NoDup (dict_keys (dict_set d k v)).
Proof.
  unfold dict_keys. induction d as [|[k0 v0] d IH]; simpl; intros Hd.
  - apply NoDup_singleton.
  - apply NoDup_cons in Hd as [Hk0 Hd].
    destruct (String.eqb k k0) eqn:Hk; simpl.
    + apply String.eqb_eq in Hk. subst k0. apply NoDup_cons. auto.
    + apply NoDup_cons. split; [| apply IH, Hd].
      intros Hin. apply (dict_set_keys_in d k k0 v) in Hin as [-> | Hin].
      * rewrite String.eqb_refl in Hk. discriminate.
      * exact (Hk0 Hin).
Qed.

Lemma dict_get_elem (d : list (string * V)) (k : string) (v : V) :
  dict_get d k = Some v -> (k, v) ∈ d.
Proof.
  induction d as [|[k0 v0] d IH]; simpl; [discriminate |].
  destruct (String.eqb k k0) eqn:Hk.
  - apply String.eqb_eq in Hk. subst k0. intros [= ->]. apply list_elem_of_here.
  - intros H. apply list_elem_of_further, IH, H.
Qed.

Lemma dict_elem_get (d : list (string * V)) (k : string) (v : V) :
  NoDup (dict_keys d) -> (k, v) ∈ d -> dict_get d k = Some v.
Proof.
  unfold dict_keys. induction d as [|[k0 v0] d IH]; simpl; intros Hd Hin.
  - apply not_elem_of_nil in Hin. contradiction.
  - apply NoDup_cons in Hd as [Hk0 Hd].
    apply elem_of_cons in Hin as [[= -> ->] | Hin].
    + rewrite String.eqb_refl. reflexivity.
    + destruct (String.eqb k k0) eqn:Hk; [| apply IH; assumption].
      apply String.eqb_eq in Hk. subst k0. exfalso. apply Hk0.
      apply (list_elem_of_fmap_2 fst) in Hin. exact Hin.
Qed.

End Dict.

(** ** Loading *)

Lemma primary_some (row : gmap string string) :
  exists k, get_primary_game_id row = Some k.
Proof. eexists. apply primary_is_spec. Qed.

Lemma store_add_get (db : list (string * gmap string string))
  (n : gmap string string) (k : string) :
  k <> "" ->
  dict_get (store_add db n) k =
  if decide (get_primary_game_id n = Some k) then Some n else dict_get db k.
Proof.
  intros Hk. unfold store_add.
  destruct (primary_some n) as [k' Hn]. rewrite Hn. simpl.
  destruct (str_truthy k') eqn:Ht.
  - rewrite dict_get_set. destruct (String.eqb k k') eqn:He.
    + apply String.eqb_eq in He. subst k'. rewrite decide_True; reflexivity.
    + apply String.eqb_neq in He. rewrite decide_False; [reflexivity |].
      intros [= ->]. congruence.
  - apply str_truthy_false in Ht. subst k'.
    rewrite decide_False; [reflexivity |]. intros [= <-]. congruence.
Qed.

Lemma store_add_get_empty (db : list (string * gmap string string))
  (n : gmap string string) :
  dict_get (store_add db n) "" = dict_get db "".
Proof.
  unfold store_add. destruct (primary_some n) as [k' Hn]. rewrite Hn. simpl.
  destruct (str_truthy k') eqn:Ht; [| reflexivity].
  rewrite dict_get_set. destruct k'; [discriminate | reflexivity].
Qed.

Lemma store_add_NoDup (db : list (string * gmap string string))
  (n : gmap string string) :
  NoDup (dict_keys db) -> NoDup (dict_keys (store_add db n)).
Proof.
  intros H. unfold store_add.
  destruct (opt_truthy _); [apply dict_set_NoDup, H | exact H].
Qed.

Lemma fold_store_get (nrows : list (gmap string string)) :
  forall (db : list (string * gmap string string)) (k : string),
    k <> "" ->
    dict_get (fold_left store_add nrows db) k =
    match last_with_id k nrows with
    | Some r => Some r
    | None => dict_get db k
    end.
Proof.
  induction nrows as [|n nrows IH]; intros db k Hk; simpl; [reflexivity |].
  rewrite IH by exact Hk.
  destruct (last_with_id k nrows); [reflexivity |].
  rewrite store_add_get by exact Hk.
  destruct (decide _); reflexivity.
Qed.

Lemma fold_store_get_empty (nrows : list (gmap string string)) :
  forall db : list (string * gmap string string),
    dict_get (fold_left store_add nrows db) "" = dict_get db "".
Proof.
  induction nrows as [|n nrows IH]; intros db; simpl; [reflexivity |].
  rewrite IH. apply store_add_get_empty.
Qed.

Lemma fold_store_NoDup (nrows : list (gmap string string)) :
  forall db : list (string * gmap string string),
    NoDup (dict_keys db) -> NoDup (dict_keys (fold_left store_add nrows db)).
Proof.
  induction nrows as [|n nrows IH]; intros db H; simpl; [exact H |].
  apply IH, store_add_NoDup, H.
Qed.

Lemma last_with_id_Some (k : string) (nrows : list (gmap string string))
  (r : gmap string string) :
  last_with_id k nrows = Some r -> get_primary_game_id r = Some k /\ r ∈ nrows.
Proof.
  induction nrows as [|n nrows IH]; simpl; [discriminate |].
  destruct (last_with_id k nrows) as [r'|].
  - intros [= ->]. destruct (IH eq_refl) as [H1 H2].
    split; [exact H1 | apply list_elem_of_further, H2].
  - destruct (decide _) as [Hn|]; [| discriminate].
    intros [= <-]. split; [exact Hn | apply list_elem_of_here].
Qed.

Lemma load_row_spec (g g' : globals) (i : nat) (row : gmap string string) :
  load_row g i row = Ok g' ->
  exists n,
    normalize_row row = Ok n
    /\ _global_db g' = store_add (_global_db g) n
    /\ _global_fieldnames g' = _global_fieldnames g
    /\ forall l,
        MissingGameId l ∈ warnings g' <->
        MissingGameId l ∈ warnings g
        \/ (l = (i + 2)%nat /\ get_primary_game_id n = Some "").
Proof.
  unfold load_row. destruct (normalize_row row) as [n|e]; [| discriminate].
  simpl. intros H. exists n. split; [reflexivity |].
  unfold store_add. destruct (primary_some n) as [k Hn]. rewrite Hn in *.
  simpl in *. destruct (str_truthy k) eqn:Ht; injection H as <-; simpl.
  - repeat split; try reflexivity.
    + intros Hin. left. apply elem_of_app in Hin as [Hin | Hin]; [exact Hin |].
      destruct (dict_contains _ k).
      * apply list_elem_of_singleton in Hin. discriminate.
      * apply not_elem_of_nil in Hin. contradiction.
    + intros [Hin | [_ [= ->]]]; [apply elem_of_app; auto | discriminate].
  - apply str_truthy_false in Ht. subst k. repeat split; try reflexivity.
    + intros Hin. apply elem_of_app in Hin as [Hin | Hin]; [auto |].
      apply list_elem_of_singleton in Hin. injection Hin as ->. auto.
    + intros [Hin | [-> _]]; apply elem_of_app; [auto |].
      right. apply list_elem_of_singleton. reflexivity.
Qed.

Lemma load_rows_spec (rows : list (gmap string string)) :
  forall (g g' : globals) (i0 : nat),
    load_rows g i0 rows = Ok g' ->
    exists nrows,
      Forall2 (fun r n => normalize_row r = Ok n) rows nrows
      /\ _global_db g' = fold_left store_add nrows (_global_db g)
      /\ _global_fieldnames g' = _global_fieldnames g
      /\ forall l,
          MissingGameId l ∈ warnings g' <->
          MissingGameId l ∈ warnings g
          \/ exists i n, nrows !! i = Some n /\ l = (i0 + i + 2)%nat
                         /\ get_primary_game_id n = Some "".
Proof.
  induction rows as [|row rows IH]; intros g g' i0; simpl.
  - intros [= <-]. exists []. repeat split; try constructor; auto.
    intros [H | (i & n & H & _)]; [exact H | discriminate].
  - destruct (load_row g i0 row) as [g1|e] eqn:H1; [| discriminate]. simpl.
    intros H2.
    destruct (load_row_spec _ _ _ _ H1) as (n & Hn & Hdb1 & Hf1 & Hw1).
    destruct (IH _ _ _ H2) as (nrows & Hns & Hdb2 & Hf2 & Hw2).
    exists (n :: nrows). split; [constructor; assumption |].
    split; [simpl; rewrite Hdb2, Hdb1; reflexivity |].
    split; [congruence |].
    intros l. rewrite Hw2, Hw1. split.
    + intros [[H | [-> Hp]] | (i & m & Hi & -> & Hp)].
      * auto.
      * right. exists 0%nat, n. repeat split; [f_equal; lia | exact Hp].
      * right. exists (S i), m. repeat split; [exact Hi | lia | exact Hp].
    + intros [H | (i & m & Hi & -> & Hp)]; [auto |].
      destruct i as [|i]; simpl in Hi.
      * injection Hi as <-. left. right. split; [lia | exact Hp].
      * right. exists i, m. repeat split; [exact Hi | lia | exact Hp].
Qed.

(** The load completes when every row has the three identifier columns and
    none of their cells reads as an infinite number. *)
Lemma load_rows_total (rows : list (gmap string string)) :
  Forall (fun r => exists n, normalize_row r = Ok n) rows ->
  forall (g : globals) (i0 : nat), exists g', load_rows g i0 rows = Ok g'.
Proof.
  induction 1 as [|row rows [n Hn] _ IH]; intros g i0; simpl; [eauto |].
  unfold load_row. rewrite Hn. simpl.
  destruct (opt_truthy _); simpl; apply IH.
Qed.

(** C8: after a load that completes, the keys of the store are pairwise
    distinct; every stored record is filed under its own canonical identity,
    which is not empty; an identity is in the store exactly when some row
    resolves to it, and the record kept is the last such row (with its three
    identifiers normalized); a row that resolves to no identifier is not
    stored, and a warning with its line number is printed. *)
Theorem load_store_invariants
  (rows : list (gmap string string)) (names : option (list string)) (g : globals) :
  load_rows (mkglobals [] names []) 0 rows = Ok g ->
  exists nrows,
    Forall2 (fun r n => normalize_row r = Ok n) rows nrows
    /\ NoDup (dict_keys (_global_db g))
    /\ (forall k r, (k, r) ∈ _global_db g ->
          k <> "" /\ get_primary_game_id r = Some k /\ r ∈ nrows)
    /\ (forall k, k <> "" -> dict_get (_global_db g) k = last_with_id k nrows)
    /\ (forall i n, nrows !! i = Some n -> get_primary_game_id n = Some "" ->
          (n ∉ dict_values (_global_db g))
          /\ (MissingGameId (i + 2) ∈ warnings g)).
Proof.
  intros Hload.
  destruct (load_rows_spec _ _ _ _ Hload) as (nrows & Hns & Hdb & _ & Hw).
  simpl in Hdb, Hw. exists nrows.
  assert (Hnd : NoDup (dict_keys (_global_db g))).
  { rewrite Hdb. apply fold_store_NoDup. apply NoDup_nil_2. }
  assert (Hget : forall k, k <> "" ->
                   dict_get (_global_db g) k = last_with_id k nrows).
  { intros k Hk. rewrite Hdb, fold_store_get by exact Hk.
    destruct (last_with_id k nrows); reflexivity. }
  assert (Hstored : forall k r, (k, r) ∈ _global_db g ->
            k <> "" /\ get_primary_game_id r = Some k /\ r ∈ nrows).
  { intros k r Hin. apply (dict_elem_get _ _ _ Hnd) in Hin.
    assert (Hk : k <> "").
    { intros ->. rewrite Hdb, fold_store_get_empty in Hin. discriminate. }
    split; [exact Hk |]. rewrite Hget in Hin by exact Hk.
    apply last_with_id_Some, Hin. }
  do 4 (split; [assumption |]).
  intros i n Hi Hp. split.
  - intros Hin. unfold dict_values in Hin.
    apply list_elem_of_fmap in Hin as ([k r] & -> & Hin). simpl in *.
    destruct (Hstored k r Hin) as (Hk & Hp' & _). congruence.
  - apply Hw. right. exists i, n. repeat split; assumption.
Qed.

(** The two-row file of the specification: both rows resolve to the
    identity 7, and the store holds the second row alone. *)
Lemma load_store_invariants_witness :
  let file :=
    mkcsv ["id"; "itch_id"; "tic_id"; "name_original_reference"]
          [ ["7.0"; ""; ""; "first"]; [""; ""; " 7 "; "second"] ] in
  let second : gmap string string :=
    {[ "id" := ""; "itch_id" := ""; "tic_id" := "7";
       "name_original_reference" := "second" ]} in
  exists g,
    load_csv_database (Some file) = Ok g
    /\ _global_db g = [("7", second)]
    /\ NoDup (dict_keys (_global_db g)).
Proof.
  intros file second.
  assert (Hload : load_rows (mkglobals [] (Some (fieldnames file)) []) 0
                    (DictReader file)
                  = Ok (mkglobals [("7", second)] (Some (fieldnames file))
                          [DuplicateGameId "7"]))
    by (vm_compute; reflexivity).
  eexists. split; [exact Hload |]. split; [reflexivity |].
  destruct (load_store_invariants _ _ _ Hload) as (nrows & _ & Hnd & _).
  exact Hnd.
Defined.

(** ** Identifier normalization *)

Lemma py_int_raises (f : spec_float) (e : exn) :
  py_int f = Raise e ->
  (e = ValueError /\ f = S754_nan)
  \/ (e = OverflowError /\ exists s, f = S754_infinity s).
Proof.
  destruct f; simpl; intros H; try discriminate; injection H as <-; eauto.
Qed.

(** The only exception that leaves [normalize_id] is the [OverflowError] of
    [int] on an infinite float. *)
Lemma normalize_id_raises (id_str : string) (e : exn) :
  normalize_id id_str = Raise e ->
  e = OverflowError
  /\ exists s, py_float (strip id_str) = Ok (S754_infinity s).
Proof.
  unfold normalize_id. destruct (str_truthy id_str); simpl; [| discriminate].
  destruct (py_float (strip id_str)) as [f|e'] eqn:Hf; simpl.
  - destruct (py_int f) as [n|e'] eqn:Hn; simpl; [discriminate |].
    apply py_int_raises in Hn as [[-> ->] | [-> [s ->]]]; simpl.
    + discriminate.
    + intros [= <-]. eauto.
  - apply py_float_raises in Hf. subst e'. simpl. discriminate.
Qed.

(** C9: an identifier that reads as an infinite number makes
    [normalize_id] raise [OverflowError] instead of returning a value; the
    handler of the function catches [ValueError] and [TypeError] only. The
    examples of the specification hold. *)
Theorem normalize_id_infinite_raises :
  normalize_id "inf" = Raise OverflowError
  /\ normalize_id "Infinity" = Raise OverflowError
  /\ normalize_id "-inf" = Raise OverflowError
  /\ normalize_id "1e999" = Raise OverflowError
  /\ normalize_id "nan" = Ok "nan"
  /\ normalize_id "329.0" = Ok "329"
  /\ normalize_id "AB12" = Ok "AB12".
Proof. vm_compute. repeat split. Qed.

(** An identifier that is not a number comes back trimmed, and trimmed
    identifiers of that kind are fixed points. *)
Lemma normalize_id_not_a_number (id_str : string) :
  raises (py_float (strip id_str)) \/ py_float (strip id_str) = Ok S754_nan ->
  normalize_id id_str = Ok (strip id_str).
Proof.
  intros H. unfold normalize_id. destruct (str_truthy id_str) eqn:Ht; simpl.
  - destruct H as [H | H].
    + destruct (py_float (strip id_str)) as [f|e] eqn:Hf; [contradiction |].
      apply py_float_raises in Hf. subst e. reflexivity.
    + rewrite H. reflexivity.
  - apply str_truthy_false in Ht. subst id_str. reflexivity.
Qed.

(** ** Loading a file without an identifier column *)

Lemma fold_insert_lookup_None (l : list (string * string)) :
  forall (m : gmap string string) (c : string),
    fold_left (fun m kv => <[fst kv := snd kv]> m) l m !! c = None
    <-> (c ∉ map fst l) /\ m !! c = None.
Proof.
  induction l as [|[k v] l IH]; intros m c; simpl.
  - split; [intros H; split; [apply not_elem_of_nil | exact H] | intros [_ H]; exact H].
  - rewrite IH, not_elem_of_cons, lookup_insert_None. intuition congruence.
Qed.

Lemma map_fst_combine_same_length (names cells : list string) :
  length cells = length names -> map fst (combine names cells) = names.
Proof.
  revert cells. induction names as [|x names IH]; intros [|y cells] H;
    simpl in *; try discriminate; [reflexivity |].
  f_equal. apply IH. lia.
Qed.

Lemma dict_of_cells_lookup_None (names cells : list string) (c : string) :
  length cells = length names ->
  dict_of_cells names cells !! c = None <-> c ∉ names.
Proof.
  intros H. unfold dict_of_cells.
  rewrite fold_insert_lookup_None, map_fst_combine_same_length by exact H.
  rewrite lookup_empty. tauto.
Qed.

Lemma normalize_field_missing (row : gmap string string) (c : string) :
  row !! c = None -> normalize_field row c = Raise (KeyError c).
Proof. intros H. unfold normalize_field, getitem. rewrite H. reflexivity. Qed.

Lemma normalize_field_present (row : gmap string string) (c v : string) :
  row !! c = Some v ->
  (exists n, normalize_id v = Ok n /\ normalize_field row c = Ok (<[c := n]> row))
  \/ (raises (normalize_id v) /\ normalize_field row c = Raise OverflowError).
Proof.
  intros H. unfold normalize_field, getitem. rewrite H. simpl.
  destruct (normalize_id v) as [n|e] eqn:Hn; simpl; [eauto |].
  apply normalize_id_raises in Hn as [-> _]. auto.
Qed.

(** A row that lacks an identifier column never normalizes: it raises the
    [KeyError] of the first missing column, unless a cell before it already
    overflowed. *)
Lemma normalize_row_missing_column (row : gmap string string) :
  ~ (is_Some (row !! "id") /\ is_Some (row !! "itch_id") /\ is_Some (row !! "tic_id")) ->
  exists e,
    normalize_row row = Raise e
    /\ (e = OverflowError
        \/ exists c, c ∈ ["id"; "itch_id"; "tic_id"] /\ row !! c = None
                     /\ e = KeyError c)
    /\ ((forall c v, row !! c = Some v -> ~ raises (normalize_id v)) ->
        e <> OverflowError).
Proof.
  intros Hmiss.
  assert (Hkey : forall c, c ∈ ["id"; "itch_id"; "tic_id"] -> row !! c = None ->
            exists e, @Raise (gmap string string) (KeyError c) = Raise e
              /\ (e = OverflowError
                  \/ exists c, c ∈ ["id"; "itch_id"; "tic_id"] /\ row !! c = None
                               /\ e = KeyError c)
              /\ ((forall c v, row !! c = Some v -> ~ raises (normalize_id v)) ->
                  e <> OverflowError)).
  { intros c Hc Hnone. exists (KeyError c). split; [reflexivity |].
    split; [right; eauto | discriminate]. }
  assert (Hover : forall c v, row !! c = Some v -> raises (normalize_id v) ->
            exists e, @Raise (gmap string string) OverflowError = Raise e
              /\ (e = OverflowError
                  \/ exists c, c ∈ ["id"; "itch_id"; "tic_id"] /\ row !! c = None
                               /\ e = KeyError c)
              /\ ((forall c v, row !! c = Some v -> ~ raises (normalize_id v)) ->
                  e <> OverflowError)).
  { intros c v Hc Hr. exists OverflowError. split; [reflexivity |].
    split; [auto |]. intros Hall. exfalso. exact (Hall c v Hc Hr). }
  unfold normalize_row.
  destruct (row !! "id") as [v1|] eqn:H1.
  2: { rewrite normalize_field_missing by exact H1. simpl.
       apply Hkey; [set_solver | exact H1]. }
  destruct (normalize_field_present row "id" v1 H1) as [(n1 & _ & ->) | [Hr ->]];
    simpl; [| exact (Hover _ _ H1 Hr)].
  destruct (row !! "itch_id") as [v2|] eqn:H2.
  2: { rewrite normalize_field_missing
         by (rewrite lookup_insert_ne by discriminate; exact H2).
       simpl. apply Hkey; [set_solver | exact H2]. }
  destruct (normalize_field_present (<["id" := n1]> row) "itch_id" v2)
    as [(n2 & _ & ->) | [Hr ->]];
    [rewrite lookup_insert_ne by discriminate; exact H2 | |
     simpl; exact (Hover _ _ H2 Hr)].
  simpl.
  destruct (row !! "tic_id") as [v3|] eqn:H3.
  2: { rewrite normalize_field_missing
         by (rewrite !lookup_insert_ne by discriminate; exact H3).
       apply Hkey; [set_solver | exact H3]. }
  exfalso. apply Hmiss. eauto.
Qed.

(** When the identifier cells of the row normalize, the exception is the
    [KeyError] of a missing column; the other cells are not looked at. *)
Lemma normalize_row_key_error (row : gmap string string) :
  ~ (is_Some (row !! "id") /\ is_Some (row !! "itch_id") /\ is_Some (row !! "tic_id")) ->
  (forall c v, c ∈ ["id"; "itch_id"; "tic_id"] -> row !! c = Some v ->
               ~ raises (normalize_id v)) ->
  exists c, c ∈ ["id"; "itch_id"; "tic_id"] /\ row !! c = None
            /\ normalize_row row = Raise (KeyError c).
Proof.
  intros Hmiss Hids.
  assert (Hin1 : "id" ∈ ["id"; "itch_id"; "tic_id"]) by apply list_elem_of_here.
  assert (Hin2 : "itch_id" ∈ ["id"; "itch_id"; "tic_id"])
    by apply list_elem_of_further, list_elem_of_here.
  assert (Hin3 : "tic_id" ∈ ["id"; "itch_id"; "tic_id"])
    by apply list_elem_of_further, list_elem_of_further, list_elem_of_here.
  unfold normalize_row.
  destruct (row !! "id") as [v1|] eqn:H1.
  2: { exists "id". rewrite normalize_field_missing by exact H1. auto. }
  destruct (normalize_field_present row "id" v1 H1) as [(n1 & _ & ->) | [Hr _]];
    [| exfalso; exact (Hids _ _ Hin1 H1 Hr)].
  simpl.
  destruct (row !! "itch_id") as [v2|] eqn:H2.
  2: { exists "itch_id". rewrite normalize_field_missing
         by (rewrite lookup_insert_ne by discriminate; exact H2). auto. }
  destruct (normalize_field_present (<["id" := n1]> row) "itch_id" v2)
    as [(n2 & _ & ->) | [Hr _]];
    [rewrite lookup_insert_ne by discriminate; exact H2 | |
     exfalso; exact (Hids _ _ Hin2 H2 Hr)].
  simpl.
  destruct (row !! "tic_id") as [v3|] eqn:H3.
  2: { exists "tic_id". rewrite normalize_field_missing
         by (rewrite !lookup_insert_ne by discriminate; exact H3). auto. }
  exfalso. apply Hmiss. eauto.
Qed.

(** C10, as amended: a missing file loads as the empty store, and so does
    a file without a data row, whatever its header. A file whose header
    lacks one of the columns [id], [itch_id], [tic_id] and that has a data
    row never loads: the first data row raises, nothing is dropped or
    returned. When the identifier cells of that row normalize, the exception
    is the [KeyError] of a missing column, whatever the other cells hold. *)
Theorem load_fails_without_identifier_column :
  load_csv_database None = Ok (mkglobals [] None [])
  /\ (forall f : csv_file,
        List.filter (fun cells => negb (Nat.eqb (length cells) 0)) (records f) = [] ->
        load_csv_database (Some f)
        = Ok (mkglobals [] (match fieldnames f with [] => None | l => Some l end) []))
  /\ forall (f : csv_file) (cells : list string) (rest : list (list string)),
      csv_wf f ->
      List.filter (fun cells => negb (Nat.eqb (length cells) 0)) (records f)
      = cells :: rest ->
      ~ ("id" ∈ fieldnames f /\ "itch_id" ∈ fieldnames f /\ "tic_id" ∈ fieldnames f) ->
      (exists e, load_csv_database (Some f) = Raise e)
      /\ ((forall c v, c ∈ ["id"; "itch_id"; "tic_id"] ->
                       dict_of_cells (fieldnames f) cells !! c = Some v ->
                       ~ raises (normalize_id v)) ->
          exists c, c ∈ ["id"; "itch_id"; "tic_id"] /\ (c ∉ fieldnames f)
                    /\ load_csv_database (Some f) = Raise (KeyError c)).
Proof.
  split; [reflexivity |]. split.
  { intros f Hnone. unfold load_csv_database, DictReader. rewrite Hnone.
    reflexivity. }
  intros f cells rest Hwf Hfirst Hmiss.
  assert (Hlen : length cells = length (fieldnames f)).
  { unfold csv_wf in Hwf. rewrite Forall_forall in Hwf.
    assert (Hin : In cells (List.filter (fun cells => negb (Nat.eqb (length cells) 0))
                                        (records f)))
      by (rewrite Hfirst; left; reflexivity).
    apply filter_In in Hin as [Hin Hnb]. apply list_elem_of_In in Hin.
    destruct (Hwf cells Hin) as [-> | H]; [discriminate | exact H]. }
  set (row := dict_of_cells (fieldnames f) cells).
  assert (Hnone : forall c, row !! c = None <-> c ∉ fieldnames f)
    by (intros c; apply dict_of_cells_lookup_None, Hlen).
  assert (Hrow : ~ (is_Some (row !! "id") /\ is_Some (row !! "itch_id")
                    /\ is_Some (row !! "tic_id"))).
  { intros (H1 & H2 & H3). apply Hmiss.
    repeat split; apply dec_stable; intros Hc; apply Hnone in Hc;
      [rewrite Hc in H1; destruct H1 | rewrite Hc in H2; destruct H2
       | rewrite Hc in H3; destruct H3]; discriminate. }
  assert (Hload : forall e, normalize_row row = Raise e ->
                            load_csv_database (Some f) = Raise e).
  { intros e He. unfold load_csv_database, DictReader. rewrite Hfirst. simpl.
    unfold load_row. fold row. rewrite He. reflexivity. }
  split.
  - destruct (normalize_row_missing_column row Hrow) as (e & He & _).
    exists e. apply Hload, He.
  - intros Hids.
    destruct (normalize_row_key_error row Hrow Hids) as (c & Hc & Hmissing & He).
    exists c. split; [exact Hc |]. split; [apply Hnone, Hmissing | apply Hload, He].
Qed.

(** The third cell is no identifier cell: it plays no part. *)
Lemma load_fails_without_identifier_column_witness :
  let f := mkcsv ["id"; "tic_id"; "name_original_reference"]
                 [ []; ["7"; "7"; "Infinity"]; ["8"; "8"; "Maze"] ] in
  load_csv_database (Some f) = Raise (KeyError "itch_id").
Proof.
  intros f.
  destruct (proj2 (proj2 load_fails_without_identifier_column) f
              ["7"; "7"; "Infinity"] [["8"; "8"; "Maze"]]) as (_ & Hkey).
  - unfold csv_wf. simpl. repeat (constructor; [auto |]). constructor.
  - reflexivity.
  - intros (_ & H & _). vm_compute in H.
    repeat (inversion H as [|? ? ? H']; clear H; rename H' into H).
  - destruct Hkey as (c & _ & _ & He).
    + intros c v Hc Hv.
      assert (Hcases : v = "7").
      { repeat (apply elem_of_cons in Hc as [-> | Hc];
                [vm_compute in Hv; congruence |]).
        apply not_elem_of_nil in Hc. contradiction. }
      subst v. vm_compute. auto.
    + rewrite He. vm_compute in He. injection He as <-. reflexivity.
Defined.

(** C10 as stated fails: the header lacks [itch_id] and the file exists,
    yet the load returns a store. The columns are indexed row by row, so a
    file without a data row (or with blank lines only) loads as the empty
    store. *)
Lemma load_header_without_rows_returns :
  let f := mkcsv ["id"; "tic_id"; "name_original_reference"] [] in
  let f' := mkcsv ["id"; "tic_id"; "name_original_reference"] [ []; [] ] in
  ("itch_id" ∉ fieldnames f)
  /\ load_csv_database (Some f)
     = Ok (mkglobals [] (Some ["id"; "tic_id"; "name_original_reference"]) [])
  /\ load_csv_database (Some f')
     = Ok (mkglobals [] (Some ["id"; "tic_id"; "name_original_reference"]) []).
Proof.
  split; [| split; vm_compute; reflexivity].
  vm_compute. intros H.
  repeat (inversion H as [|? ? ? H']; clear H; rename H' into H).
Qed.

(** An [id] cell that reads as an infinite number raises the
    [OverflowError] of [normalize_id] before the missing column is indexed. *)
Lemma load_overflow_before_missing_column :
  let f := mkcsv ["id"; "tic_id"] [ ["inf"; "1"] ] in
  csv_wf f
  /\ ("itch_id" ∉ fieldnames f)
  /\ load_csv_database (Some f) = Raise OverflowError.
Proof.
  split; [unfold csv_wf; simpl; repeat (constructor; [auto |]); constructor |].
  split; [| vm_compute; reflexivity].
  vm_compute. intros H.
  repeat (inversion H as [|? ? ? H']; clear H; rename H' into H).
Qed.

(* ================================================================== *)
(** * Normalization is idempotent wherever it returns *)
(* ================================================================== *)

(** ** Printing and reading back an integer *)

Lemma string_of_uint_digits (d : Decimal.uint) :
  Forall (fun c => is_digit c = true)
         (list_ascii_of_string (NilEmpty.string_of_uint d)).
Proof. induction d; simpl; constructor; auto. Qed.

Lemma digits_value_acc (d : Decimal.uint) (acc : positive) :
  fold_left (fun a c => (10 * a + digit_value c)%N)
    (list_ascii_of_string (NilEmpty.string_of_uint d)) (Npos acc)
  = Npos (Pos.of_uint_acc d acc).
Proof.
  revert acc. induction d; intros acc; simpl; try reflexivity;
    rewrite <- IHd; f_equal; unfold digit_value; simpl; lia.
Qed.

Lemma digits_value_of_uint (d : Decimal.uint) :
  digits_value (list_ascii_of_string (NilEmpty.string_of_uint d)) = Pos.of_uint d.
Proof.
  unfold digits_value. induction d; simpl; try reflexivity; try exact IHd;
    apply (digits_value_acc d).
Qed.

Lemma rstrip_by_noop (sp : ascii -> bool) (s : string) :
  Forall (fun c => sp c = false) (list_ascii_of_string s) -> rstrip_by sp s = s.
Proof.
  induction s as [|c r IH]; simpl; intros H; [reflexivity |].
  apply Forall_cons in H as [Hc Hr]. rewrite Hc, IH by exact Hr. reflexivity.
Qed.

Lemma strip_by_noop (sp : ascii -> bool) (s : string) :
  Forall (fun c => sp c = false) (list_ascii_of_string s) -> strip_by sp s = s.
Proof.
  intros H. unfold strip_by.
  assert (Hl : lstrip_by sp s = s).
  { destruct s as [|c r]; [reflexivity |]. simpl in *.
    apply Forall_cons in H as [-> _]. reflexivity. }
  rewrite Hl. apply rstrip_by_noop, H.
Qed.

Lemma digit_facts (c : ascii) :
  is_digit c = true ->
  isspace c = false /\ c_isspace c = false
  /\ Ascii.eqb c "_" = false /\ Ascii.eqb c "-" = false /\ Ascii.eqb c "+" = false
  /\ Ascii.eqb c "." = false
  /\ lower_char c = c
  /\ Ascii.eqb c "i" = false /\ Ascii.eqb c "n" = false.
Proof.
  destruct c as [[] [] [] [] [] [] [] []]; intros H; try discriminate H;
    repeat split; reflexivity.
Qed.

Lemma span_digits_all (l : list ascii) :
  Forall (fun c => is_digit c = true) l -> span_digits l = (l, []).
Proof.
  induction l as [|c l IH]; intros H; simpl; [reflexivity |].
  apply Forall_cons in H as [-> Hl]. rewrite IH by exact Hl. reflexivity.
Qed.

Lemma underscores_ok_plain (l : list ascii) (prev : option ascii) :
  prev <> Some "_"%char ->
  Forall (fun c => Ascii.eqb c "_" = false) l ->
  underscores_ok prev l = true.
Proof.
  revert prev. induction l as [|c l IH]; intros prev Hp H; simpl.
  - destruct prev as [p|]; [| reflexivity].
    destruct (Ascii.eqb_spec p "_"); [congruence |].
    destruct p as [[] [] [] [] [] [] [] []]; try reflexivity. congruence.
  - apply Forall_cons in H as [Hc Hl]. rewrite Hc.
    rewrite IH; [| intros [= ->]; discriminate | exact Hl].
    rewrite andb_true_r.
    destruct prev as [p|]; [| reflexivity].
    destruct (Ascii.eqb_spec p "_"); [congruence |].
    destruct p as [[] [] [] [] [] [] [] []]; try reflexivity. congruence.
Qed.

Lemma drop_underscores_plain (l : list ascii) :
  Forall (fun c => Ascii.eqb c "_" = false) l -> drop_underscores l = l.
Proof.
  unfold drop_underscores. induction l as [|c l IH]; intros H; simpl; [reflexivity |].
  apply Forall_cons in H as [-> Hl]. simpl. rewrite IH by exact Hl. reflexivity.
Qed.

Lemma parse_decimal_digits (l : list ascii) :
  l <> [] -> Forall (fun c => is_digit c = true) l ->
  parse_decimal l = Some (digits_value l, 0).
Proof.
  intros Hne H. unfold parse_decimal. rewrite span_digits_all by exact H.
  rewrite app_nil_r. destruct l; [congruence | reflexivity].
Qed.

(** A sign and digits read as the float nearest to that integer. *)
Lemma py_float_integer (s : string) (neg : bool) (l : list ascii) :
  list_ascii_of_string s = (if neg then ["-"%char] else []) ++ l ->
  l <> [] -> Forall (fun c => is_digit c = true) l ->
  py_float s = Ok (float_of_decimal neg (digits_value l) 0).
Proof.
  intros Hs Hne Hd.
  assert (Hplain : Forall (fun c => c_isspace c = false /\ Ascii.eqb c "_" = false)
                          (list_ascii_of_string s)).
  { rewrite Hs. apply Forall_app. split.
    - destruct neg; repeat constructor.
    - eapply Forall_impl; [exact Hd |]. intros c Hc.
      apply digit_facts in Hc. split; apply Hc. }
  unfold py_float.
  rewrite strip_by_noop
    by (eapply Forall_impl; [exact Hplain |]; intros c [? ?]; assumption).
  rewrite underscores_ok_plain;
    [| discriminate | eapply Forall_impl; [exact Hplain |]; intros c [? ?]; assumption].
  rewrite drop_underscores_plain
    by (eapply Forall_impl; [exact Hplain |]; intros c [? ?]; assumption).
  simpl. rewrite Hs.
  destruct l as [|c l]; [congruence |].
  pose proof (Forall_inv Hd) as Hc. apply digit_facts in Hc.
  destruct Hc as (_ & _ & _ & Hm & Hp & _ & Hlow & Hi & Hn).
  assert (Hsign : take_sign ((if neg then ["-"%char] else []) ++ c :: l)
                  = (neg, c :: l)).
  { destruct neg; simpl; [reflexivity |].
    destruct c as [[] [] [] [] [] [] [] []]; try reflexivity; discriminate. }
  rewrite Hsign. simpl. rewrite Hlow.
  rewrite Hi, Hn. simpl.
  rewrite parse_decimal_digits by (congruence || exact Hd). reflexivity.
Qed.

Lemma to_uint_string (p : positive) :
  let l := list_ascii_of_string (NilEmpty.string_of_uint (Pos.to_uint p)) in
  l <> [] /\ Forall (fun c => is_digit c = true) l /\ digits_value l = Npos p.
Proof.
  simpl. split; [| split].
  - pose proof (DecimalPos.Unsigned.to_uint_nonnil p) as H.
    destruct (Pos.to_uint p); simpl; congruence.
  - apply string_of_uint_digits.
  - rewrite digits_value_of_uint. apply DecimalPos.Unsigned.of_to.
Qed.

Lemma nilzero_to_uint (p : positive) :
  NilZero.string_of_uint (Pos.to_uint p) = NilEmpty.string_of_uint (Pos.to_uint p).
Proof.
  pose proof (DecimalPos.Unsigned.to_uint_nonnil p) as H.
  destruct (Pos.to_uint p); simpl; congruence.
Qed.

(** [float(str(n))] is the float nearest to [n]. *)
Lemma py_float_str_of_int (n : Z) :
  py_float (str_of_int n) = Ok (float_of_decimal (n <? 0) (Z.to_N (Z.abs n)) 0).
Proof.
  destruct n as [|p|p].
  - reflexivity.
  - destruct (to_uint_string p) as (Hne & Hd & Hv).
    unfold str_of_int. simpl. rewrite nilzero_to_uint.
    rewrite (py_float_integer _ false
               (list_ascii_of_string (NilEmpty.string_of_uint (Pos.to_uint p)))
               eq_refl Hne Hd), Hv.
    reflexivity.
  - destruct (to_uint_string p) as (Hne & Hd & Hv).
    unfold str_of_int. simpl. rewrite nilzero_to_uint.
    rewrite (py_float_integer (String "-" _) true
               (list_ascii_of_string (NilEmpty.string_of_uint (Pos.to_uint p)))
               eq_refl Hne Hd), Hv.
    reflexivity.
Qed.

Lemma str_of_int_plain (n : Z) :
  str_of_int n <> ""
  /\ Forall (fun c => isspace c = false /\ Ascii.eqb c "." = false)
            (list_ascii_of_string (str_of_int n)).
Proof.
  assert (Hd : forall p,
             Forall (fun c => isspace c = false /\ Ascii.eqb c "." = false)
               (list_ascii_of_string (NilEmpty.string_of_uint (Pos.to_uint p)))).
  { intros p. eapply Forall_impl; [apply string_of_uint_digits |].
    intros c Hc. apply digit_facts in Hc. split; apply Hc. }
  destruct n as [|p|p]; unfold str_of_int; simpl.
  - split; [discriminate | repeat constructor].
  - rewrite nilzero_to_uint. split; [| apply Hd].
    destruct (to_uint_string p) as (Hne & _ & _).
    intros H. apply Hne. rewrite H. reflexivity.
  - rewrite nilzero_to_uint. split; [discriminate |].
    constructor; [split; reflexivity | apply Hd].
Qed.

(** ** Binary64 rounding *)

Lemma Zdigits2_log2 (p : positive) : Z.pos (digits2_pos p) = Z.log2 (Z.pos p) + 1.
Proof.
  assert (H : forall q, digits2_pos q = Pos.size q)
    by (induction q; simpl; congruence).
  rewrite H. destruct p; simpl; lia.
Qed.

Lemma fexp_eq (e : Z) : fexp prec emax e = Z.max (e - 53) (-1074).
Proof. reflexivity. Qed.

Lemma iter_pos_nat {A : Type} (f : A -> A) (p : positive) (x : A) :
  @SpecFloat.iter_pos A f p x = Nat.iter (Pos.to_nat p) f x.
Proof.
  revert x. induction p as [p IH|p IH|]; intros x.
  - rewrite Pos2Nat.inj_xI. cbn [SpecFloat.iter_pos]. rewrite !IH.
    replace (S (2 * Pos.to_nat p)) with (Pos.to_nat p + Pos.to_nat p + 1)%nat by lia.
    rewrite !Nat.iter_add. reflexivity.
  - rewrite Pos2Nat.inj_xO. cbn [SpecFloat.iter_pos]. rewrite !IH.
    replace (2 * Pos.to_nat p)%nat with (Pos.to_nat p + Pos.to_nat p)%nat by lia.
    rewrite Nat.iter_add. reflexivity.
  - reflexivity.
Qed.

Lemma shr_1_m (mrs : shr_record) :
  0 <= shr_m mrs -> shr_m (shr_1 mrs) = shr_m mrs / 2.
Proof.
  destruct mrs as [m r s]. simpl. intros Hm.
  destruct m as [|[p|p|]|p]; simpl; try lia; try reflexivity.
  - rewrite Pos2Z.inj_xI. apply Z.div_unique with 1; lia.
  - rewrite Pos2Z.inj_xO. apply Z.div_unique with 0; lia.
Qed.

Lemma shr_iter_m (k : nat) (mrs : shr_record) :
  0 <= shr_m mrs ->
  shr_m (Nat.iter k shr_1 mrs) = shr_m mrs / 2 ^ Z.of_nat k.
Proof.
  intros Hm. induction k as [|k IH].
  - simpl. rewrite Z.div_1_r. reflexivity.
  - rewrite Nat2Z.inj_succ, Z.pow_succ_r by lia. simpl.
    rewrite shr_1_m; rewrite IH.
    + rewrite Z.div_div by lia. f_equal. lia.
    + apply Z.div_pos; lia.
Qed.

Lemma shr_m_value (mrs : shr_record) (e n : Z) :
  0 <= shr_m mrs ->
  shr_m (fst (shr mrs e n)) = shr_m mrs / 2 ^ Z.max 0 n
  /\ snd (shr mrs e n) = e + Z.max 0 n.
Proof.
  intros Hm. destruct n as [|p|p]; simpl.
  - rewrite Z.div_1_r. split; [reflexivity | lia].
  - rewrite iter_pos_nat, shr_iter_m by exact Hm.
    rewrite positive_nat_Z. split; reflexivity.
  - rewrite Z.div_1_r. split; [reflexivity | lia].
Qed.

Lemma shr_record_of_loc_m (m : Z) (l : location) : shr_m (shr_record_of_loc m l) = m.
Proof. destruct l as [|[]]; reflexivity. Qed.

Lemma round_nearest_even_bounds (m : Z) (l : location) :
  m <= round_nearest_even m l <= m + 1.
Proof. destruct l as [|[]]; simpl; try lia. destruct (Z.even m); lia. Qed.

Lemma Zdigits2_nonneg (m : Z) : 0 <= m -> Zdigits2 m = if m =? 0 then 0 else Z.log2 m + 1.
Proof.
  destruct m as [|p|p]; simpl; intros H; try lia. apply Zdigits2_log2.
Qed.

(** Every finite result of the rounding fits the format. *)
Lemma binary_round_aux_bounded (sx : bool) (mx ex : Z) (lx : location)
  (s : bool) (m : positive) (e : Z) :
  0 <= mx ->
  binary_round_aux prec emax sx mx ex lx = S754_finite s m e ->
  Z.pos (digits2_pos m) <= 53 /\ e <= 971.
Proof.
  intros Hmx. unfold binary_round_aux, shr_fexp.
  destruct (shr (shr_record_of_loc mx lx) ex _) as [mrs' e'] eqn:H1.
  pose proof (shr_m_value (shr_record_of_loc mx lx) ex
                (fexp prec emax (Zdigits2 mx + ex) - ex)) as Hv1.
  rewrite H1, shr_record_of_loc_m in Hv1. simpl in Hv1.
  destruct (Hv1 Hmx) as [Hm1 _].
  set (m1 := round_nearest_even (shr_m mrs') (loc_of_shr_record mrs')).
  assert (Hm1' : 0 <= m1).
  { pose proof (round_nearest_even_bounds (shr_m mrs') (loc_of_shr_record mrs')).
    assert (0 <= shr_m mrs') by (rewrite Hm1; apply Z.div_pos; lia).
    unfold m1. lia. }
  destruct (shr (shr_record_of_loc m1 loc_Exact) e' _) as [mrs'' e''] eqn:H2.
  pose proof (shr_m_value (shr_record_of_loc m1 loc_Exact) e'
                (fexp prec emax (Zdigits2 m1 + e') - e')) as Hv2.
  rewrite H2 in Hv2. simpl in Hv2. destruct (Hv2 Hm1') as [Hm2 He2].
  destruct (shr_m mrs'') as [|m2|m2] eqn:Hs; try discriminate.
  destruct (e'' <=? emax - prec) eqn:Hle; [| discriminate].
  intros [= <- <- <-]. apply Z.leb_le in Hle.
  split; [| exact Hle].
  rewrite Zdigits2_log2.
  set (n := fexp prec emax (Zdigits2 m1 + e') - e') in *.
  assert (Hpos : 0 < m1).
  { destruct (Z.eq_dec m1 0) as [H0|]; [| lia].
    rewrite H0 in Hm2. rewrite Z.div_0_l in Hm2; [lia |].
    apply Z.pow_nonzero; lia. }
  assert (Hn : Zdigits2 m1 - 53 <= n).
  { unfold n. rewrite fexp_eq. lia. }
  rewrite Zdigits2_nonneg in Hn by lia.
  destruct (m1 =? 0) eqn:E0; [apply Z.eqb_eq in E0; lia |].
  rewrite Hm2, <- Z.shiftr_div_pow2 by lia.
  rewrite Z.log2_shiftr by exact Hpos. lia.
Qed.

Lemma float_of_Z_pow2_bounded (M E : Z) (sz s : bool) (m : positive) (e : Z) :
  float_of_Z_pow2 M E sz = S754_finite s m e ->
  Z.pos (digits2_pos m) <= 53 /\ e <= 971.
Proof.
  unfold float_of_Z_pow2, binary_normalize, binary_round.
  destruct M as [|p|p]; [discriminate | |];
    destruct (shl_align p E _) as [mz ez];
    apply binary_round_aux_bounded; lia.
Qed.

Lemma float_of_decimal_bounded (neg : bool) (M : N) (e10 : Z)
  (s : bool) (m : positive) (e : Z) :
  float_of_decimal neg M e10 = S754_finite s m e ->
  Z.pos (digits2_pos m) <= 53 /\ e <= 971.
Proof.
  unfold float_of_decimal.
  destruct (M =? 0)%N; [discriminate |].
  destruct (0 <=? e10); apply float_of_Z_pow2_bounded.
Qed.

Lemma py_float_bounded (x : string) (s : bool) (m : positive) (e : Z) :
  py_float x = Ok (S754_finite s m e) ->
  Z.pos (digits2_pos m) <= 53 /\ e <= 971.
Proof.
  unfold py_float.
  destruct (negb (underscores_ok None _)); [discriminate |].
  destruct (take_sign _) as [neg rest].
  destruct (String.eqb _ "inf" || String.eqb _ "infinity"); [discriminate |].
  destruct (String.eqb _ "nan"); [discriminate |].
  destruct (parse_decimal rest) as [[M e10]|]; [| discriminate].
  intros [= H]. apply float_of_decimal_bounded in H. exact H.
Qed.

Lemma digits2_iter_xO (q : positive) (k : nat) :
  Z.pos (digits2_pos (Nat.iter k xO q)) = Z.pos (digits2_pos q) + Z.of_nat k.
Proof.
  induction k as [|k IH]; [simpl; lia |].
  change (Nat.iter (S k) xO q) with (xO (Nat.iter k xO q)).
  cbn [digits2_pos]. rewrite Pos2Z.inj_succ, IH. lia.
Qed.

Lemma Zpos_iter_xO (q : positive) (k : nat) :
  Z.pos (Nat.iter k xO q) = Z.pos q * 2 ^ Z.of_nat k.
Proof.
  induction k as [|k IH]; [simpl; lia |].
  rewrite Nat2Z.inj_succ, Z.pow_succ_r by lia.
  change (Nat.iter (S k) xO q) with (xO (Nat.iter k xO q)).
  rewrite Pos2Z.inj_xO, IH. lia.
Qed.

Lemma shr_iter_exact (q : positive) (k : nat) :
  Nat.iter k shr_1 (Build_shr_record (Z.pos (Nat.iter k xO q)) false false)
  = Build_shr_record (Z.pos q) false false.
Proof.
  induction k as [|k IH]; [reflexivity |].
  rewrite Nat.iter_succ_r. exact IH.
Qed.

Lemma shr_exact (q : positive) (k : nat) (e : Z) :
  shr (Build_shr_record (Z.pos (Nat.iter k xO q)) false false) e (Z.of_nat k)
  = (Build_shr_record (Z.pos q) false false, e + Z.of_nat k).
Proof.
  destruct k as [|k].
  - simpl. rewrite Z.add_0_r. reflexivity.
  - unfold shr. change (Z.of_nat (S k)) with (Z.pos (Pos.of_succ_nat k)).
    cbv iota.
    rewrite iter_pos_nat, SuccNat2Pos.id_succ, shr_iter_exact. reflexivity.
Qed.

(** A mantissa of exactly 53 bits times a power of two comes back as it is. *)
Lemma binary_round_aux_exact (s : bool) (q : positive) (k : nat) (e : Z) :
  Z.pos (digits2_pos q) = 53 ->
  -1074 <= e + Z.of_nat k <= 971 ->
  binary_round_aux prec emax s (Z.pos (Nat.iter k xO q)) e loc_Exact
  = S754_finite s q (e + Z.of_nat k).
Proof.
  intros Hq He. unfold binary_round_aux, shr_fexp.
  assert (H1 : fexp prec emax (Zdigits2 (Z.pos (Nat.iter k xO q)) + e) - e
               = Z.of_nat k).
  { rewrite fexp_eq. unfold Zdigits2. rewrite digits2_iter_xO. lia. }
  rewrite H1. change (shr_record_of_loc ?m loc_Exact) with (Build_shr_record m false false).
  rewrite shr_exact. cbn [shr_m loc_of_shr_record round_nearest_even].
  assert (H2 : fexp prec emax (Zdigits2 (Z.pos q) + (e + Z.of_nat k))
               - (e + Z.of_nat k) = 0).
  { rewrite fexp_eq. unfold Zdigits2. lia. }
  rewrite H2. cbn [shr shr_m].
  assert (H3 : (e + Z.of_nat k <=? emax - prec) = true)
    by (apply Z.leb_le; unfold emax, prec; lia).
  rewrite H3. reflexivity.
Qed.

(** An integer made of at most 53 significant bits and at most 971 zero
    bits is a float, and truncating that float gives the integer back. *)
Lemma binary_round_integer (s : bool) (m : positive) (j : nat) :
  Z.pos (digits2_pos m) <= 53 ->
  Z.of_nat j <= 971 ->
  py_int (binary_round prec emax s (Nat.iter j xO m) 0)
  = Ok (if s then Z.neg (Nat.iter j xO m) else Z.pos (Nat.iter j xO m)).
Proof.
  intros Hm Hj. unfold binary_round.
  set (N := Nat.iter j xO m).
  assert (Hd : Z.pos (digits2_pos N) = Z.pos (digits2_pos m) + Z.of_nat j)
    by apply digits2_iter_xO.
  assert (Hf : fexp prec emax (Z.pos (digits2_pos N) + 0) = Z.pos (digits2_pos N) - 53)
    by (rewrite fexp_eq; lia).
  rewrite Hf. unfold shl_align.
  destruct (Z.pos (digits2_pos N) - 53 - 0) as [|t|t] eqn:Ht.
  - (* exactly 53 bits *)
    cbv iota beta.
    pose proof (binary_round_aux_exact s N 0 0) as Hex.
    change (Nat.iter 0 xO N) with N in Hex. rewrite Hex by lia.
    simpl. destruct s; f_equal; lia.
  - (* more than 53 bits: the low bits are zeros *)
    cbv iota beta.
    set (k := Z.to_nat (Z.pos t)).
    assert (Hk : (k <= j)%nat) by lia.
    assert (HN : N = Nat.iter k xO (Nat.iter (j - k) xO m)).
    { unfold N. rewrite <- Nat.iter_add. f_equal. lia. }
    rewrite HN.
    rewrite (binary_round_aux_exact s (Nat.iter (j - k) xO m) k 0);
      [| rewrite digits2_iter_xO; lia | lia].
    cbn [py_int].
    assert (Hge : (0 <=? 0 + Z.of_nat k) = true) by (apply Z.leb_le; lia).
    rewrite Hge. rewrite <- HN.
    assert (Hv : Z.pos N = Z.pos (Nat.iter (j - k) xO m) * 2 ^ (0 + Z.of_nat k)).
    { rewrite HN at 1. rewrite Zpos_iter_xO. f_equal. }
    destruct s; rewrite <- ?Pos2Z.opp_pos, Hv; f_equal; ring.
  - (* fewer than 53 bits: the mantissa is shifted left *)
    cbv iota beta.
    rewrite Pos2Nat.inj_iter.
    set (t' := Pos.to_nat t).
    pose proof (binary_round_aux_exact s (Nat.iter t' xO N) 0
                  (Z.pos (digits2_pos N) - 53)) as Hex.
    change (Nat.iter 0 xO ?x) with x in Hex.
    change (nat_rect _ N _ t') with (Nat.iter t' xO N). rewrite Hex;
      [| rewrite digits2_iter_xO; unfold t'; lia | lia].
    cbn [py_int].
    assert (Hlt : (0 <=? Z.pos (digits2_pos N) - 53 + Z.of_nat 0) = false)
      by (apply Z.leb_gt; lia).
    rewrite Hlt.
    assert (He : - (Z.pos (digits2_pos N) - 53 + Z.of_nat 0) = Z.of_nat t')
      by (unfold t'; lia).
    rewrite He.
    assert (Hv : Z.pos (Nat.iter t' xO N) = Z.pos N * 2 ^ Z.of_nat t')
      by apply Zpos_iter_xO.
    assert (Hp : 2 ^ Z.of_nat t' <> 0) by (apply Z.pow_nonzero; lia).
    destruct s; rewrite <- ?Pos2Z.opp_pos, Hv, <- ?Z.mul_opp_l, Z.quot_mul
      by exact Hp; reflexivity.
Qed.

(** ** The round trip of a numeric identifier *)

Lemma integer_shape (s : bool) (m : positive) (e : Z) (p : positive) :
  Z.pos (digits2_pos m) <= 53 -> e <= 971 ->
  Z.abs (if 0 <=? e then (if s then Z.neg m else Z.pos m) * 2 ^ e
         else Z.quot (if s then Z.neg m else Z.pos m) (2 ^ (- e))) = Z.pos p ->
  exists m' j, p = Nat.iter j xO m'
               /\ Z.pos (digits2_pos m') <= 53 /\ Z.of_nat j <= 971.
Proof.
  intros Hm He Hp. destruct (0 <=? e) eqn:Hle.
  - apply Z.leb_le in Hle. exists m, (Z.to_nat e).
    split; [| split; [exact Hm | lia]].
    apply Pos2Z.inj. rewrite Zpos_iter_xO, Z2Nat.id by exact Hle.
    rewrite <- Hp. destruct s; rewrite Z.abs_mul, (Z.abs_eq (2 ^ e)) by
        (apply Z.pow_nonneg; lia); reflexivity.
  - apply Z.leb_gt in Hle. exists p, 0%nat.
    split; [reflexivity | split; [| lia]].
    assert (Hq : Z.pos p = Z.pos m / 2 ^ (- e)).
    { rewrite <- Hp. assert (H2 : 0 < 2 ^ (- e)) by (apply Z.pow_pos_nonneg; lia).
      destruct s.
      - rewrite <- Pos2Z.opp_pos, Z.quot_opp_l, Z.abs_opp by lia.
        rewrite Z.quot_div_nonneg by lia. apply Z.abs_eq, Z.div_pos; lia.
      - rewrite Z.quot_div_nonneg by lia. apply Z.abs_eq, Z.div_pos; lia. }
    assert (Hle' : Z.pos p <= Z.pos m).
    { rewrite Hq. apply Z.div_le_upper_bound.
      - apply Z.pow_pos_nonneg; lia.
      - pose proof (Z.pow_pos_nonneg 2 (- e)). nia. }
    rewrite !Zdigits2_log2 in *. apply Z.log2_le_mono in Hle'. lia.
Qed.

(** Truncating a float and reading the printed integer back gives a float
    that truncates to the same integer. *)
Lemma py_int_roundtrip (f : spec_float) (n : Z) :
  (forall s m e, f = S754_finite s m e ->
                 Z.pos (digits2_pos m) <= 53 /\ e <= 971) ->
  py_int f = Ok n ->
  py_int (float_of_decimal (n <? 0) (Z.to_N (Z.abs n)) 0) = Ok n.
Proof.
  intros Hb Hn.
  destruct n as [|p|p]; [reflexivity | |].
  - destruct f as [z|z| |s m e]; try discriminate. injection Hn as Hn.
    destruct (Hb s m e eq_refl) as [Hm He].
    destruct (integer_shape s m e p Hm He) as (m' & j & -> & Hm' & Hj).
    { simpl in Hn. rewrite Hn. reflexivity. }
    unfold float_of_decimal, float_of_Z_pow2. simpl.
    rewrite Pos.mul_1_r.
    apply (binary_round_integer false m' j Hm' Hj).
  - destruct f as [z|z| |s m e]; try discriminate. injection Hn as Hn.
    destruct (Hb s m e eq_refl) as [Hm He].
    destruct (integer_shape s m e p Hm He) as (m' & j & -> & Hm' & Hj).
    { simpl in Hn. rewrite Hn. reflexivity. }
    unfold float_of_decimal, float_of_Z_pow2. simpl.
    rewrite Pos.mul_1_r.
    apply (binary_round_integer true m' j Hm' Hj).
Qed.

Lemma rstrip_by_idempotent (sp : ascii -> bool) (s : string) :
  rstrip_by sp (rstrip_by sp s) = rstrip_by sp s.
Proof.
  induction s as [|c r IH]; simpl; [reflexivity |].
  destruct (sp c && negb (str_truthy (rstrip_by sp r))) eqn:Hc; [reflexivity |].
  simpl. rewrite IH, Hc. reflexivity.
Qed.

Lemma lstrip_by_head (sp : ascii -> bool) (s : string) :
  lstrip_by sp s = ""
  \/ exists c r, lstrip_by sp s = String c r /\ sp c = false.
Proof.
  induction s as [|c r IH]; simpl; [auto |].
  destruct (sp c) eqn:Hc; [exact IH | right; eauto].
Qed.

Lemma strip_by_idempotent (sp : ascii -> bool) (s : string) :
  strip_by sp (strip_by sp s) = strip_by sp s.
Proof.
  unfold strip_by.
  destruct (lstrip_by_head sp s) as [-> | (c & r & -> & Hc)]; [reflexivity |].
  assert (Hr : rstrip_by sp (String c r) = String c (rstrip_by sp r))
    by (simpl; rewrite Hc; reflexivity).
  rewrite Hr. cbn [lstrip_by]. rewrite Hc, <- Hr.
  apply rstrip_by_idempotent.
Qed.

(** [normalize_id] is idempotent wherever it returns. *)
Lemma normalize_id_idempotent (x y : string) :
  normalize_id x = Ok y -> normalize_id y = Ok y.
Proof.
  unfold normalize_id at 1. destruct (str_truthy x) eqn:Hx; simpl.
  2: { intros [= <-]. apply str_truthy_false in Hx. subst x. reflexivity. }
  assert (Hfix : raises (py_float (strip x)) \/ py_float (strip x) = Ok S754_nan ->
                 normalize_id (strip x) = Ok (strip x)).
  { intros H. pose proof (normalize_id_not_a_number (strip x)) as Hn.
    assert (Hs : strip (strip x) = strip x) by apply strip_by_idempotent.
    rewrite Hs in Hn. apply Hn, H. }
  destruct (py_float (strip x)) as [f|e] eqn:Hf; simpl.
  - destruct (py_int f) as [n|e] eqn:Hn; simpl.
    + intros [= <-]. unfold normalize_id.
      destruct (str_of_int_plain n) as [Hne Hpl].
      apply str_truthy_true in Hne. rewrite Hne. simpl.
      assert (Hs : strip (str_of_int n) = str_of_int n).
      { apply strip_by_noop. eapply Forall_impl; [exact Hpl |].
        intros c [? ?]; assumption. }
      rewrite Hs, py_float_str_of_int. simpl.
      rewrite (py_int_roundtrip f n); [reflexivity | | exact Hn].
      intros s m e ->. eapply py_float_bounded, Hf.
    + apply py_int_raises in Hn as [[-> ->] | [-> [s ->]]]; simpl.
      * intros [= <-]. apply Hfix. auto.
      * discriminate.
  - apply py_float_raises in Hf as Hf'. subst e. simpl.
    intros [= <-]. apply Hfix. left. exact I.
Qed.

Lemma mem_char_absent (d : ascii) (s : string) :
  Forall (fun c => Ascii.eqb c d = false) (list_ascii_of_string s) ->
  mem_char d s = false.
Proof.
  induction s as [|c r IH]; intros H; [reflexivity |].
  cbn [list_ascii_of_string] in H. apply Forall_cons in H as [Hc Hr].
  cbn [mem_char]. rewrite Ascii.eqb_sym, Hc. apply IH, Hr.
Qed.

(** A normalized numeric identifier has no decimal point. *)
Lemma normalize_id_numeric_no_point (x y : string) (f : spec_float) (n : Z) :
  normalize_id x = Ok y ->
  x <> "" -> py_float (strip x) = Ok f -> py_int f = Ok n ->
  y = str_of_int n /\ mem_char "." y = false.
Proof.
  intros H Hx Hf Hn. unfold normalize_id in H.
  apply str_truthy_true in Hx. rewrite Hx, Hf in H. simpl in H.
  rewrite Hn in H. simpl in H. injection H as <-.
  split; [reflexivity |].
  destruct (str_of_int_plain n) as [_ Hpl].
  apply mem_char_absent. eapply Forall_impl; [exact Hpl |].
  intros c [? ?]; assumption.
Qed.

(* ================================================================== *)
(** * Further properties of the code *)
(* ================================================================== *)

(** ** More on [normalize_id] *)

(** X1: [normalize_id] is idempotent: what it returns is returned as it is
    when it is normalized again. *)
Theorem normalize_id_fixed_point (x y : string) :
  normalize_id x = Ok y -> normalize_id y = Ok y.
Proof. exact (normalize_id_idempotent x y). Qed.

Lemma normalize_id_fixed_point_witness : normalize_id "329" = Ok "329".
Proof.
  apply (normalize_id_fixed_point " 329.0 " "329"). vm_compute. reflexivity.
Defined.

(** X2: [normalize_id] raises exactly on the identifiers that read as an
    infinite number, and the exception is then an [OverflowError]. *)
Theorem normalize_id_raises_iff_infinite (id_str : string) (e : exn) :
  normalize_id id_str = Raise e
  <-> e = OverflowError
      /\ exists s, py_float (strip id_str) = Ok (S754_infinity s).
Proof.
  split; [apply normalize_id_raises |].
  intros [-> [s Hs]]. unfold normalize_id.
  destruct (str_truthy id_str) eqn:Ht.
  - cbn [negb]. rewrite Hs. reflexivity.
  - apply str_truthy_false in Ht. subst id_str.
    change (strip "") with "" in Hs. rewrite py_float_empty in Hs. discriminate.
Qed.

Lemma normalize_id_raises_iff_infinite_witness :
  normalize_id " -Infinity " = Raise OverflowError.
Proof.
  apply (normalize_id_raises_iff_infinite " -Infinity " OverflowError).
  split; [reflexivity |]. exists true. vm_compute. reflexivity.
Defined.

(** X3: what [normalize_id] returns has no white space around it, and it
    is empty exactly when the identifier is empty or blank. *)
Theorem normalize_id_trimmed (id_str y : string) :
  normalize_id id_str = Ok y ->
  strip y = y /\ (y = "" <-> strip id_str = "").
Proof.
  unfold normalize_id. destruct (str_truthy id_str) eqn:Ht; cbn [negb].
  2: { intros [= <-]. apply str_truthy_false in Ht. subst id_str.
       split; [reflexivity | split; reflexivity]. }
  destruct (py_float (strip id_str)) as [f|e] eqn:Hf; cbn [bind].
  - assert (Hne : strip id_str <> "").
    { intros H. rewrite H, py_float_empty in Hf. discriminate. }
    destruct (py_int f) as [n|e] eqn:Hn; cbn [bind try_except].
    + intros [= <-]. destruct (str_of_int_plain n) as [Hn0 Hpl].
      split; [| split; intros; contradiction].
      apply strip_by_noop. eapply Forall_impl; [exact Hpl |].
      intros c [? ?]; assumption.
    + apply py_int_raises in Hn as [[-> ->] | [-> [s ->]]]; cbn [caught].
      * intros [= <-]. split; [apply strip_by_idempotent | reflexivity].
      * discriminate.
  - apply py_float_raises in Hf. subst e. cbn [try_except caught].
    intros [= <-]. split; [apply strip_by_idempotent | reflexivity].
Qed.

Lemma normalize_id_trimmed_witness :
  normalize_id "  AB 12 " = Ok "AB 12" /\ strip "AB 12" = "AB 12".
Proof.
  assert (H : normalize_id "  AB 12 " = Ok "AB 12") by (vm_compute; reflexivity).
  split; [exact H |]. apply (normalize_id_trimmed "  AB 12 " "AB 12" H).
Defined.

(** ** Whitespace-separated words *)

Lemma app_cons (x : ascii) (a b : string) : String x a +:+ b = String x (a +:+ b).
Proof. reflexivity. Qed.

Lemma app_nil_l (b : string) : "" +:+ b = b.
Proof. reflexivity. Qed.

Lemma list_ascii_app (a b : string) :
  list_ascii_of_string (a +:+ b) = list_ascii_of_string a ++ list_ascii_of_string b.
Proof.
  induction a as [|c a IH]; [reflexivity |].
  rewrite app_cons. cbn [list_ascii_of_string]. rewrite IH. reflexivity.
Qed.

Lemma string_app_assoc (a b c : string) : (a +:+ b) +:+ c = a +:+ (b +:+ c).
Proof.
  induction a as [|x a IH]; [reflexivity |].
  rewrite !app_cons. f_equal. exact IH.
Qed.

Lemma string_app_nil_r (a : string) : a +:+ "" = a.
Proof.
  induction a as [|x a IH]; [reflexivity |]. rewrite app_cons. f_equal. exact IH.
Qed.

Lemma split_from_words (s : string) :
  forall cur,
    Forall (fun c => isspace c = false) (list_ascii_of_string cur) ->
    Forall word (split_from cur s).
Proof.
  induction s as [|c r IH]; intros cur Hcur; cbn [split_from].
  - destruct (str_truthy cur) eqn:Ht; [| constructor].
    constructor; [| constructor]. split; [| exact Hcur].
    intros ->. discriminate.
  - destruct (isspace c) eqn:Hc.
    + destruct (str_truthy cur) eqn:Ht.
      * constructor; [| apply IH; constructor].
        split; [intros ->; discriminate | exact Hcur].
      * apply IH. constructor.
    + apply IH. rewrite list_ascii_app. apply Forall_app. split; [exact Hcur |].
      simpl. constructor; [exact Hc | constructor].
Qed.

Lemma split_from_word (w : string) :
  forall cur rest,
    Forall (fun c => isspace c = false) (list_ascii_of_string w) ->
    split_from cur (w +:+ rest) = split_from (cur +:+ w) rest.
Proof.
  induction w as [|c w IH]; intros cur rest Hw.
  - rewrite app_nil_l, string_app_nil_r. reflexivity.
  - cbn [list_ascii_of_string] in Hw. apply Forall_cons in Hw as [Hc Hw].
    rewrite app_cons. cbn [split_from]. rewrite Hc, IH by exact Hw.
    rewrite string_app_assoc. reflexivity.
Qed.

Lemma split_join_words (l : list string) :
  Forall word l -> str_split (str_join " " l) = l.
Proof.
  unfold str_split, str_join.
  induction l as [|w l IH]; intros H; [reflexivity |].
  apply Forall_cons in H as [[Hne Hw] Hl].
  assert (Ht : str_truthy w = true) by (destruct w; [contradiction | reflexivity]).
  destruct l as [|w' l'].
  - cbn [String.concat]. rewrite <- (string_app_nil_r w) at 1.
    rewrite split_from_word by exact Hw. rewrite app_nil_l. cbn [split_from].
    rewrite Ht. reflexivity.
  - change (String.concat " " (w :: w' :: l'))
      with (w +:+ String " " (String.concat " " (w' :: l'))).
    rewrite split_from_word by exact Hw. rewrite app_nil_l. cbn [split_from].
    change (isspace " ") with true. cbv iota. rewrite Ht.
    f_equal. apply IH, Hl.
Qed.

(** Splitting and joining with single spaces is a normal form. *)
Lemma join_split_idempotent (s : string) :
  str_split (str_join " " (str_split s)) = str_split s.
Proof. apply split_join_words, split_from_words. constructor. Qed.

Lemma split_from_chars (P : ascii -> Prop) (s : string) :
  forall cur,
    Forall P (list_ascii_of_string cur) ->
    Forall P (list_ascii_of_string s) ->
    Forall (fun w => Forall P (list_ascii_of_string w)) (split_from cur s).
Proof.
  induction s as [|c r IH]; intros cur Hcur Hs; cbn [split_from].
  - destruct (str_truthy cur); repeat constructor; exact Hcur.
  - cbn [list_ascii_of_string] in Hs. apply Forall_cons in Hs as [Hc Hr].
    destruct (isspace c).
    + destruct (str_truthy cur).
      * constructor; [exact Hcur | apply IH; [constructor | exact Hr]].
      * apply IH; [constructor | exact Hr].
    + apply IH; [| exact Hr]. rewrite list_ascii_app. apply Forall_app.
      split; [exact Hcur | repeat constructor; exact Hc].
Qed.

Lemma join_chars (P : ascii -> Prop) (l : list string) :
  P " "%char ->
  Forall (fun w => Forall P (list_ascii_of_string w)) l ->
  Forall P (list_ascii_of_string (str_join " " l)).
Proof.
  intros Hsp. unfold str_join. induction l as [|w l IH]; intros H; [constructor |].
  apply Forall_cons in H as [Hw Hl]. destruct l as [|w' l'].
  - exact Hw.
  - change (String.concat " " (w :: w' :: l'))
      with (w +:+ String " " (String.concat " " (w' :: l'))).
    rewrite list_ascii_app. apply Forall_app. split; [exact Hw |].
    cbn [list_ascii_of_string]. constructor; [exact Hsp | apply IH, Hl].
Qed.

Lemma filter_string_chars (keep : ascii -> bool) (s : string) :
  Forall (fun c => keep c = true) (list_ascii_of_string (filter_string keep s)).
Proof.
  induction s as [|c r IH]; simpl; [constructor |].
  destruct (keep c) eqn:Hc; [constructor; assumption | exact IH].
Qed.

Lemma filter_string_noop (keep : ascii -> bool) (s : string) :
  Forall (fun c => keep c = true) (list_ascii_of_string s) ->
  filter_string keep s = s.
Proof.
  induction s as [|c r IH]; intros H; [reflexivity |].
  cbn [list_ascii_of_string] in H. apply Forall_cons in H as [Hc Hr].
  simpl. rewrite Hc, IH by exact Hr. reflexivity.
Qed.

Lemma filter_string_sub (P : ascii -> Prop) (keep : ascii -> bool) (s : string) :
  Forall P (list_ascii_of_string s) ->
  Forall P (list_ascii_of_string (filter_string keep s)).
Proof.
  induction s as [|c r IH]; intros H; [constructor |].
  cbn [list_ascii_of_string] in H. apply Forall_cons in H as [Hc Hr].
  simpl. destruct (keep c); [constructor; auto | auto].
Qed.

Lemma create_safe_filename_chars (name : string) :
  Forall safe_char (list_ascii_of_string (create_safe_filename name)).
Proof.
  unfold create_safe_filename. apply join_chars.
  - split; [reflexivity | reflexivity].
  - pose proof (split_from_words
      (filter_string (fun c => negb (mem_char c FORBIDDEN_CHARS)) name) ""
      (Forall_nil_2 _)) as Hw.
    pose proof (split_from_chars (fun c => mem_char c FORBIDDEN_CHARS = false)
      (filter_string (fun c => negb (mem_char c FORBIDDEN_CHARS)) name) ""
      (Forall_nil_2 _)) as Hf.
    specialize (Hf ltac:(eapply Forall_impl; [apply filter_string_chars |];
                         intros c Hc; simpl in Hc; apply negb_true_iff in Hc; exact Hc)).
    unfold str_split.
    rewrite Forall_forall in Hw, Hf. apply Forall_forall. intros w Hin.
    destruct (Hw w Hin) as [_ Hns]. specialize (Hf w Hin).
    rewrite Forall_forall in Hns, Hf. apply Forall_forall. intros c Hc.
    split; [apply Hf, Hc |]. rewrite (Hns c Hc). discriminate.
Qed.

(** X4: a name made safe holds none of the forbidden characters, and no
    white space other than the space character. *)
Theorem create_safe_filename_clean (name : string) :
  Forall (fun c => mem_char c FORBIDDEN_CHARS = false
                   /\ (isspace c = true -> c = " "%char))
         (list_ascii_of_string (create_safe_filename name)).
Proof. exact (create_safe_filename_chars name). Qed.

(** X5: [create_safe_filename] is idempotent: a safe name is left as it is. *)
Theorem create_safe_filename_idempotent (name : string) :
  create_safe_filename (create_safe_filename name) = create_safe_filename name.
Proof.
  unfold create_safe_filename at 1.
  rewrite filter_string_noop.
  - unfold create_safe_filename. f_equal. apply join_split_idempotent.
  - eapply Forall_impl; [apply create_safe_filename_chars |].
    intros c [Hc _]. cbv beta. rewrite Hc. reflexivity.
Qed.

(** ** [str.replace] *)

Lemma prefix_cons (a b : ascii) (s1 s2 : string) :
  String.prefix (String a s1) (String b s2)
  = Ascii.eqb a b && String.prefix s1 s2.
Proof.
  cbn [String.prefix]. destruct (ascii_dec a b) as [-> | Hne].
  - rewrite Ascii.eqb_refl. reflexivity.
  - apply Ascii.eqb_neq in Hne. rewrite Hne. reflexivity.
Qed.

Lemma prefix_empty (s : string) : String.prefix "" s = true.
Proof. destruct s; reflexivity. Qed.

(** Replacing one character is character-wise. *)
Lemma replace_char (c : ascii) (new s : string) :
  str_replace s (String c EmptyString) new
  = concat_map_string (fun d => if Ascii.eqb d c then new else String d EmptyString) s.
Proof.
  unfold str_replace. induction s as [|d r IH]; [reflexivity |].
  cbn [replace_from concat_map_string]. rewrite prefix_cons, prefix_empty.
  cbn [String.length Nat.sub]. rewrite andb_true_r, Ascii.eqb_sym.
  destruct (Ascii.eqb d c); rewrite IH; reflexivity.
Qed.

(** A pattern whose first character does not occur leaves the text as it is. *)
Lemma replace_from_absent (a : ascii) (old new s : string) :
  mem_char a s = false -> replace_from (String a old) new 0 s = s.
Proof.
  induction s as [|d r IH]; [reflexivity |].
  cbn [mem_char]. intros H. apply orb_false_iff in H as [Had Hr].
  cbn [replace_from]. rewrite prefix_cons, Had. cbn [andb].
  rewrite IH by exact Hr. reflexivity.
Qed.

Lemma replace_from_chars (P : ascii -> Prop) (old new : string) (s : string) :
  forall skip,
    Forall P (list_ascii_of_string new) ->
    Forall P (list_ascii_of_string s) ->
    Forall P (list_ascii_of_string (replace_from old new skip s)).
Proof.
  induction s as [|d r IH]; intros skip Hnew Hs; [constructor |].
  cbn [list_ascii_of_string] in Hs. apply Forall_cons in Hs as [Hd Hr].
  cbn [replace_from]. destruct skip as [|k]; [| apply IH; assumption].
  destruct (String.prefix old (String d r)).
  - rewrite list_ascii_app. apply Forall_app. split; [exact Hnew | apply IH; assumption].
  - cbn [list_ascii_of_string]. constructor; [exact Hd | apply IH; assumption].
Qed.

Lemma str_replace_chars (P : ascii -> Prop) (s old new : string) :
  old <> "" ->
  Forall P (list_ascii_of_string new) ->
  Forall P (list_ascii_of_string s) ->
  Forall P (list_ascii_of_string (str_replace s old new)).
Proof.
  intros Hold. destruct old; [contradiction |]. apply replace_from_chars.
Qed.

Lemma concat_map_app (f : ascii -> string) (a b : string) :
  concat_map_string f (a +:+ b) = concat_map_string f a +:+ concat_map_string f b.
Proof.
  induction a as [|c a IH]; [reflexivity |].
  rewrite app_cons. cbn [concat_map_string]. rewrite IH, string_app_assoc. reflexivity.
Qed.

Lemma concat_map_single (f : ascii -> string) (c : ascii) :
  concat_map_string f (String c EmptyString) = f c.
Proof. cbn [concat_map_string]. apply string_app_nil_r. Qed.

Lemma mem_char_app (c : ascii) (a b : string) :
  mem_char c (a +:+ b) = mem_char c a || mem_char c b.
Proof.
  induction a as [|d a IH]; [reflexivity |].
  rewrite app_cons. cbn [mem_char]. rewrite IH, orb_assoc. reflexivity.
Qed.

Lemma mem_char_Forall (c : ascii) (s : string) :
  mem_char c s = false <->
  Forall (fun d => Ascii.eqb d c = false) (list_ascii_of_string s).
Proof.
  induction s as [|d r IH]; cbn [mem_char list_ascii_of_string].
  - split; [constructor | reflexivity].
  - rewrite orb_false_iff, Forall_cons, IH, (Ascii.eqb_sym c d). reflexivity.
Qed.

(** ** [escape_xml] *)

(** The three escaping replacements together rewrite every character on its
    own. *)
Lemma escape_steps (s : string) :
  str_replace (str_replace (str_replace s "&" "&amp;") "<" "&lt;") ">" "&gt;"
  = concat_map_string xml_entity s.
Proof.
  rewrite !replace_char. induction s as [|c r IH]; [reflexivity |].
  cbn [concat_map_string]. rewrite !concat_map_app, IH. f_equal.
  unfold xml_entity.
  destruct (Ascii.eqb c "&") eqn:E1; [reflexivity |].
  rewrite concat_map_single.
  destruct (Ascii.eqb c "<") eqn:E2; [reflexivity |].
  rewrite concat_map_single.
  destruct (Ascii.eqb c ">") eqn:E3; reflexivity.
Qed.

Lemma escaped_text (s : string) :
  mem_char "<" (concat_map_string xml_entity s) = false
  /\ mem_char ">" (concat_map_string xml_entity s) = false
  /\ ampersands_escaped (concat_map_string xml_entity s) = true.
Proof.
  induction s as [|c r (IH1 & IH2 & IH3)]; [repeat split |].
  cbn [concat_map_string]. rewrite !mem_char_app, IH1, IH2, !orb_false_r.
  set (rest := concat_map_string xml_entity r) in *.
  unfold xml_entity.
  destruct (Ascii.eqb c "&") eqn:E1;
    [| destruct (Ascii.eqb c "<") eqn:E2;
       [| destruct (Ascii.eqb c ">") eqn:E3]].
  - split; [reflexivity |]. split; [reflexivity |].
    rewrite !app_cons, app_nil_l. cbn [ampersands_escaped].
    rewrite !prefix_cons, prefix_empty, IH3. reflexivity.
  - split; [reflexivity |]. split; [reflexivity |].
    rewrite !app_cons, app_nil_l. cbn [ampersands_escaped].
    rewrite !prefix_cons, prefix_empty, IH3. reflexivity.
  - split; [reflexivity |]. split; [reflexivity |].
    rewrite !app_cons, app_nil_l. cbn [ampersands_escaped].
    rewrite !prefix_cons, prefix_empty, IH3. reflexivity.
  - cbn [mem_char]. rewrite (Ascii.eqb_sym "<" c), (Ascii.eqb_sym ">" c), E2, E3.
    split; [reflexivity |]. split; [reflexivity |].
    rewrite app_cons, app_nil_l. cbn [ampersands_escaped].
    rewrite E1, IH3. reflexivity.
Qed.

Lemma escaped_plain (s : string) :
  mem_char "&" s = false -> mem_char "<" s = false -> mem_char ">" s = false ->
  concat_map_string xml_entity s = s.
Proof.
  induction s as [|c r IH]; [reflexivity |].
  cbn [mem_char]. intros H1 H2 H3.
  apply orb_false_iff in H1 as [H1 H1'], H2 as [H2 H2'], H3 as [H3 H3'].
  cbn [concat_map_string]. rewrite IH by assumption.
  unfold xml_entity.
  rewrite (Ascii.eqb_sym c "&"), H1, (Ascii.eqb_sym c "<"), H2,
    (Ascii.eqb_sym c ">"), H3.
  reflexivity.
Qed.

Lemma escape_xml_unfold (text : string) :
  escape_xml text
  = concat_map_string xml_entity
      (str_replace (str_replace (str_replace text "&amp;" "&") "&lt;" "<") "&gt;" ">").
Proof. unfold escape_xml. apply escape_steps. Qed.

Lemma lstrip_by_chars (P : ascii -> Prop) (sp : ascii -> bool) (s : string) :
  Forall P (list_ascii_of_string s) ->
  Forall P (list_ascii_of_string (lstrip_by sp s)).
Proof.
  induction s as [|c r IH]; intros H; [constructor |].
  cbn [lstrip_by]. destruct (sp c); [| exact H].
  cbn [list_ascii_of_string] in H. apply Forall_cons in H as [_ H]. apply IH, H.
Qed.

Lemma rstrip_by_chars (P : ascii -> Prop) (sp : ascii -> bool) (s : string) :
  Forall P (list_ascii_of_string s) ->
  Forall P (list_ascii_of_string (rstrip_by sp s)).
Proof.
  induction s as [|c r IH]; intros H; [constructor |].
  cbn [list_ascii_of_string] in H. apply Forall_cons in H as [Hc H].
  cbn [rstrip_by]. destruct (sp c && negb (str_truthy (rstrip_by sp r)));
    [constructor |].
  cbn [list_ascii_of_string]. constructor; [exact Hc | apply IH, H].
Qed.

Lemma strip_chars (P : ascii -> Prop) (s : string) :
  Forall P (list_ascii_of_string s) ->
  Forall P (list_ascii_of_string (strip s)).
Proof. intros H. apply rstrip_by_chars, lstrip_by_chars, H. Qed.

(** X14: the text [escape_xml] returns holds no less-than and no
    greater-than sign, and each of its ampersands starts one of the entities
    [&amp;], [&lt;] and [&gt;]; a text without any of the three characters
    is returned as it is. The description and the author of a gamelist entry
    hold no less-than and no greater-than sign either. *)
Theorem escape_xml_output (text : string) (row : gmap string string) :
  mem_char "<" (escape_xml text) = false
  /\ mem_char ">" (escape_xml text) = false
  /\ ampersands_escaped (escape_xml text) = true
  /\ (mem_char "&" text = false -> mem_char "<" text = false ->
      mem_char ">" text = false -> escape_xml text = text)
  /\ mem_char "<" (get_description row) = false
  /\ mem_char ">" (get_description row) = false
  /\ mem_char "<" (get_author row) = false
  /\ mem_char ">" (get_author row) = false.
Proof.
  assert (He : forall t, mem_char "<" (escape_xml t) = false
                         /\ mem_char ">" (escape_xml t) = false
                         /\ ampersands_escaped (escape_xml t) = true).
  { intros t. rewrite escape_xml_unfold. apply escaped_text. }
  destruct (He text) as (H1 & H2 & H3).
  do 3 (split; [assumption |]).
  split.
  { intros Ha Hl Hg. rewrite escape_xml_unfold. unfold str_replace.
    rewrite (replace_from_absent "&" _ _ text Ha).
    rewrite (replace_from_absent "&" _ _ text Ha).
    rewrite (replace_from_absent "&" _ _ text Ha).
    apply escaped_plain; assumption. }
  unfold get_description, get_author.
  split; [apply He |]. split; [apply He |].
  split; apply mem_char_Forall, strip_chars, mem_char_Forall, He.
Qed.

Lemma escape_xml_output_witness :
  escape_xml "Tic Tac Toe" = "Tic Tac Toe"
  /\ escape_xml "a<b & &lt;c&amp;gt;" = "a&lt;b &amp; &lt;c&gt;".
Proof.
  split; [| vm_compute; reflexivity].
  apply (escape_xml_output "Tic Tac Toe" ∅); vm_compute; reflexivity.
Defined.

(** ** The failures of the generator *)

Lemma fromtimestamp_raises (tz : Z -> Z) (f : spec_float) (e : exn) :
  fromtimestamp tz f = Raise e ->
  e = ValueError \/ e = OverflowError \/ e = OSError.
Proof.
  unfold fromtimestamp.
  destruct (timestamp_seconds f) as [t|e'] eqn:Ht; simpl.
  - repeat match goal with |- context [if ?b then _ else _] => destruct b end;
      intros [= <-]; auto.
  - intros [= <-]. destruct f as [z|z| |s m ex]; simpl in Ht; try discriminate.
    + injection Ht as <-. auto.
    + injection Ht as <-. auto.
    + match type of Ht with (if ?b then _ else _) = _ => destruct b end;
        [discriminate | injection Ht as <-; auto].
Qed.

Lemma effective_date_rendered (tz : Z -> Z) (row : gmap string string) :
  effective_date tz row =
  match rendered_ts row with
  | Some f => render tz f
  | None => Ok (if String.eqb (tic_step row "") "" then tic_date row
                else tic_step row "")
  end.
Proof.
  unfold effective_date, rendered_ts. rewrite overwrite_date_usable.
  destruct (usable_ts (row !! "overwrite_upd_timestamp")) as [f|].
  - unfold render. destruct (fromtimestamp tz f) as [d|e]; simpl; [| reflexivity].
    rewrite tic_step_nonempty by apply strftime_ymd_nonempty.
    apply itch_step_nonempty, strftime_ymd_nonempty.
  - simpl. destruct (String.eqb (tic_step row "") "") eqn:Hs.
    + apply String.eqb_eq in Hs. rewrite Hs. apply itch_step_usable.
    + apply itch_step_nonempty. intros H. rewrite H in Hs. discriminate.
Qed.

Lemma generate_raises_effective
  (tz : Z -> Z) (row : gmap string string)
  (use_custom_filenames use_custom_gamenames filename_category_parenthesis : bool)
  (filename_case rom_folder_organization : string) (e : exn) :
  generate_filename_and_gamename tz row use_custom_filenames use_custom_gamenames
    filename_category_parenthesis filename_case rom_folder_organization = Raise e
  <-> effective_date tz row = Raise e.
Proof.
  unfold generate_filename_and_gamename.
  destruct (effective_date tz row) as [d|e']; simpl; split; congruence.
Qed.

(** X6: the generator fails exactly when the timestamp it selected has no
    date: the exception is the one [datetime.fromtimestamp] raises on that
    timestamp, a [ValueError], an [OverflowError] or an [OSError]; the naming
    options play no part, and a record whose date comes from the catalogA
    date fields always gets its names. *)
Theorem generate_fails_on_undatable_timestamp
  (tz : Z -> Z) (row : gmap string string)
  (use_custom_filenames use_custom_gamenames filename_category_parenthesis : bool)
  (filename_case rom_folder_organization : string) :
  let result :=
    generate_filename_and_gamename tz row use_custom_filenames use_custom_gamenames
      filename_category_parenthesis filename_case rom_folder_organization in
  (forall e, result = Raise e <->
             exists f, rendered_ts row = Some f /\ fromtimestamp tz f = Raise e)
  /\ (forall e, result = Raise e ->
                e = ValueError \/ e = OverflowError \/ e = OSError)
  /\ (rendered_ts row = None -> exists fi, result = Ok fi).
Proof.
  intros result.
  assert (Hiff : forall e, result = Raise e <->
             exists f, rendered_ts row = Some f /\ fromtimestamp tz f = Raise e).
  { intros e. unfold result. rewrite generate_raises_effective,
      effective_date_rendered.
    destruct (rendered_ts row) as [f|].
    - unfold render. destruct (fromtimestamp tz f) as [d|e'] eqn:Hf; simpl.
      + split; [discriminate |]. intros (g & [= <-] & Hg). congruence.
      + split.
        * intros [= <-]. eauto.
        * intros (g & [= <-] & Hg). congruence.
    - split; [discriminate |]. intros (g & Hg & _). discriminate. }
  split; [exact Hiff |]. split.
  - intros e He. apply Hiff in He as (f & _ & Hf).
    eapply fromtimestamp_raises, Hf.
  - intros Hn. destruct result as [fi|e] eqn:Hr; [eauto |].
    destruct (proj1 (Hiff e) eq_refl) as (f & Hf & _). congruence.
Qed.

Lemma generate_fails_on_undatable_timestamp_witness :
  let row : gmap string string :=
    {[ "tic_id" := "42"; "name_original_reference" := "Cave";
       "source_with_bestversion" := "itch"; "itch_upd_timestamp" := "nan" ]} in
  generate_filename_and_gamename utc row false false false "unchanged" "single"
  = Raise ValueError.
Proof.
  intros row.
  apply (generate_fails_on_undatable_timestamp utc row false false false
           "unchanged" "single").
  exists S754_nan. split; vm_compute; reflexivity.
Defined.

(** ** [get_secondary_game_id] *)

Lemma opt_eqb_eq (a b : option string) : opt_eqb a b = true <-> a = b.
Proof.
  destruct a as [x|], b as [y|]; simpl; try (split; congruence).
  rewrite String.eqb_eq. split; congruence.
Qed.

Lemma opt_truthy_Some (o : option string) :
  opt_truthy o = true <-> exists s, o = Some s /\ s <> "".
Proof.
  destruct o as [s|]; simpl.
  - split.
    + intros H. exists s. split; [reflexivity |]. intros ->. discriminate.
    + intros (s' & [= <-] & Hs). destruct s; [contradiction | reflexivity].
  - split; [discriminate |]. intros (s & Hs & _). discriminate.
Qed.

(** X7: the secondary identifier, when there is one, is the non-empty
    identifier of the other catalog: the record has both [tic_id] and
    [itch_id], the primary identifier is one of them and the secondary is the
    other one, which differs from the primary. *)
Theorem get_secondary_game_id_other_catalog (row : gmap string string) (s : string) :
  get_secondary_game_id row = Some s ->
  s <> ""
  /\ get_primary_game_id row <> Some s
  /\ ((row !! "itch_id" = Some s /\ get_primary_game_id row = row !! "tic_id")
      \/ (row !! "tic_id" = Some s /\ get_primary_game_id row = row !! "itch_id")).
Proof.
  unfold get_secondary_game_id.
  destruct (opt_eqb (get_primary_game_id row) (row !! "tic_id")
            && opt_truthy (row !! "itch_id")
            && negb (opt_eqb (row !! "tic_id") (row !! "itch_id"))) eqn:H1.
  - apply andb_true_iff in H1 as [H1 Hne]. apply andb_true_iff in H1 as [Hp Ht].
    apply opt_eqb_eq in Hp. apply opt_truthy_Some in Ht as (i & Hi & Hi').
    apply negb_true_iff in Hne.
    intros Hs. rewrite Hi in Hs. injection Hs as <-.
    split; [exact Hi' |]. split.
    + rewrite Hp. intros Heq. rewrite Heq, Hi in Hne. simpl in Hne.
      rewrite String.eqb_refl in Hne. discriminate.
    + left. auto.
  - destruct (opt_eqb (get_primary_game_id row) (row !! "itch_id")
              && opt_truthy (row !! "tic_id")
              && negb (opt_eqb (row !! "tic_id") (row !! "itch_id"))) eqn:H2;
      [| discriminate].
    apply andb_true_iff in H2 as [H2 Hne]. apply andb_true_iff in H2 as [Hp Ht].
    apply opt_eqb_eq in Hp. apply opt_truthy_Some in Ht as (t & Ht & Ht').
    apply negb_true_iff in Hne.
    intros Hs. rewrite Ht in Hs. injection Hs as <-.
    split; [exact Ht' |]. split.
    + rewrite Hp. intros Heq. rewrite Heq, Ht in Hne. simpl in Hne.
      rewrite String.eqb_refl in Hne. discriminate.
    + right. auto.
Qed.

Lemma get_secondary_game_id_other_catalog_witness :
  let row : gmap string string :=
    {[ "tic_id" := "42"; "itch_id" := "99"; "source_with_bestversion" := "itch" ]} in
  "42" <> ""
  /\ get_primary_game_id row <> Some "42"
  /\ ((row !! "itch_id" = Some "42" /\ get_primary_game_id row = row !! "tic_id")
      \/ (row !! "tic_id" = Some "42" /\ get_primary_game_id row = row !! "itch_id")).
Proof.
  intros row. apply (get_secondary_game_id_other_catalog row "42").
  vm_compute. reflexivity.
Defined.

(** X8: for a record with two different, non-empty catalog identifiers, the
    secondary identifier is the [itch_id] when the primary is the [tic_id],
    the [tic_id] when the primary is the [itch_id], and there is none when
    the primary is neither (a custom [id]). *)
Theorem get_secondary_game_id_both_catalogs (row : gmap string string) (t i : string) :
  row !! "tic_id" = Some t -> row !! "itch_id" = Some i ->
  t <> "" -> i <> "" -> t <> i ->
  get_secondary_game_id row =
  if decide (get_primary_game_id row = Some t) then Some i
  else if decide (get_primary_game_id row = Some i) then Some t
  else None.
Proof.
  intros Ht Hi Htne Hine Hti. unfold get_secondary_game_id. rewrite Ht, Hi.
  assert (Hne : opt_eqb (Some t) (Some i) = false).
  { simpl. apply String.eqb_neq. exact Hti. }
  rewrite Hne. simpl negb. rewrite !andb_true_r.
  assert (Hit : opt_truthy (Some i) = true) by (apply opt_truthy_Some; eauto).
  assert (Htt : opt_truthy (Some t) = true) by (apply opt_truthy_Some; eauto).
  rewrite Hit, Htt, !andb_true_r.
  destruct (decide (get_primary_game_id row = Some t)) as [Hp|Hp].
  - apply opt_eqb_eq in Hp as Hp'. rewrite Hp'. reflexivity.
  - destruct (opt_eqb (get_primary_game_id row) (Some t)) eqn:E1.
    { apply opt_eqb_eq in E1. contradiction. }
    destruct (decide (get_primary_game_id row = Some i)) as [Hq|Hq].
    + apply opt_eqb_eq in Hq as Hq'. rewrite Hq'. reflexivity.
    + destruct (opt_eqb (get_primary_game_id row) (Some i)) eqn:E2; [| reflexivity].
      apply opt_eqb_eq in E2. contradiction.
Qed.

Lemma get_secondary_game_id_both_catalogs_witness :
  let row : gmap string string :=
    {[ "tic_id" := "42"; "itch_id" := "99"; "id" := "7";
       "source_with_bestversion" := "custom" ]} in
  get_secondary_game_id row = None
  /\ get_secondary_game_id (delete "id" row) = Some "99".
Proof.
  intros row. split.
  - rewrite (get_secondary_game_id_both_catalogs row "42" "99");
      [vm_compute; reflexivity | vm_compute; reflexivity | vm_compute; reflexivity
      | discriminate | discriminate | discriminate].
  - rewrite (get_secondary_game_id_both_catalogs (delete "id" row) "42" "99");
      [vm_compute; reflexivity | vm_compute; reflexivity | vm_compute; reflexivity
      | discriminate | discriminate | discriminate].
Defined.

(** ** The modification time set by [sync_filenames] *)

(** The conversion that keeps the previous value never raises; after a
    previous value that does not count, what it yields counts exactly when
    [usable_ts] says so. *)
Lemma float_field_keep_usable (prev : option spec_float) (o : option string) :
  opt_float_truthy prev = false ->
  exists r, float_field_keep prev o = Ok r
            /\ (if opt_float_truthy r then usable_ts o = r else usable_ts o = None).
Proof.
  intros Hprev. destruct o as [s|].
  2: { exists prev. split; [reflexivity |]. rewrite Hprev. reflexivity. }
  unfold float_field_keep, opt_truthy, usable_ts.
  destruct (str_truthy s) eqn:Hs.
  - simpl. destruct (py_float s) as [f|e] eqn:Hf; simpl.
    + exists (Some f). split; [reflexivity |]. simpl.
      destruct (float_truthy f); reflexivity.
    + apply py_float_raises in Hf. subst e. simpl.
      exists prev. split; [reflexivity |]. rewrite Hprev. reflexivity.
  - apply str_truthy_false in Hs. subst s. rewrite py_float_empty.
    exists prev. split; [reflexivity |]. rewrite Hprev. reflexivity.
Qed.

Lemma opt_float_truthy_Some (r : option spec_float) :
  opt_float_truthy r = true -> exists f, r = Some f /\ float_truthy f = true.
Proof. destruct r as [f|]; simpl; [eauto | discriminate]. Qed.

(** X18: for a record whose preferred source is given and is not
    [tic80com], the timestamp [sync_filenames] sets the modification time of
    the ROM to is the timestamp whose date the generator puts in the file
    name; the modification time is left alone exactly when the generator
    falls back on the catalogA date fields. The selection never raises. *)
Theorem sync_mtime_is_filename_timestamp (tz : Z -> Z) (row : gmap string string) :
  get_default row "source_with_bestversion" "tic80com" <> "tic80com" ->
  exists r,
    sync_selected_ts row = Ok r
    /\ match rendered_ts row with
       | Some f =>
           r = Some f /\ float_truthy f = true
           /\ effective_date tz row = render tz f
       | None =>
           opt_float_truthy r = false
           /\ effective_date tz row = Ok (tic_date row)
       end.
Proof.
  intros Hsrc. apply String.eqb_neq in Hsrc.
  assert (Hstep : tic_step row "" = "").
  { unfold tic_step. rewrite Hsrc. reflexivity. }
  rewrite effective_date_rendered. unfold rendered_ts. rewrite Hstep.
  change (String.eqb "" "") with true. cbv iota.
  unfold sync_selected_ts. rewrite Hsrc.
  destruct (float_field_keep_usable None (row !! "overwrite_upd_timestamp") eq_refl)
    as (r1 & -> & H1).
  cbn [bind]. rewrite andb_false_r. cbn [bind]. destruct (opt_float_truthy r1) eqn:Ht1.
  - rewrite H1. apply opt_float_truthy_Some in Ht1 as (f & -> & Hf).
    exists (Some f). simpl. auto.
  - rewrite H1. cbn [negb].
    destruct (float_field_keep_usable None (row !! "itch_upd_timestamp") eq_refl)
      as (u & -> & Hu).
    destruct (float_field_keep_usable None (row !! "itch_lastmodified_timestamp") eq_refl)
      as (l & -> & Hl).
    cbn [bind]. unfold spec_itch_choice.
    destruct (opt_float_truthy u) eqn:Htu, (opt_float_truthy l) eqn:Htl;
      rewrite Hu, Hl; cbn [andb].
    + apply opt_float_truthy_Some in Htu as (fu & -> & Hfu).
      apply opt_float_truthy_Some in Htl as (fl & -> & Hfl).
      eexists. split; [reflexivity |]. cbn [default].
      split; [reflexivity |]. split; [| reflexivity].
      unfold py_min. destruct (SFltb fl fu); assumption.
    + apply opt_float_truthy_Some in Htu as (fu & -> & Hfu).
      eexists. split; [reflexivity |]. auto.
    + apply opt_float_truthy_Some in Htl as (fl & -> & Hfl).
      eexists. split; [reflexivity |]. auto.
    + destruct (float_field_keep_usable r1 (row !! "itch_pub_timestamp") Ht1)
        as (p & -> & Hp).
      exists p. split; [reflexivity |].
      destruct (opt_float_truthy p) eqn:Htp; rewrite Hp.
      * apply opt_float_truthy_Some in Htp as (fp & -> & Hfp). auto.
      * auto.
Qed.

Lemma sync_mtime_is_filename_timestamp_witness :
  let row : gmap string string :=
    {[ "source_with_bestversion" := "itch"; "itch_id" := "99";
       "itch_upd_timestamp" := "1700000000";
       "itch_lastmodified_timestamp" := "1600000000.5" ]} in
  exists r,
    sync_selected_ts row = Ok r
    /\ match rendered_ts row with
       | Some f =>
           r = Some f /\ float_truthy f = true
           /\ effective_date utc row = render utc f
       | None =>
           opt_float_truthy r = false
           /\ effective_date utc row = Ok (tic_date row)
       end.
Proof.
  intros row. apply (sync_mtime_is_filename_timestamp utc row).
  vm_compute. discriminate.
Defined.

(** ** Loading: every row is accounted for *)

Lemma dict_set_length {V : Type} (d : list (string * V)) (k : string) (v : V) :
  length (dict_set d k v)
  = if dict_contains d k then length d else S (length d).
Proof.
  unfold dict_contains. induction d as [|[k' v'] d IH]; simpl; [reflexivity |].
  destruct (String.eqb k k'); simpl; [reflexivity |].
  rewrite IH. destruct (dict_get d k); reflexivity.
Qed.

Lemma load_row_count (g g' : globals) (i : nat) (row : gmap string string) :
  load_row g i row = Ok g' ->
  (length (_global_db g') + length (warnings g')
   = S (length (_global_db g) + length (warnings g)))%nat.
Proof.
  unfold load_row. destruct (normalize_row row) as [n|e]; [| discriminate].
  simpl. destruct (opt_truthy (get_primary_game_id n)); intros [= <-]; simpl.
  - rewrite dict_set_length, length_app.
    destruct (dict_contains _ _); simpl; lia.
  - rewrite length_app. simpl. lia.
Qed.

Lemma load_rows_count (rows : list (gmap string string)) :
  forall (g g' : globals) (i : nat),
    load_rows g i rows = Ok g' ->
    (length (_global_db g') + length (warnings g')
     = length rows + (length (_global_db g) + length (warnings g)))%nat.
Proof.
  induction rows as [|row rows IH]; intros g g' i; simpl.
  - intros [= <-]. reflexivity.
  - destruct (load_row g i row) as [g1|e] eqn:H1; [| discriminate]. simpl.
    intros H2. apply IH in H2. apply load_row_count in H1. lia.
Qed.

(** X10: a load that completes accounts for every data row of the file:
    the rows read are as many as the records stored plus the warnings
    printed (a row is stored under a new identity, or replaces a record with
    a duplicate warning, or is skipped with a missing-identifier warning). *)
Theorem load_accounts_for_every_row (f : csv_file) (g : globals) :
  load_csv_database (Some f) = Ok g ->
  length (DictReader f) = (length (_global_db g) + length (warnings g))%nat.
Proof.
  simpl. intros H. apply load_rows_count in H. simpl in H. lia.
Qed.

Lemma load_accounts_for_every_row_witness :
  let f := mkcsv ["id"; "itch_id"; "tic_id"]
                 [ ["7.0"; ""; ""]; []; [""; ""; " 7 "]; [""; ""; ""] ] in
  exists g,
    load_csv_database (Some f) = Ok g
    /\ warnings g = [DuplicateGameId "7"; MissingGameId 4]
    /\ length (DictReader f) = (length (_global_db g) + length (warnings g))%nat.
Proof.
  intros f.
  assert (H : load_csv_database (Some f)
              = Ok (mkglobals
                      [("7", {[ "id" := ""; "itch_id" := ""; "tic_id" := "7" ]})]
                      (Some ["id"; "itch_id"; "tic_id"])
                      [DuplicateGameId "7"; MissingGameId 4]))
    by (vm_compute; reflexivity).
  eexists. split; [exact H |]. split; [reflexivity |].
  apply (load_accounts_for_every_row f _ H).
Defined.

(** ** Loading: when it completes *)

Lemma fold_insert_lookup_Some (l : list (string * string)) :
  forall (m : gmap string string) (c v : string),
    fold_left (fun m kv => <[fst kv := snd kv]> m) l m !! c = Some v ->
    v ∈ map snd l \/ m !! c = Some v.
Proof.
  induction l as [|[k x] l IH]; intros m c v; simpl; [auto |].
  intros H. apply IH in H as [H | H].
  - left. apply list_elem_of_further, H.
  - destruct (decide (c = k)) as [-> | Hne].
    + rewrite lookup_insert_eq in H. injection H as ->. left. apply list_elem_of_here.
    + rewrite lookup_insert_ne in H by congruence. auto.
Qed.

Lemma map_snd_combine_sub (names cells : list string) (v : string) :
  v ∈ map snd (combine names cells) -> v ∈ cells.
Proof.
  revert cells. induction names as [|n names IH]; intros [|c cells]; simpl;
    try (intros H; apply not_elem_of_nil in H; contradiction).
  intros H. apply elem_of_cons in H as [-> | H].
  - apply list_elem_of_here.
  - apply list_elem_of_further, IH, H.
Qed.

Lemma dict_of_cells_lookup_Some (names cells : list string) (c v : string) :
  dict_of_cells names cells !! c = Some v -> v ∈ cells.
Proof.
  unfold dict_of_cells. intros H. apply fold_insert_lookup_Some in H as [H | H].
  - eapply map_snd_combine_sub, H.
  - rewrite lookup_empty in H. discriminate.
Qed.

Lemma normalize_row_total (row : gmap string string) :
  is_Some (row !! "id") -> is_Some (row !! "itch_id") -> is_Some (row !! "tic_id") ->
  (forall c v, row !! c = Some v -> ~ raises (normalize_id v)) ->
  exists n, normalize_row row = Ok n.
Proof.
  intros [a Ha] [b Hb] [c Hc] Hok. unfold normalize_row.
  destruct (normalize_field_present row "id" a Ha) as [(na & _ & ->) | [Hr _]];
    [| exfalso; exact (Hok _ _ Ha Hr)].
  simpl.
  assert (Hb' : <["id" := na]> row !! "itch_id" = Some b)
    by (rewrite lookup_insert_ne by discriminate; exact Hb).
  destruct (normalize_field_present _ "itch_id" b Hb') as [(nb & _ & ->) | [Hr _]];
    [| exfalso; exact (Hok _ _ Hb Hr)].
  simpl.
  assert (Hc' : <["itch_id" := nb]> (<["id" := na]> row) !! "tic_id" = Some c)
    by (rewrite !lookup_insert_ne by discriminate; exact Hc).
  destruct (normalize_field_present _ "tic_id" c Hc') as [(nc & _ & ->) | [Hr _]];
    [| exfalso; exact (Hok _ _ Hc Hr)].
  eexists. reflexivity.
Qed.

(** X9: a file whose header has the three identifier columns, whose data
    rows are blank or as long as the header, and none of whose cells
    normalizes with an error (none reads as an infinite number), loads: no
    exception is raised and the header is remembered for the next save. *)
Theorem load_completes (f : csv_file) :
  csv_wf f ->
  "id" ∈ fieldnames f -> "itch_id" ∈ fieldnames f -> "tic_id" ∈ fieldnames f ->
  (forall cells v, cells ∈ records f -> v ∈ cells -> ~ raises (normalize_id v)) ->
  exists g,
    load_csv_database (Some f) = Ok g
    /\ _global_fieldnames g = Some (fieldnames f).
Proof.
  intros Hwf Hid Hitch Htic Hok.
  assert (Hnames : match fieldnames f with [] => None | l => Some l end
                   = Some (fieldnames f)).
  { destruct (fieldnames f); [apply not_elem_of_nil in Hid; contradiction | reflexivity]. }
  cbn [load_csv_database]. rewrite Hnames.
  assert (Hrows : Forall (fun r => exists n, normalize_row r = Ok n) (DictReader f)).
  { unfold DictReader. apply Forall_forall. intros r Hr.
    apply list_elem_of_fmap in Hr as (cells & -> & Hin).
    apply list_elem_of_In, List.filter_In in Hin as [Hin Hnb].
    apply list_elem_of_In in Hin.
    unfold csv_wf in Hwf. rewrite Forall_forall in Hwf.
    destruct (Hwf cells Hin) as [-> | Hlen]; [discriminate |].
    assert (Hpresent : forall c, c ∈ fieldnames f ->
                         is_Some (dict_of_cells (fieldnames f) cells !! c)).
    { intros c Hc. destruct (dict_of_cells (fieldnames f) cells !! c) eqn:E; [eauto |].
      apply dict_of_cells_lookup_None in E; [contradiction | exact Hlen]. }
    apply normalize_row_total; auto.
    intros c v Hv. apply dict_of_cells_lookup_Some in Hv. eapply Hok; eauto. }
  destruct (load_rows_total _ Hrows (mkglobals [] (Some (fieldnames f)) []) 0%nat)
    as [g Hg].
  exists g. split; [exact Hg |].
  destruct (load_rows_spec _ _ _ _ Hg) as (_ & _ & _ & Hf & _). exact Hf.
Qed.

Lemma load_completes_witness :
  let f := mkcsv ["id"; "itch_id"; "tic_id"] [ ["7.0"; ""; "nan"]; [] ] in
  exists g,
    load_csv_database (Some f) = Ok g
    /\ _global_fieldnames g = Some (fieldnames f).
Proof.
  intros f. apply (load_completes f).
  - unfold csv_wf; simpl. repeat (constructor; [auto |]). constructor.
  - simpl. set_solver.
  - simpl. set_solver.
  - simpl. set_solver.
  - intros cells v Hc Hv. simpl in Hc.
    assert (Hcases : v = "7.0" \/ v = "" \/ v = "nan").
    { apply elem_of_cons in Hc as [-> | Hc].
      - repeat (apply elem_of_cons in Hv as [-> | Hv]; [tauto |]).
        apply not_elem_of_nil in Hv. contradiction.
      - apply list_elem_of_singleton in Hc. subst cells.
        apply not_elem_of_nil in Hv. contradiction. }
    destruct Hcases as [-> | [-> | ->]]; vm_compute; auto.
Defined.

(** ** Loading: duplicate warnings *)

Lemma store_add_contains (db : list (string * gmap string string))
  (n : gmap string string) (k : string) :
  k <> "" ->
  dict_contains (store_add db n) k = true
  <-> get_primary_game_id n = Some k \/ dict_contains db k = true.
Proof.
  intros Hk. unfold dict_contains. rewrite store_add_get by exact Hk.
  destruct (decide (get_primary_game_id n = Some k)) as [Hn | Hn].
  - split; auto.
  - destruct (dict_get db k); split; auto. intros [? | ?]; [contradiction | assumption].
Qed.

Lemma load_row_duplicate (g g' : globals) (i : nat) (row : gmap string string)
  (k : string) :
  load_row g i row = Ok g' ->
  exists n,
    normalize_row row = Ok n
    /\ (DuplicateGameId k ∈ warnings g' <->
        DuplicateGameId k ∈ warnings g
        \/ (get_primary_game_id n = Some k /\ k <> ""
            /\ dict_contains (_global_db g) k = true)).
Proof.
  unfold load_row. destruct (normalize_row row) as [n|e]; [| discriminate].
  cbn [bind]. intros H. exists n. split; [reflexivity |].
  destruct (primary_some n) as [k' Hn]. rewrite Hn in *. cbn [opt_truthy format_opt] in H.
  destruct (str_truthy k') eqn:Ht; injection H as <-; cbn [warnings].
  - assert (Hk' : k' <> "") by (intros ->; discriminate).
    rewrite elem_of_app. destruct (dict_contains (_global_db g) k') eqn:Hc.
    + rewrite list_elem_of_singleton. split.
      * intros [H | [= ->]]; [auto |]. right. auto.
      * intros [H | ([= ->] & _ & _)]; auto.
    + split.
      * intros [H | H]; [auto | apply not_elem_of_nil in H; contradiction].
      * intros [H | ([= ->] & _ & Hc')]; [auto | congruence].
  - apply str_truthy_false in Ht. subst k'.
    rewrite elem_of_app, list_elem_of_singleton. split.
    + intros [H | H]; [auto | discriminate].
    + intros [H | ([= <-] & Hk & _)]; [auto | contradiction].
Qed.

Lemma load_rows_duplicate (rows : list (gmap string string)) (k : string) :
  forall (g g' : globals) (i0 : nat),
    load_rows g i0 rows = Ok g' ->
    exists nrows,
      Forall2 (fun r n => normalize_row r = Ok n) rows nrows
      /\ (DuplicateGameId k ∈ warnings g' <->
          DuplicateGameId k ∈ warnings g
          \/ (k <> ""
              /\ exists l1 n l2,
                  nrows = l1 ++ n :: l2
                  /\ get_primary_game_id n = Some k
                  /\ (dict_contains (_global_db g) k = true
                      \/ exists a, a ∈ l1 /\ get_primary_game_id a = Some k))).
Proof.
  induction rows as [|row rows IH]; intros g g' i0; cbn [load_rows].
  - intros [= <-]. exists []. split; [constructor |]. split; [auto |].
    intros [H | (_ & l1 & n & l2 & H & _)]; [exact H |].
    destruct l1; discriminate.
  - destruct (load_row g i0 row) as [g1|e] eqn:H1; [| discriminate]. cbn [bind].
    intros H2.
    destruct (load_row_duplicate _ _ _ _ k H1) as (n0 & Hn0 & Hw1).
    destruct (load_row_spec _ _ _ _ H1) as (n0' & Hn0' & Hdb1 & _).
    assert (n0' = n0) by congruence. subst n0'.
    destruct (IH _ _ _ H2) as (nrows & Hns & Hw2).
    exists (n0 :: nrows). split; [constructor; assumption |].
    rewrite Hw2, Hw1. split.
    + intros [[H | (Hp & Hk & Hc)] | (Hk & l1 & n & l2 & -> & Hp & Hcase)].
      * auto.
      * right. split; [exact Hk |]. exists [], n0, nrows. auto.
      * right. split; [exact Hk |]. exists (n0 :: l1), n, l2.
        split; [reflexivity |]. split; [exact Hp |].
        destruct Hcase as [Hc | (a & Ha & Hpa)].
        -- rewrite Hdb1 in Hc. apply store_add_contains in Hc as [Hc | Hc];
             [| auto | exact Hk].
           right. exists n0. split; [apply list_elem_of_here | exact Hc].
        -- right. exists a. split; [apply list_elem_of_further, Ha | exact Hpa].
    + intros [H | (Hk & l1 & n & l2 & Heq & Hp & Hcase)]; [auto |].
      destruct l1 as [|a0 l1]; cbn [app] in Heq; injection Heq as <- ->.
      * destruct Hcase as [Hc | (a & Ha & _)];
          [| apply not_elem_of_nil in Ha; contradiction].
        left. right. auto.
      * right. split; [exact Hk |]. exists l1, n, l2.
        split; [reflexivity |]. split; [exact Hp |].
        rewrite Hdb1.
        destruct Hcase as [Hc | (a & Ha & Hpa)].
        -- left. apply store_add_contains; auto.
        -- apply elem_of_cons in Ha as [-> | Ha].
           ++ left. apply store_add_contains; auto.
           ++ right. eauto.
Qed.

(** X19: a load that completes prints the duplicate warning for an
    identity exactly when two of the rows, once normalized, resolve to that
    identity, which is not empty. *)
Theorem load_warns_of_duplicates (f : csv_file) (g : globals) (k : string) :
  load_csv_database (Some f) = Ok g ->
  exists nrows,
    Forall2 (fun r n => normalize_row r = Ok n) (DictReader f) nrows
    /\ (DuplicateGameId k ∈ warnings g <->
        k <> ""
        /\ exists l1 a l2 b l3,
            nrows = l1 ++ a :: l2 ++ b :: l3
            /\ get_primary_game_id a = Some k
            /\ get_primary_game_id b = Some k).
Proof.
  cbn [load_csv_database]. intros H.
  destruct (load_rows_duplicate _ k _ _ _ H) as (nrows & Hns & Hw).
  exists nrows. split; [exact Hns |]. rewrite Hw. cbn [warnings _global_db].
  split.
  - intros [H0 | (Hk & l1 & n & l2 & -> & Hp & Hcase)];
      [apply not_elem_of_nil in H0; contradiction |].
    split; [exact Hk |].
    destruct Hcase as [Hc | (a & Ha & Hpa)]; [discriminate |].
    apply list_elem_of_split in Ha as (l1a & l1b & ->).
    exists l1a, a, l1b, n, l2. rewrite <- app_assoc. auto.
  - intros (Hk & l1 & a & l2 & b & l3 & -> & Ha & Hb).
    right. split; [exact Hk |].
    exists (l1 ++ a :: l2), b, l3. rewrite <- app_assoc. split; [reflexivity |].
    split; [exact Hb |]. right. exists a. split; [| exact Ha].
    apply elem_of_app. right. apply list_elem_of_here.
Qed.

Lemma load_warns_of_duplicates_witness :
  let f := mkcsv ["id"; "itch_id"; "tic_id"]
                 [ ["7.0"; ""; ""]; ["8"; ""; ""]; [""; ""; " 7 "] ] in
  exists g,
    load_csv_database (Some f) = Ok g
    /\ warnings g = [DuplicateGameId "7"]
    /\ exists nrows,
        Forall2 (fun r n => normalize_row r = Ok n) (DictReader f) nrows
        /\ (DuplicateGameId "7" ∈ warnings g <->
            "7" <> ""
            /\ exists l1 a l2 b l3,
                nrows = l1 ++ a :: l2 ++ b :: l3
                /\ get_primary_game_id a = Some "7"
                /\ get_primary_game_id b = Some "7").
Proof.
  intros f.
  assert (H : load_csv_database (Some f)
              = Ok (mkglobals
                      [("7", {[ "id" := ""; "itch_id" := ""; "tic_id" := "7" ]});
                       ("8", {[ "id" := "8"; "itch_id" := ""; "tic_id" := "" ]})]
                      (Some ["id"; "itch_id"; "tic_id"])
                      [DuplicateGameId "7"]))
    by (vm_compute; reflexivity).
  eexists. split; [exact H |]. split; [reflexivity |].
  apply (load_warns_of_duplicates f _ "7" H).
Defined.

(** ** Saving: the columns of the written file *)

Lemma all_present_spec (rows : list (gmap string string)) :
  forall (s : gset string) (c : string),
    c ∈ fold_left (fun s row => s ∪ dom row) rows s
    <-> c ∈ s \/ exists row, row ∈ rows /\ is_Some (row !! c).
Proof.
  induction rows as [|r rows IH]; intros s c; simpl.
  - split; [auto | intros [H | (row & H & _)]; [exact H |]].
    apply not_elem_of_nil in H. contradiction.
  - rewrite IH, elem_of_union, elem_of_dom. split.
    + intros [[H | H] | (row & Hin & Hc)].
      * auto.
      * right. exists r. split; [apply list_elem_of_here | exact H].
      * right. exists row. split; [apply list_elem_of_further, Hin | exact Hc].
    + intros [H | (row & Hin & Hc)]; [auto |].
      apply elem_of_cons in Hin as [-> | Hin]; [auto |].
      right. exists row. auto.
Qed.

(** The loop of lines 75-86 keeps, in the order of the base list, the first
    occurrence of every field that is present, and leaves the others. *)
Lemma keep_present_spec (base : list string) :
  forall (acc : list string) (present : gset string),
    exists kept,
      fold_left
        (fun '(acc, present) field =>
           if decide (field ∈ present)
           then (acc ++ [field], present ∖ {[field]})
           else (acc, present))
        base (acc, present)
      = (acc ++ kept, present ∖ list_to_set base)
      /\ sublist kept base
      /\ NoDup kept
      /\ forall c, c ∈ kept <-> c ∈ base /\ c ∈ present.
Proof.
  induction base as [|field base IH]; intros acc present.
  - exists []. simpl. rewrite app_nil_r, difference_empty_L.
    split; [reflexivity |]. split; [constructor |].
    split; [constructor |]. intros c. split.
    + intros H. apply not_elem_of_nil in H. contradiction.
    + intros [H _]. exact H.
  - cbn [fold_left]. destruct (decide (field ∈ present)) as [Hin | Hout].
    + destruct (IH (acc ++ [field]) (present ∖ {[field]}))
        as (kept & -> & Hsub & Hnd & Hmem).
      exists (field :: kept). rewrite <- app_assoc. simpl.
      rewrite difference_difference_l_L.
      split; [reflexivity |].
      split; [apply sublist_skip, Hsub |].
      split.
      * constructor; [| exact Hnd]. rewrite Hmem. intros [_ H].
        apply elem_of_difference in H as [_ H]. apply H, elem_of_singleton.
        reflexivity.
      * intros c. rewrite !elem_of_cons, Hmem, elem_of_difference, elem_of_singleton.
        destruct (decide (c = field)) as [-> | Hne]; tauto.
    + destruct (IH acc present) as (kept & -> & Hsub & Hnd & Hmem).
      exists kept. split.
      { f_equal. apply leibniz_equiv. intros c.
        rewrite !elem_of_difference, list_to_set_cons, elem_of_union,
          elem_of_singleton.
        split; [| tauto]. intros [Hc Hnb]. split; [exact Hc |].
        intros [-> | Hb]; contradiction. }
      split; [apply sublist_cons, Hsub |].
      split; [exact Hnd |].
      intros c. rewrite Hmem, elem_of_cons. split; [tauto |].
      intros [[-> | Hb] Hc]; [contradiction | tauto].
Qed.

Lemma final_fieldnames_spec
  (base : list string) (database : list (string * gmap string string)) :
  exists kept rest,
    final_fieldnames base database = kept ++ rest
    /\ sublist kept base
    /\ NoDup kept
    /\ NoDup rest
    /\ StronglySorted (fun a b => str_le a b = true) rest
    /\ (forall c, c ∈ kept <->
                  c ∈ base /\ exists row, row ∈ dict_values database /\ is_Some (row !! c))
    /\ (forall c, c ∈ rest <->
                  (c ∉ base) /\ exists row, row ∈ dict_values database /\ is_Some (row !! c)).
Proof.
  unfold final_fieldnames.
  set (present := fold_left (fun s row => s ∪ dom row) (dict_values database) ∅).
  assert (Hpresent : forall c, c ∈ present <->
            exists row, row ∈ dict_values database /\ is_Some (row !! c)).
  { intros c. unfold present. rewrite all_present_spec, elem_of_empty. tauto. }
  destruct (keep_present_spec base [] present) as (kept & -> & Hsub & Hnd & Hmem).
  exists kept, (py_sorted (fun s => s) (elements (present ∖ list_to_set base))).
  pose proof (py_sorted_perm (fun s : string => s)
                (elements (present ∖ list_to_set base))) as Hperm.
  split; [reflexivity |]. split; [exact Hsub |]. split; [exact Hnd |].
  split; [rewrite <- Hperm; apply NoDup_elements |].
  split; [apply (py_sorted_sorted (fun s : string => s)) |].
  split.
  - intros c. rewrite Hmem, Hpresent. reflexivity.
  - intros c. rewrite <- Hperm, elem_of_elements, elem_of_difference,
      elem_of_list_to_set, Hpresent. tauto.
Qed.

Lemma final_fieldnames_facts
  (base : list string) (database : list (string * gmap string string)) :
  let cols := final_fieldnames base database in
  NoDup cols
  /\ (forall c, c ∈ cols <->
                exists row, row ∈ dict_values database /\ is_Some (row !! c))
  /\ exists kept rest,
      cols = kept ++ rest
      /\ sublist kept base
      /\ Forall (fun c => c ∉ base) rest
      /\ StronglySorted (fun a b => str_le a b = true) rest.
Proof.
  intros cols. unfold cols.
  destruct (final_fieldnames_spec base database)
    as (kept & rest & -> & Hsub & Hndk & Hndr & Hsorted & Hk & Hr).
  split; [| split].
  - apply NoDup_app. split; [exact Hndk |]. split; [| exact Hndr].
    intros c Hck Hcr. apply Hk in Hck as [Hb _]. apply Hr in Hcr as [Hnb _].
    contradiction.
  - intros c. rewrite elem_of_app, Hk, Hr.
    destruct (decide (c ∈ base)); tauto.
  - exists kept, rest. split; [reflexivity |]. split; [exact Hsub |].
    split; [| exact Hsorted].
    apply Forall_forall. intros c Hc. apply Hr in Hc as [Hnb _]. exact Hnb.
Qed.

(** X11: the header [save_csv_database] writes lists every column that
    some record of the store has, and no other, each once. The columns of the
    base list (the header remembered from the load, or [DEFAULT_FIELDNAMES])
    come first, in the order of that list; the columns it does not know
    follow in alphabetical order. *)
Theorem final_fieldnames_columns
  (base : list string) (database : list (string * gmap string string)) :
  let cols := final_fieldnames base database in
  NoDup cols
  /\ (forall c, c ∈ cols <->
                exists row, row ∈ dict_values database /\ is_Some (row !! c))
  /\ exists kept rest,
      cols = kept ++ rest
      /\ sublist kept base
      /\ Forall (fun c => c ∉ base) rest
      /\ StronglySorted (fun a b => str_le a b = true) rest.
Proof. exact (final_fieldnames_facts base database). Qed.

(** ** Writing a row and reading it back *)

Lemma fold_insert_combine_map (f : string -> string) (l : list string) :
  forall (m : gmap string string) (c : string),
    fold_left (fun m kv => <[fst kv := snd kv]> m) (combine l (map f l)) m !! c
    = if decide (c ∈ l) then Some (f c) else m !! c.
Proof.
  induction l as [|x l IH]; intros m c.
  - simpl. destruct (decide (c ∈ [])) as [H|]; [| reflexivity].
    apply not_elem_of_nil in H. contradiction.
  - cbn [map combine fold_left fst snd]. rewrite IH.
    destruct (decide (c ∈ l)) as [Hl | Hl].
    + destruct (decide (c ∈ x :: l)) as [|Hn]; [reflexivity |].
      exfalso. apply Hn, list_elem_of_further, Hl.
    + destruct (decide (c = x)) as [-> | Hne].
      * rewrite lookup_insert_eq.
        destruct (decide (x ∈ x :: l)) as [|Hn]; [reflexivity |].
        exfalso. apply Hn, list_elem_of_here.
      * rewrite lookup_insert_ne by congruence.
        destruct (decide (c ∈ x :: l)) as [Hin|]; [| reflexivity].
        apply elem_of_cons in Hin as [? | ?]; contradiction.
Qed.

(** The cells written for a row, read back under the same header, are the
    row again when the header lists exactly the keys of the row. *)
Lemma dict_of_written_cells (header : list string) (row : gmap string string) :
  (forall c, is_Some (row !! c) <-> c ∈ header) ->
  dict_of_cells header (map (fun field => get_default row field "") header) = row.
Proof.
  intros H. apply map_eq. intros c. unfold dict_of_cells.
  rewrite (fold_insert_combine_map (fun field => get_default row field "")).
  destruct (decide (c ∈ header)) as [Hin | Hout].
  - apply H in Hin as [v Hv]. unfold get_default. rewrite Hv. reflexivity.
  - rewrite lookup_empty. symmetry. apply eq_None_not_Some. rewrite H. exact Hout.
Qed.

(** ** Normalizing a normalized row *)

Lemma normalize_field_inv (row n : gmap string string) (c : string) :
  normalize_field row c = Ok n ->
  exists v v', row !! c = Some v /\ normalize_id v = Ok v' /\ n = <[c := v']> row.
Proof.
  unfold normalize_field, getitem. destruct (row !! c) as [v|]; [| discriminate].
  simpl. destruct (normalize_id v) as [v'|] eqn:Hn; [| discriminate]. simpl.
  intros [= <-]. exists v, v'. auto.
Qed.

Lemma normalize_field_fixed (row : gmap string string) (c v : string) :
  row !! c = Some v -> normalize_id v = Ok v -> normalize_field row c = Ok row.
Proof.
  intros Hv Hn. unfold normalize_field, getitem. rewrite Hv. simpl. rewrite Hn.
  simpl. rewrite insert_id by exact Hv. reflexivity.
Qed.

Lemma normalize_row_idempotent (r n : gmap string string) :
  normalize_row r = Ok n -> normalize_row n = Ok n.
Proof.
  unfold normalize_row at 1.
  destruct (normalize_field r "id") as [r1|] eqn:H1; [| discriminate]. simpl.
  destruct (normalize_field r1 "itch_id") as [r2|] eqn:H2; [| discriminate]. simpl.
  intros H3.
  apply normalize_field_inv in H1 as (a & a' & _ & Ha & ->).
  apply normalize_field_inv in H2 as (b & b' & _ & Hb & ->).
  apply normalize_field_inv in H3 as (c & c' & _ & Hc & ->).
  apply normalize_id_idempotent in Ha, Hb, Hc.
  unfold normalize_row.
  rewrite (normalize_field_fixed _ "id" a');
    [| rewrite !lookup_insert_ne by discriminate; apply lookup_insert_eq | exact Ha].
  simpl.
  rewrite (normalize_field_fixed _ "itch_id" b');
    [| rewrite lookup_insert_ne by discriminate; apply lookup_insert_eq | exact Hb].
  simpl.
  apply (normalize_field_fixed _ "tic_id" c'); [apply lookup_insert_eq | exact Hc].
Qed.

Lemma normalize_row_keys (r n : gmap string string) :
  normalize_row r = Ok n ->
  is_Some (r !! "id") /\ forall c, is_Some (n !! c) <-> is_Some (r !! c).
Proof.
  unfold normalize_row.
  destruct (normalize_field r "id") as [r1|] eqn:H1; [| discriminate]. simpl.
  destruct (normalize_field r1 "itch_id") as [r2|] eqn:H2; [| discriminate]. simpl.
  intros H3.
  apply normalize_field_inv in H1 as (a & a' & Ha & _ & ->).
  apply normalize_field_inv in H2 as (b & b' & Hb & _ & ->).
  apply normalize_field_inv in H3 as (c & c' & Hc & _ & ->).
  split; [eauto |]. intros k.
  rewrite lookup_insert_ne in Hb by discriminate.
  rewrite !lookup_insert_ne in Hc by discriminate.
  rewrite !lookup_insert_is_Some.
  split.
  - intros [<- | [_ [<- | [_ [<- | [_ H]]]]]]; eauto.
  - intros H. destruct (decide ("tic_id" = k)); [auto |].
    destruct (decide ("itch_id" = k)); [auto |].
    destruct (decide ("id" = k)); auto 10.
Qed.

(** ** Loading rows with fresh identities *)

Lemma dict_get_fresh {V : Type} (d : list (string * V)) (k : string) :
  k ∉ dict_keys d -> dict_get d k = None.
Proof.
  induction d as [|[k' v'] d IH]; simpl; [reflexivity |].
  intros H. apply not_elem_of_cons in H as [Hne H].
  destruct (String.eqb k k') eqn:E; [apply String.eqb_eq in E; contradiction |].
  apply IH, H.
Qed.

Lemma dict_set_fresh {V : Type} (d : list (string * V)) (k : string) (v : V) :
  k ∉ dict_keys d -> dict_set d k v = d ++ [(k, v)].
Proof.
  induction d as [|[k' v'] d IH]; simpl; [reflexivity |].
  intros H. apply not_elem_of_cons in H as [Hne H].
  destruct (String.eqb k k') eqn:E; [apply String.eqb_eq in E; contradiction |].
  f_equal. apply IH, H.
Qed.

Lemma load_rows_fresh (rows : list (gmap string string)) :
  forall (g : globals) (i : nat),
    Forall (fun r => normalize_row r = Ok r
                     /\ opt_truthy (get_primary_game_id r) = true) rows ->
    NoDup (map store_key rows) ->
    (forall r, r ∈ rows -> store_key r ∉ dict_keys (_global_db g)) ->
    load_rows g i rows
    = Ok (mkglobals (_global_db g ++ map (fun r => (store_key r, r)) rows)
            (_global_fieldnames g) (warnings g)).
Proof.
  induction rows as [|r rows IH]; intros g i Hall Hnd Hfresh.
  - simpl. rewrite app_nil_r. destruct g; reflexivity.
  - apply Forall_cons in Hall as [[Hn Ht] Hall].
    cbn [map] in Hnd. apply NoDup_cons in Hnd as [Hr Hnd].
    cbn [load_rows]. unfold load_row. rewrite Hn. cbn [bind]. rewrite Ht.
    fold (store_key r).
    assert (Hk : store_key r ∉ dict_keys (_global_db g))
      by apply Hfresh, list_elem_of_here.
    unfold dict_contains. rewrite (dict_get_fresh _ _ Hk), app_nil_r.
    rewrite (dict_set_fresh _ _ r Hk). cbn [bind].
    rewrite IH; cbn [_global_db _global_fieldnames warnings].
    + rewrite <- app_assoc. reflexivity.
    + exact Hall.
    + exact Hnd.
    + intros r' Hr'. unfold dict_keys. rewrite map_app, elem_of_app.
      intros [H | H].
      * eapply Hfresh; [apply list_elem_of_further, Hr' | exact H].
      * simpl in H. apply list_elem_of_singleton in H.
        apply Hr. rewrite <- H. apply list_elem_of_fmap. eauto.
Qed.

Lemma filter_all {A : Type} (p : A -> bool) (l : list A) :
  Forall (fun x => p x = true) l -> List.filter p l = l.
Proof.
  induction 1 as [|x l Hx _ IH]; simpl; [reflexivity |].
  rewrite Hx, IH. reflexivity.
Qed.

Lemma dict_get_perm {V : Type} (d1 d2 : list (string * V)) (k : string) :
  NoDup (dict_keys d1) -> NoDup (dict_keys d2) -> d1 ≡ₚ d2 ->
  dict_get d1 k = dict_get d2 k.
Proof.
  intros H1 H2 Hp.
  destruct (dict_get d1 k) as [v|] eqn:E1.
  - symmetry. apply dict_elem_get; [exact H2 |]. rewrite <- Hp.
    apply dict_get_elem, E1.
  - destruct (dict_get d2 k) as [v|] eqn:E2; [| reflexivity].
    apply dict_get_elem in E2. rewrite <- Hp in E2.
    apply (dict_elem_get _ _ _ H1) in E2. congruence.
Qed.

(** A store whose records are normalized, filed under their own non-empty
    identity and have the same columns, written and loaded again. *)
Lemma save_load_core
  (names : option (list string)) (db : list (string * gmap string string))
  (cols : gset string) :
  NoDup (dict_keys db) ->
  (forall k r, (k, r) ∈ db ->
     k <> "" /\ get_primary_game_id r = Some k
     /\ normalize_row r = Ok r /\ dom r = cols) ->
  let w := save_csv_database names db in
  load_csv_database (Some (mkcsv (written_header w) (written_cells w)))
  = Ok (mkglobals (map (fun r => (store_key r, r)) (written_rows w))
          (match written_header w with [] => None | l => Some l end) [])
  /\ map (fun r => (store_key r, r)) (written_rows w) ≡ₚ db.
Proof.
  intros Hnd Hdb w.
  set (header := written_header w). set (rows := written_rows w).
  assert (Hperm : dict_values db ≡ₚ rows) by apply py_sorted_perm.
  assert (Hentry : forall r, r ∈ rows -> (store_key r, r) ∈ db).
  { intros r Hr. rewrite <- Hperm in Hr. unfold dict_values in Hr.
    apply list_elem_of_fmap in Hr as ([k r'] & -> & Hin). simpl.
    destruct (Hdb k r' Hin) as (_ & Hp & _). unfold store_key. rewrite Hp. exact Hin. }
  assert (Hkeys : map store_key (dict_values db) = dict_keys db).
  { unfold dict_values, dict_keys. rewrite map_map. apply map_ext_in.
    intros [k r] Hin. apply list_elem_of_In in Hin. simpl.
    destruct (Hdb k r Hin) as (_ & Hp & _). unfold store_key. rewrite Hp. reflexivity. }
  assert (Hpairs : map (fun r => (store_key r, r)) (dict_values db) = db).
  { unfold dict_values. rewrite map_map. rewrite <- (map_id db) at 2.
    apply map_ext_in. intros [k r] Hin. apply list_elem_of_In in Hin. simpl.
    destruct (Hdb k r Hin) as (_ & Hp & _). unfold store_key. rewrite Hp. reflexivity. }
  assert (Hheader : forall c, c ∈ header <->
            exists row, row ∈ dict_values db /\ is_Some (row !! c)).
  { intros c. unfold header, w, save_csv_database. cbn [written_header].
    match goal with |- context [final_fieldnames ?b db] =>
      destruct (final_fieldnames_spec b db)
        as (kept & rest & -> & _ & _ & _ & _ & Hk & Hr);
      rewrite elem_of_app, Hk, Hr; destruct (decide (c ∈ b)); tauto
    end. }
  assert (Hrowcols : forall r, r ∈ rows -> forall c, is_Some (r !! c) <-> c ∈ header).
  { intros r Hr c. rewrite Hheader. split.
    - intros Hc. exists r. rewrite Hperm. auto.
    - intros (r' & Hr' & Hc). rewrite Hperm in Hr'.
      apply Hentry in Hr, Hr'.
      destruct (Hdb _ _ Hr) as (_ & _ & _ & Hd).
      destruct (Hdb _ _ Hr') as (_ & _ & _ & Hd').
      apply elem_of_dom. rewrite Hd, <- Hd'. apply elem_of_dom, Hc. }
  assert (Hread : DictReader (mkcsv header (written_cells w)) = rows).
  { unfold DictReader, written_cells. cbn [fieldnames records]. fold header rows.
    rewrite filter_all.
    - rewrite map_map. rewrite <- (map_id rows) at 2. apply map_ext_in.
      intros r Hr. apply list_elem_of_In in Hr.
      apply dict_of_written_cells, Hrowcols, Hr.
    - apply Forall_forall. intros cells Hc.
      apply list_elem_of_fmap in Hc as (r & -> & Hr). rewrite length_map.
      assert (Hid : "id" ∈ header).
      { apply (Hrowcols r Hr). apply Hentry in Hr.
        destruct (Hdb _ _ Hr) as (_ & _ & Hn & _).
        apply normalize_row_keys in Hn as [Hid _]. exact Hid. }
      destruct header; [apply not_elem_of_nil in Hid; contradiction | reflexivity]. }
  split.
  - cbn [load_csv_database]. rewrite Hread. cbn [fieldnames]. fold header.
    rewrite load_rows_fresh; [reflexivity | | |].
    + apply Forall_forall. intros r Hr. apply Hentry in Hr.
      destruct (Hdb _ _ Hr) as (Hk & Hp & Hn & _).
      split; [exact Hn |]. rewrite Hp. simpl.
      destruct (store_key r); [contradiction | reflexivity].
    + rewrite <- Hperm, Hkeys. exact Hnd.
    + intros r _. apply not_elem_of_nil.
  - fold rows. rewrite <- Hperm, Hpairs. reflexivity.
Qed.

Lemma loaded_store_rows (f : csv_file) (g : globals) :
  csv_wf f ->
  load_csv_database (Some f) = Ok g ->
  NoDup (dict_keys (_global_db g))
  /\ forall k r, (k, r) ∈ _global_db g ->
       k <> "" /\ get_primary_game_id r = Some k
       /\ normalize_row r = Ok r /\ dom r = list_to_set (fieldnames f).
Proof.
  intros Hwf Hload. cbn [load_csv_database] in Hload.
  destruct (load_rows_spec _ _ _ _ Hload) as (nrows & Hns & Hdb & _ & _).
  cbn [_global_db] in Hdb.
  assert (Hnd : NoDup (dict_keys (_global_db g))).
  { rewrite Hdb. apply fold_store_NoDup, NoDup_nil_2. }
  split; [exact Hnd |]. intros k r Hin.
  apply (dict_elem_get _ _ _ Hnd) in Hin.
  assert (Hk : k <> "").
  { intros ->. rewrite Hdb, fold_store_get_empty in Hin. discriminate. }
  split; [exact Hk |].
  rewrite Hdb, fold_store_get in Hin by exact Hk.
  destruct (last_with_id k nrows) as [r'|] eqn:Hlast; [| discriminate].
  injection Hin as ->. apply last_with_id_Some in Hlast as [Hp Hr].
  split; [exact Hp |].
  apply list_elem_of_lookup in Hr as [i Hi].
  destruct (Forall2_lookup_r _ _ _ _ _ Hns Hi) as (r0 & Hr0 & Hnorm).
  split; [eapply normalize_row_idempotent, Hnorm |].
  apply list_elem_of_lookup_2 in Hr0. unfold DictReader in Hr0.
  apply list_elem_of_fmap in Hr0 as (cells & -> & Hc).
  apply list_elem_of_In, List.filter_In in Hc as [Hc Hnb].
  apply list_elem_of_In in Hc.
  unfold csv_wf in Hwf. rewrite Forall_forall in Hwf.
  destruct (Hwf cells Hc) as [-> | Hlen]; [discriminate |].
  apply normalize_row_keys in Hnorm as [_ Hkeys].
  apply leibniz_equiv. intros c.
  rewrite elem_of_dom, Hkeys, elem_of_list_to_set.
  rewrite <- not_eq_None_Some, (dict_of_cells_lookup_None _ _ _ Hlen).
  destruct (decide (c ∈ fieldnames f)); tauto.
Qed.

(** X12: what a load put in the store survives a save and a new load. When
    the store loaded from a file (whose data rows are blank or as long as the
    header) is saved, loading the written rows gives a store with the same
    record under every identity; it holds the records in the order they were
    written, and the load prints no warning. *)
Theorem save_then_load_restores_store (f : csv_file) (g : globals) :
  csv_wf f ->
  load_csv_database (Some f) = Ok g ->
  let w := save_csv_database (_global_fieldnames g) (_global_db g) in
  exists g',
    load_csv_database (Some (mkcsv (written_header w) (written_cells w))) = Ok g'
    /\ (forall k, dict_get (_global_db g') k = dict_get (_global_db g) k)
    /\ _global_db g' ≡ₚ _global_db g
    /\ dict_values (_global_db g') = written_rows w
    /\ warnings g' = [].
Proof.
  intros Hwf Hload w.
  destruct (loaded_store_rows f g Hwf Hload) as [Hnd Hrows].
  destruct (save_load_core (_global_fieldnames g) (_global_db g)
              (list_to_set (fieldnames f)) Hnd Hrows) as [Hl Hperm].
  fold w in Hl, Hperm.
  eexists. split; [exact Hl |]. cbn [_global_db warnings].
  split; [| split; [exact Hperm | split; [| reflexivity]]].
  - intros k. apply dict_get_perm; [| exact Hnd | exact Hperm].
    unfold dict_keys. rewrite Hperm. exact Hnd.
  - unfold dict_values. rewrite map_map. apply map_id.
Qed.

Lemma save_then_load_restores_store_witness :
  let f := mkcsv ["name_original_reference"; "id"; "itch_id"; "tic_id"]
                 [ ["Maze"; "8.0"; ""; " 8 "]; []; ["Cave"; "7"; ""; "7"] ] in
  let cave : gmap string string :=
    {[ "name_original_reference" := "Cave"; "id" := "7"; "itch_id" := "";
       "tic_id" := "7" ]} in
  let maze : gmap string string :=
    {[ "name_original_reference" := "Maze"; "id" := "8"; "itch_id" := "";
       "tic_id" := "8" ]} in
  let g := mkglobals [("8", maze); ("7", cave)]
             (Some ["name_original_reference"; "id"; "itch_id"; "tic_id"]) [] in
  let w := save_csv_database (_global_fieldnames g) (_global_db g) in
  load_csv_database (Some f) = Ok g
  /\ written_cells w = [ ["Cave"; "7"; ""; "7"]; ["Maze"; "8"; ""; "8"] ]
  /\ exists g',
      load_csv_database (Some (mkcsv (written_header w) (written_cells w))) = Ok g'
      /\ (forall k, dict_get (_global_db g') k = dict_get (_global_db g) k)
      /\ _global_db g' ≡ₚ _global_db g
      /\ dict_values (_global_db g') = written_rows w
      /\ warnings g' = [].
Proof.
  intros f cave maze g w.
  assert (Hload : load_csv_database (Some f) = Ok g) by (vm_compute; reflexivity).
  split; [exact Hload |]. split; [vm_compute; reflexivity |].
  apply (save_then_load_restores_store f g); [| exact Hload].
  unfold csv_wf; simpl. repeat (constructor; [auto |]). constructor.
Defined.

Lemma sublist_same_length {A : Type} (l1 l2 : list A) :
  sublist l1 l2 -> (length l2 <= length l1)%nat -> l1 = l2.
Proof.
  induction 1 as [|x l1 l2 _ IH|x l1 l2 Hs _]; intros Hlen.
  - reflexivity.
  - simpl in Hlen. f_equal. apply IH. lia.
  - apply sublist_length in Hs. simpl in Hlen. lia.
Qed.

Lemma no_elements_nil {A : Type} (l : list A) : (forall x, x ∉ l) -> l = [].
Proof.
  destruct l as [|x l]; [reflexivity |]. intros H.
  exfalso. apply (H x), list_elem_of_here.
Qed.

Lemma py_sorted_of_sorted {A : Type} (key : A -> string) (l : list A) :
  StronglySorted (key_le key) l -> py_sorted key l = l.
Proof.
  induction 1 as [|x l _ IH Hx]; [reflexivity |].
  unfold py_sorted in *. cbn [foldr]. rewrite IH.
  destruct l as [|y r]; [reflexivity |].
  apply Forall_cons in Hx as [Hxy _]. unfold key_le in Hxy.
  cbn [insert_by]. rewrite Hxy. reflexivity.
Qed.

(** The header of a store all of whose columns are known, in a fixed
    order without repetition, is that list of columns. *)
Lemma final_fieldnames_known
  (base : list string) (database : list (string * gmap string string)) :
  NoDup base ->
  (forall c, c ∈ base <->
             exists row, row ∈ dict_values database /\ is_Some (row !! c)) ->
  final_fieldnames base database = base.
Proof.
  intros Hnd Hbase.
  destruct (final_fieldnames_spec base database)
    as (kept & rest & -> & Hsub & _ & _ & _ & Hk & Hr).
  assert (Hrest : rest = []).
  { apply no_elements_nil. intros c Hc. apply Hr in Hc as [Hnb Hc].
    apply Hnb, Hbase, Hc. }
  rewrite Hrest, app_nil_r.
  apply sublist_same_length; [exact Hsub |].
  apply submseteq_length, NoDup_submseteq; [exact Hnd |].
  intros c Hc. apply Hk. split; [exact Hc | apply Hbase, Hc].
Qed.

Lemma final_fieldnames_no_column
  (base : list string) (database : list (string * gmap string string)) :
  (forall row c, row ∈ dict_values database -> row !! c = None) ->
  final_fieldnames base database = [].
Proof.
  intros Hnone.
  destruct (final_fieldnames_spec base database)
    as (kept & rest & -> & _ & _ & _ & _ & Hk & Hr).
  assert (Hno : forall c, ~ exists row, row ∈ dict_values database /\ is_Some (row !! c)).
  { intros c (row & Hrow & [v Hv]). rewrite (Hnone row c Hrow) in Hv. discriminate. }
  rewrite (no_elements_nil kept), (no_elements_nil rest); [reflexivity | |].
  - intros c Hc. apply Hr in Hc as [_ Hc]. exact (Hno c Hc).
  - intros c Hc. apply Hk in Hc as [_ Hc]. exact (Hno c Hc).
Qed.

(** X13: saving is stable. When the rows written by a save of a loaded
    store are loaded and saved again, with nothing changed in between, the
    same header and the same rows are written in the same order. *)
Theorem save_after_reload_writes_the_same (f : csv_file) (g g' : globals) :
  csv_wf f ->
  load_csv_database (Some f) = Ok g ->
  let w := save_csv_database (_global_fieldnames g) (_global_db g) in
  load_csv_database (Some (mkcsv (written_header w) (written_cells w))) = Ok g' ->
  save_csv_database (_global_fieldnames g') (_global_db g') = w.
Proof.
  intros Hwf Hload w Hreload.
  destruct (loaded_store_rows f g Hwf Hload) as [Hnd Hrows].
  destruct (save_load_core (_global_fieldnames g) (_global_db g)
              (list_to_set (fieldnames f)) Hnd Hrows) as [Hl Hperm].
  fold w in Hl, Hperm. rewrite Hl in Hreload. injection Hreload as <-.
  change (save_csv_database
            (match written_header w with [] => None | l => Some l end)
            (map (fun r => (store_key r, r)) (written_rows w)) = w).
  set (db' := map (fun r => (store_key r, r)) (written_rows w)) in *.
  assert (Hvals : dict_values db' = written_rows w).
  { unfold db', dict_values. rewrite map_map. apply map_id. }
  assert (Hcols : forall c, c ∈ written_header w <->
            exists row, row ∈ dict_values db' /\ is_Some (row !! c)).
  { intros c. destruct (final_fieldnames_facts
      (match _global_fieldnames g with
       | None | Some [] => DEFAULT_FIELDNAMES
       | Some names => names
       end) (_global_db g)) as (_ & Hmem & _).
    unfold w at 1, save_csv_database. cbn [written_header]. rewrite Hmem.
    assert (Hp : dict_values (_global_db g) ≡ₚ dict_values db').
    { rewrite Hvals. apply py_sorted_perm. }
    split; intros (row & Hrow & Hc); exists row;
      [rewrite <- Hp | rewrite Hp]; auto. }
  assert (Hndh : NoDup (written_header w)).
  { apply (final_fieldnames_facts
      (match _global_fieldnames g with
       | None | Some [] => DEFAULT_FIELDNAMES
       | Some names => names
       end) (_global_db g)). }
  transitivity (mkwritten (written_header w) (written_rows w)); [| reflexivity].
  unfold save_csv_database at 1. f_equal.
  - clear Hl. revert Hcols Hndh. generalize (written_header w).
    intros [|h t] Hcols Hndh.
    + apply final_fieldnames_no_column. intros row c Hrow.
      destruct (row !! c) as [v|] eqn:Hv; [| reflexivity].
      exfalso. apply (not_elem_of_nil c), Hcols. eauto.
    + apply final_fieldnames_known; assumption.
  - rewrite Hvals. apply py_sorted_of_sorted, (py_sorted_sorted sort_key).
Qed.

Lemma save_after_reload_writes_the_same_witness :
  let f := mkcsv ["name_original_reference"; "id"; "itch_id"; "tic_id"; "id"]
                 [ ["Maze"; "8.0"; ""; " 8 "; "8"]; ["Cave"; "7"; ""; "7"; "7"] ] in
  let cave : gmap string string :=
    {[ "name_original_reference" := "Cave"; "id" := "7"; "itch_id" := "";
       "tic_id" := "7" ]} in
  let maze : gmap string string :=
    {[ "name_original_reference" := "Maze"; "id" := "8"; "itch_id" := "";
       "tic_id" := "8" ]} in
  let w := mkwritten ["name_original_reference"; "id"; "itch_id"; "tic_id"]
                     [cave; maze] in
  let g' := mkglobals [("7", cave); ("8", maze)]
              (Some ["name_original_reference"; "id"; "itch_id"; "tic_id"]) [] in
  load_csv_database (Some (mkcsv (written_header w) (written_cells w))) = Ok g'
  /\ save_csv_database (_global_fieldnames g') (_global_db g') = w.
Proof.
  intros f cave maze w g'.
  assert (Hload : load_csv_database (Some f)
                  = Ok (mkglobals [("8", maze); ("7", cave)] (Some (fieldnames f)) []))
    by (vm_compute; reflexivity).
  assert (Hre : load_csv_database (Some (mkcsv (written_header w) (written_cells w)))
                = Ok g') by (vm_compute; reflexivity).
  split; [exact Hre |].
  refine (save_after_reload_writes_the_same f _ g' _ Hload _).
  - unfold csv_wf; simpl. repeat (constructor; [auto |]). constructor.
  - exact Hre.
Defined.

(** ** [sanitize_game_title_name] *)

Lemma upper_alpha_facts (c : ascii) :
  is_alpha c = true ->
  is_alpha (upper_char c) = true
  /\ upper_char (upper_char c) = upper_char c
  /\ isspace (upper_char c) = false
  /\ Ascii.eqb (upper_char c) "_" = false
  /\ Ascii.eqb (upper_char c) (ascii_of_N 34) = false.
Proof.
  destruct c as [[] [] [] [] [] [] [] []]; vm_compute; intros H;
    try discriminate; repeat split.
Qed.

Lemma not_alpha_space (c : ascii) : isspace c = true -> is_alpha c = false.
Proof.
  destruct c as [[] [] [] [] [] [] [] []]; vm_compute; intros H;
    try discriminate; reflexivity.
Qed.

Lemma upper_first_alpha_idempotent (s : string) :
  upper_first_alpha (upper_first_alpha s) = upper_first_alpha s.
Proof.
  induction s as [|c r IH]; [reflexivity |].
  cbn [upper_first_alpha]. destruct (is_alpha c) eqn:Hc.
  - destruct (upper_alpha_facts c Hc) as (Ha & Hu & _).
    cbn [upper_first_alpha]. rewrite Ha, Hu. reflexivity.
  - cbn [upper_first_alpha]. rewrite Hc, IH. reflexivity.
Qed.

Lemma upper_first_alpha_chars (P : ascii -> Prop) (s : string) :
  (forall c, is_alpha c = true -> P (upper_char c)) ->
  Forall P (list_ascii_of_string s) ->
  Forall P (list_ascii_of_string (upper_first_alpha s)).
Proof.
  intros Hup. induction s as [|c r IH]; intros H; [constructor |].
  cbn [list_ascii_of_string] in H. apply Forall_cons in H as [Hc Hr].
  cbn [upper_first_alpha]. destruct (is_alpha c) eqn:Ha;
    cbn [list_ascii_of_string]; constructor; auto.
Qed.

(** On a word followed by more text, the letter made upper-case is in the
    word, or the word is left as it is and the letter is looked for in the
    rest. *)
Lemma upper_first_alpha_app (w rest : string) :
  (exists w', upper_first_alpha (w +:+ rest) = w' +:+ rest
              /\ (Forall (fun c => isspace c = false) (list_ascii_of_string w) ->
                  Forall (fun c => isspace c = false) (list_ascii_of_string w'))
              /\ (w <> "" -> w' <> ""))
  \/ upper_first_alpha (w +:+ rest) = w +:+ upper_first_alpha rest.
Proof.
  induction w as [|c w IH]; [right; reflexivity |].
  rewrite app_cons. cbn [upper_first_alpha]. destruct (is_alpha c) eqn:Ha.
  - left. exists (String (upper_char c) w). split; [reflexivity |].
    split; [| discriminate].
    intros Hw. cbn [list_ascii_of_string] in *. apply Forall_cons in Hw as [_ Hw].
    constructor; [apply upper_alpha_facts, Ha | exact Hw].
  - destruct IH as [(w' & -> & Hw' & _) | ->].
    + left. exists (String c w'). split; [reflexivity |].
      split; [| discriminate].
      intros Hw. cbn [list_ascii_of_string] in *.
      apply Forall_cons in Hw as [Hc Hw]. constructor; auto.
    + right. reflexivity.
Qed.

Lemma upper_first_alpha_words (l : list string) :
  Forall word l ->
  exists l', Forall word l'
             /\ upper_first_alpha (str_join " " l) = str_join " " l'.
Proof.
  unfold str_join. induction l as [|w l IH]; intros H.
  - exists []. split; [constructor | reflexivity].
  - apply Forall_cons in H as [[Hne Hw] Hl]. destruct l as [|w2 l2].
    + cbn [String.concat].
      destruct (upper_first_alpha_app w "") as [(w' & Hu & Hns & Hne') | Hu];
        rewrite !string_app_nil_r in Hu.
      * exists [w']. split; [| exact Hu].
        constructor; [split; auto | constructor].
      * exists [w]. split; [constructor; [split; auto | constructor] | exact Hu].
    + change (String.concat " " (w :: w2 :: l2))
        with (w +:+ String " " (String.concat " " (w2 :: l2))).
      destruct (upper_first_alpha_app w (String " " (String.concat " " (w2 :: l2))))
        as [(w' & Hu & Hns & Hne') | Hu]; rewrite Hu.
      * exists (w' :: w2 :: l2). split; [| reflexivity].
        constructor; [split; auto | exact Hl].
      * destruct (IH Hl) as (l' & Hl' & Heq).
        cbn [upper_first_alpha]. change (is_alpha " ") with false. cbv iota.
        rewrite Heq. destruct l' as [|w3 l3].
        -- (* the rest cannot vanish *)
           exfalso. cbn [String.concat] in Heq.
           destruct w2 as [|d w2]; [destruct (Forall_inv Hl) as [Hw2 _]; contradiction |].
           destruct l2; cbn [String.concat] in Heq; rewrite ?app_cons in Heq;
             cbn [upper_first_alpha] in Heq; destruct (is_alpha d); discriminate.
        -- exists (w :: w3 :: l3). split; [| reflexivity].
           constructor; [split; auto | exact Hl'].
Qed.

(** X15: a sanitized title holds no underscore and no double quote, its
    words are separated by single spaces with none at the ends, and its
    first letter, if it has one, is not a lower-case letter. *)
Theorem sanitize_game_title_name_clean (name : string) :
  let out := sanitize_game_title_name name in
  mem_char "_" out = false
  /\ mem_char (ascii_of_N 34) out = false
  /\ str_join " " (str_split out) = out
  /\ upper_first_alpha out = out.
Proof.
  intros out. unfold out, sanitize_game_title_name.
  set (n0 := if endswith (lower name) ".tic" then drop_last_n 4 name else name).
  set (n1 := str_replace n0 "_" " ").
  set (n2 := str_replace
               (str_replace (str_replace (str_replace n1 "&amp;" "&") "&#34;" "'")
                  "&#39;" "'")
               (String (ascii_of_N 34) EmptyString) "'").
  assert (H1 : Forall (fun c => Ascii.eqb c "_" = false) (list_ascii_of_string n1)).
  { apply mem_char_Forall. unfold n1. rewrite replace_char.
    induction n0 as [|c r IH]; [reflexivity |].
    cbn [concat_map_string]. rewrite mem_char_app, IH, orb_false_r.
    destruct (Ascii.eqb c "_") eqn:E; [reflexivity |].
    cbn [mem_char]. rewrite Ascii.eqb_sym, E. reflexivity. }
  assert (H2 : Forall (fun c => Ascii.eqb c "_" = false
                                /\ Ascii.eqb c (ascii_of_N 34) = false)
                      (list_ascii_of_string n2)).
  { apply Forall_and. split.
    - unfold n2. do 4 (apply str_replace_chars;
        [discriminate | repeat constructor |]). exact H1.
    - apply mem_char_Forall. unfold n2. rewrite replace_char.
      generalize (str_replace (str_replace (str_replace n1 "&amp;" "&") "&#34;" "'")
                    "&#39;" "'").
      intros s. induction s as [|c r IH]; [reflexivity |].
      cbn [concat_map_string]. rewrite mem_char_app, IH, orb_false_r.
      destruct (Ascii.eqb c (ascii_of_N 34)) eqn:E; [reflexivity |].
      cbn [mem_char]. rewrite Ascii.eqb_sym, E. reflexivity. }
  assert (H3 : Forall (fun c => Ascii.eqb c "_" = false
                                /\ Ascii.eqb c (ascii_of_N 34) = false)
                 (list_ascii_of_string (str_join " " (str_split n2)))).
  { apply join_chars; [split; reflexivity |].
    apply split_from_chars; [constructor | exact H2]. }
  assert (H4 : Forall (fun c => Ascii.eqb c "_" = false
                                /\ Ascii.eqb c (ascii_of_N 34) = false)
                 (list_ascii_of_string
                    (upper_first_alpha (str_join " " (str_split n2))))).
  { apply upper_first_alpha_chars; [| exact H3].
    intros c Hc. split; apply upper_alpha_facts, Hc. }
  apply Forall_and in H4 as [Hu Hq].
  split; [apply mem_char_Forall, Hu |].
  split; [apply mem_char_Forall, Hq |].
  split; [| apply upper_first_alpha_idempotent].
  destruct (upper_first_alpha_words (str_split n2)) as (l' & Hl' & ->).
  { apply split_from_words. constructor. }
  rewrite split_join_words by exact Hl'. reflexivity.
Qed.

(** ** [parse_raw_headers] *)

Lemma partition_char_spec (sep : ascii) (s a b : string) :
  partition_char sep s = Some (a, b) ->
  mem_char sep a = false /\ s = a +:+ String sep b.
Proof.
  revert a. induction s as [|c r IH]; intros a; [discriminate |].
  cbn [partition_char]. destruct (Ascii.eqb c sep) eqn:E.
  - intros [= <- <-]. apply Ascii.eqb_eq in E. subst c. split; reflexivity.
  - destruct (partition_char sep r) as [[a' b']|]; [| discriminate].
    intros [= <- <-]. destruct (IH a' eq_refl) as [Hm ->].
    split; [| reflexivity]. cbn [mem_char].
    rewrite Ascii.eqb_sym, E, Hm. reflexivity.
Qed.

Lemma lstrip_by_app (sp : ascii -> bool) (a b : string) :
  lstrip_by sp a <> "" -> lstrip_by sp (a +:+ b) = lstrip_by sp a +:+ b.
Proof.
  induction a as [|c a IH]; [contradiction |].
  rewrite app_cons. cbn [lstrip_by]. destruct (sp c); [exact IH |].
  intros _. rewrite app_cons. reflexivity.
Qed.

Lemma rstrip_by_first (sp : ascii -> bool) (s : string) (c : ascii) (r : string) :
  rstrip_by sp s = String c r -> exists r', s = String c r'.
Proof.
  destruct s as [|d s]; [discriminate |]. cbn [rstrip_by].
  destruct (sp d && negb (str_truthy (rstrip_by sp s))); [discriminate |].
  intros [= -> _]. eauto.
Qed.

Lemma rstrip_by_keeps_first (sp : ascii -> bool) (c : ascii) (r : string) :
  sp c = false -> rstrip_by sp (String c r) = String c (rstrip_by sp r).
Proof. intros H. cbn [rstrip_by]. rewrite H. reflexivity. Qed.

(** A line whose name starts with the comment sign starts with it. *)
Lemma comment_key_comment_line (key rest : string) :
  startswith (strip key) "#" = true -> startswith (strip (key +:+ rest)) "#" = true.
Proof.
  unfold startswith, strip, strip_by. intros H.
  destruct (rstrip_by isspace (lstrip_by isspace key)) as [|c r] eqn:E;
    [discriminate |].
  rewrite prefix_cons, prefix_empty, andb_true_r in H. apply Ascii.eqb_eq in H.
  subst c. apply rstrip_by_first in E as [r' E].
  rewrite lstrip_by_app by (rewrite E; discriminate).
  rewrite E, app_cons, rstrip_by_keeps_first by reflexivity.
  rewrite prefix_cons, prefix_empty. reflexivity.
Qed.

Lemma parse_raw_headers_fold (lines : list string) :
  forall (m : gmap string string) (k v : string),
    fold_left
      (fun (headers : gmap string string) line =>
         if startswith (strip line) "#" then headers
         else match partition_char ":" line with
              | Some (key, value) => <[strip key := strip value]> headers
              | None => headers
              end)
      lines m !! k = Some v ->
    m !! k = Some v
    \/ exists line key value,
         line ∈ lines
         /\ startswith (strip line) "#" = false
         /\ partition_char ":" line = Some (key, value)
         /\ k = strip key /\ v = strip value.
Proof.
  induction lines as [|line lines IH]; intros m k v; cbn [fold_left]; [auto |].
  intros H. apply IH in H as [H | (l & key & value & Hin & Hrest)].
  - destruct (startswith (strip line) "#") eqn:Hc; [auto |].
    destruct (partition_char ":" line) as [[key value]|] eqn:Hp; [| auto].
    destruct (decide (k = strip key)) as [-> | Hne].
    + rewrite lookup_insert_eq in H. injection H as <-.
      right. exists line, key, value. split; [apply list_elem_of_here | auto].
    + rewrite lookup_insert_ne in H by congruence. auto.
  - right. exists l, key, value. split; [apply list_elem_of_further, Hin | exact Hrest].
Qed.

(** X16: every header [parse_raw_headers] returns comes from a line of the
    text that has a colon and does not start with the comment sign: the name
    is what stands before the first colon and the value what stands after
    it, both trimmed. So a name has no colon, a name does not start with the
    comment sign, and neither names nor values have white space around
    them. *)
Theorem parse_raw_headers_entries (raw_headers_str k v : string) :
  parse_raw_headers raw_headers_str !! k = Some v ->
  (exists line key value,
      line ∈ split_char "010" (strip raw_headers_str)
      /\ startswith (strip line) "#" = false
      /\ partition_char ":" line = Some (key, value)
      /\ k = strip key /\ v = strip value)
  /\ strip k = k /\ strip v = v
  /\ mem_char ":" k = false
  /\ startswith k "#" = false.
Proof.
  unfold parse_raw_headers.
  destruct (negb (str_truthy (strip raw_headers_str)));
    [rewrite lookup_empty; discriminate |].
  intros H. apply parse_raw_headers_fold in H as [H | (line & key & value & Hin & Hc & Hp & -> & ->)];
    [rewrite lookup_empty in H; discriminate |].
  split; [exists line, key, value; auto |].
  split; [apply strip_by_idempotent |]. split; [apply strip_by_idempotent |].
  apply partition_char_spec in Hp as [Hm ->].
  split.
  - apply mem_char_Forall, strip_chars, mem_char_Forall, Hm.
  - destruct (startswith (strip key) "#") eqn:E; [| reflexivity].
    rewrite (comment_key_comment_line key _ E) in Hc. discriminate.
Qed.

Lemma parse_raw_headers_entries_witness :
  let raw := String.concat (String "010" "")
               ["Accept: text/html"; "# Cookie: none"; " Host : a:b "] in
  parse_raw_headers raw !! "Host" = Some "a:b"
  /\ parse_raw_headers raw !! "# Cookie" = None
  /\ mem_char ":" "Host" = false.
Proof.
  intros raw.
  assert (H : parse_raw_headers raw !! "Host" = Some "a:b") by (vm_compute; reflexivity).
  split; [exact H |]. split; [vm_compute; reflexivity |].
  apply (parse_raw_headers_entries raw "Host" "a:b" H).
Defined.

(** ** [ts_to_parts] *)

Lemma civil_year_range (days : Z) :
  -719162 <= days <= 2932896 ->
  1 <= year (civil_from_days days) <= 9999.
Proof.
  intros H. unfold civil_from_days. cbn [year].
  remember (days + 719468) as z eqn:Ez.
  remember (z / 146097) as era eqn:Eera.
  remember (z - era * 146097) as doe eqn:Edoe.
  remember ((doe - doe / 1460 + doe / 36524 - doe / 146096) / 365) as yoe eqn:Eyoe.
  remember (doe - (365 * yoe + yoe / 4 - yoe / 100)) as doy eqn:Edoy.
  remember ((5 * doy + 2) / 153) as mp eqn:Emp.
  assert (Hz : 306 <= z <= 3652364) by lia.
  assert (Hera : 0 <= era <= 24 /\ 0 <= doe < 146097).
  { subst era doe. Z.div_mod_to_equations. lia. }
  destruct Hera as [Hera Hdoe].
  assert (Hyoe : 0 <= yoe <= 399).
  { subst yoe. clear - Hdoe. Z.div_mod_to_equations. lia. }
  assert (Hdoy : 0 <= doy <= 365).
  { subst doy yoe. clear - Hdoe. Z.div_mod_to_equations. lia. }
  assert (Hmpr : 0 <= mp <= 11).
  { subst mp. clear - Hdoy. Z.div_mod_to_equations. lia. }
  destruct (mp <? 10) eqn:Hmp.
  - apply Z.ltb_lt in Hmp.
    destruct (mp + 3 <=? 2) eqn:Hm; [apply Z.leb_le in Hm; lia |].
    split; [| lia].
    destruct (Z.eq_dec era 0) as [He|He]; [| lia].
    assert (1 <= yoe); [| lia].
    assert (Hdz : doe = z) by lia.
    assert (Hdoe' : 306 <= doe) by lia.
    destruct (Z.eq_dec yoe 0) as [Hy|Hy]; [| lia].
    exfalso. assert (doy = doe) by (rewrite Edoy, Hy; change (0 / 4) with 0; change (0 / 100) with 0; lia).
    assert (doy <= 305). { subst mp. clear - Hmp. Z.div_mod_to_equations. lia. }
    lia.
  - apply Z.ltb_ge in Hmp.
    destruct (mp - 9 <=? 2) eqn:Hm; [| apply Z.leb_gt in Hm; lia].
    split; [lia |].
    destruct (Z.eq_dec era 24) as [He|He]; [| lia].
    assert (yoe <= 398); [| lia].
    assert (Hd : doe <= 146036) by lia.
    destruct (Z.eq_dec yoe 399) as [Hy|Hy]; [| lia].
    exfalso.
    assert (doy = doe - 145731)
      by (rewrite Edoy, Hy; change (399 / 4) with 99; change (399 / 100) with 3; lia).
    assert (306 <= doy). { subst mp. clear - Hmp. Z.div_mod_to_equations. lia. }
    lia.
Qed.


(** ** Integers read by [int] and by [float] *)

Lemma take_sign_cases (l : list ascii) :
  (exists r, l = "-"%char :: r /\ take_sign l = (true, r))
  \/ (exists r, l = "+"%char :: r /\ take_sign l = (false, r))
  \/ (take_sign l = (false, l)
      /\ forall c r, l = c :: r -> Ascii.eqb c "-" = false /\ Ascii.eqb c "+" = false).
Proof.
  destruct l as [|c r].
  - right. right. split; [reflexivity |]. intros c r H. discriminate.
  - destruct c as [[] [] [] [] [] [] [] []];
      try (right; right; split; [reflexivity |];
           intros c' r' [= <- <-]; split; reflexivity);
      [right; left | left]; eauto.
Qed.

Lemma int_digits_underscores (l : list ascii) :
  forall p, int_digits_ok (Some p) l = true -> underscores_ok (Some p) l = true.
Proof.
  induction l as [|c r IH]; intros p.
  - destruct p as [[] [] [] [] [] [] [] []]; simpl; auto.
  - cbn [int_digits_ok underscores_ok]. intros H.
    apply andb_true_iff in H as [Hc Hr]. rewrite (IH c Hr), andb_true_r.
    destruct (Ascii.eqb c "_"); [exact Hc |]. rewrite Hc. apply orb_true_r.
Qed.

Lemma int_digits_head (l : list ascii) :
  int_digits_ok None l = true ->
  exists c r, l = c :: r /\ is_digit c = true /\ int_digits_ok (Some c) r = true.
Proof.
  destruct l as [|c r]; [discriminate |]. cbn [int_digits_ok].
  intros H. apply andb_true_iff in H as [Hc Hr].
  destruct (Ascii.eqb c "_"); [discriminate |]. eauto.
Qed.

Lemma int_digits_dropped (l : list ascii) :
  forall prev, int_digits_ok prev l = true ->
               Forall (fun c => is_digit c = true) (drop_underscores l).
Proof.
  unfold drop_underscores.
  induction l as [|c r IH]; intros prev H; [constructor |].
  cbn [int_digits_ok] in H. apply andb_true_iff in H as [Hc Hr].
  cbn [List.filter]. destruct (Ascii.eqb c "_"); cbn [negb].
  - eapply IH, Hr.
  - constructor; [exact Hc | eapply IH, Hr].
Qed.

(** A string that [int] reads is read by [float] as the same number. *)
Lemma py_float_of_int_string (ts : string) (n : Z) :
  py_int_of_string ts = Ok n ->
  ts <> ""
  /\ exists (neg : bool) (N : N),
      n = (if neg then - Z.of_N N else Z.of_N N)
      /\ py_float ts = Ok (float_of_decimal neg N 0).
Proof.
  intros H. split; [intros ->; discriminate |]. revert H.
  unfold py_int_of_string, py_float.
  set (body := list_ascii_of_string (strip_by c_isspace ts)).
  destruct (take_sign body) as [neg rest] eqn:Hsign.
  destruct (int_digits_ok None rest) eqn:Hok; [| discriminate].
  destruct (length (drop_underscores rest) <=? 4300)%nat; [| discriminate].
  cbn [andb]. intros [= <-].
  exists neg, (digits_value (drop_underscores rest)). split; [reflexivity |].
  destruct (int_digits_head rest Hok) as (c & r & Hrest & Hc & Hr).
  pose proof (int_digits_dropped rest None Hok) as Hd.
  pose proof (digit_facts c Hc) as (_ & _ & Hund & Hminus & Hplus & _ & Hlow & Hi & Hn).
  assert (Hu : forall q, underscores_ok (Some q) rest = true).
  { intros q. rewrite Hrest. cbn [underscores_ok]. rewrite Hund, Hc, orb_true_r.
    apply int_digits_underscores, Hr. }
  assert (Hdrop : drop_underscores rest = c :: drop_underscores r).
  { rewrite Hrest. unfold drop_underscores. cbn [List.filter]. rewrite Hund.
    reflexivity. }
  assert (Hbody : underscores_ok None body = true
                  /\ take_sign (drop_underscores body) = (neg, drop_underscores rest)).
  { destruct (take_sign_cases body) as [(r0 & Hb & Ht) | [(r0 & Hb & Ht) | [Ht _]]];
      rewrite Ht in Hsign; injection Hsign as <- <-.
    - rewrite Hb. split.
      + change (underscores_ok None ("-"%char :: r0))
          with (underscores_ok (Some "-"%char) r0). apply Hu.
      + change (drop_underscores ("-"%char :: r0))
          with ("-"%char :: drop_underscores r0). reflexivity.
    - rewrite Hb. split.
      + change (underscores_ok None ("+"%char :: r0))
          with (underscores_ok (Some "+"%char) r0). apply Hu.
      + change (drop_underscores ("+"%char :: r0))
          with ("+"%char :: drop_underscores r0). reflexivity.
    - split.
      + rewrite Hrest. cbn [underscores_ok]. rewrite Hund, Hc.
        apply int_digits_underscores, Hr.
      + rewrite Hdrop.
        destruct (take_sign_cases (c :: drop_underscores r))
          as [(r0 & [= -> _] & _) | [(r0 & [= -> _] & _) | [Ht' _]]];
          [discriminate | discriminate | exact Ht']. }
  destruct Hbody as [-> ->]. cbn [negb].
  assert (Hword : forall w, String.eqb (lower (string_of_list_ascii (drop_underscores rest))) w
                            = match w with
                              | String a w' => Ascii.eqb c a
                                               && String.eqb (lower (string_of_list_ascii (drop_underscores r))) w'
                              | EmptyString => false
                              end).
  { intros w. rewrite Hdrop. cbn [string_of_list_ascii lower map_string].
    fold (lower (string_of_list_ascii (drop_underscores r))).
    rewrite Hlow. destruct w; reflexivity. }
  rewrite !Hword, Hi, Hn. cbn [andb orb].
  rewrite parse_decimal_digits; [| rewrite Hdrop; discriminate | exact Hd].
  reflexivity.
Qed.

(** ** An integer timestamp as a float *)

(** An integer of at most 53 bits is a float exactly. *)
Lemma binary_round_small_integer (s : bool) (N : positive) :
  Z.pos (digits2_pos N) <= 53 ->
  exists q e,
    binary_round prec emax s N 0 = S754_finite s q e
    /\ e <= 0 /\ Z.pos q = Z.pos N * 2 ^ (- e).
Proof.
  intros Hm. unfold binary_round.
  assert (Hf : fexp prec emax (Z.pos (digits2_pos N) + 0) = Z.pos (digits2_pos N) - 53)
    by (rewrite fexp_eq; lia).
  rewrite Hf. unfold shl_align.
  destruct (Z.pos (digits2_pos N) - 53 - 0) as [|t|t] eqn:Ht.
  - cbv iota beta.
    pose proof (binary_round_aux_exact s N 0 0) as Hex.
    change (Nat.iter 0 xO N) with N in Hex. rewrite Hex by lia.
    exists N, (0 + Z.of_nat 0). split; [reflexivity |]. simpl. lia.
  - lia.
  - cbv iota beta.
    rewrite Pos2Nat.inj_iter.
    set (t' := Pos.to_nat t).
    pose proof (binary_round_aux_exact s (Nat.iter t' xO N) 0
                  (Z.pos (digits2_pos N) - 53)) as Hex.
    change (Nat.iter 0 xO ?x) with x in Hex.
    change (nat_rect _ N _ t') with (Nat.iter t' xO N). rewrite Hex;
      [| rewrite digits2_iter_xO; unfold t'; lia | lia].
    eexists _, _. split; [reflexivity |]. split; [lia |].
    rewrite Zpos_iter_xO. f_equal. f_equal. unfold t'. lia.
Qed.

Lemma timestamp_seconds_exact (s : bool) (q : positive) (e : Z) (N : positive) :
  e <= 0 -> Z.pos q = Z.pos N * 2 ^ (- e) -> Z.pos N < 2 ^ 63 ->
  timestamp_seconds (S754_finite s q e)
  = Ok (if s then Z.neg N else Z.pos N).
Proof.
  intros He Hq HN. cbn [timestamp_seconds].
  assert (Hp : 0 < 2 ^ (- e)) by (apply Z.pow_pos_nonneg; lia).
  assert (Hint : (if 0 <=? e then (if s then Z.neg q else Z.pos q) * 2 ^ e
                  else Z.quot (if s then Z.neg q else Z.pos q) (2 ^ (- e)))
                 = if s then Z.neg N else Z.pos N).
  { destruct (0 <=? e) eqn:Hle.
    - apply Z.leb_le in Hle. assert (e = 0) by lia. subst e.
      change (- 0) with 0 in Hq. rewrite Z.pow_0_r, Z.mul_1_r in *.
      injection Hq as ->. reflexivity.
    - destruct s; rewrite <- ?Pos2Z.opp_pos, Hq, <- ?Z.mul_opp_l, Z.quot_mul by lia;
        reflexivity. }
  assert (Hfrac : (if 0 <=? e then 0
                   else Z.rem (if s then Z.neg q else Z.pos q) (2 ^ (- e))) = 0).
  { destruct (0 <=? e); [reflexivity |].
    destruct s; rewrite <- ?Pos2Z.opp_pos, Hq, <- ?Z.mul_opp_l, Z.rem_mul by lia;
      reflexivity. }
  rewrite Hint, Hfrac. change (0 * 1000000) with 0.
  change (round_half_even (float_of_Z_pow2 0 e false)) with 0.
  cbv iota. change (1000000 <=? 0) with false. change (0 <? 0) with false. cbv iota.
  assert (Hr : (- 2 ^ 63 <=? (if s then Z.neg N else Z.pos N))
               && ((if s then Z.neg N else Z.pos N) <? 2 ^ 63) = true).
  { apply andb_true_iff. split; [apply Z.leb_le | apply Z.ltb_lt]; destruct s; lia. }
  rewrite Hr. reflexivity.
Qed.

(** The float of an integer below [2^53] has that integer for its seconds. *)
Lemma timestamp_seconds_of_integer (neg : bool) (N : N) :
  Z.of_N N < 2 ^ 53 ->
  timestamp_seconds (float_of_decimal neg N 0)
  = Ok (if neg then - Z.of_N N else Z.of_N N).
Proof.
  intros HN. destruct N as [|p]; [destruct neg; reflexivity |].
  assert (Hd : Z.pos (digits2_pos p) <= 53).
  { rewrite Zdigits2_log2.
    assert (Z.log2 (Z.pos p) < 53) by (apply Z.log2_lt_pow2; lia). lia. }
  unfold float_of_decimal, float_of_Z_pow2.
  change (N.pos p =? 0)%N with false. cbv iota. change (0 <=? 0) with true. cbv iota.
  change (10 ^ 0) with 1. rewrite Z.mul_1_r.
  destruct neg.
  - change (- Z.of_N (N.pos p)) with (Z.neg p).
    change (binary_normalize prec emax (Z.neg p) 0 true)
      with (binary_round prec emax true p 0).
    destruct (binary_round_small_integer true p Hd) as (q & e & -> & He & Hq).
    apply (timestamp_seconds_exact true q e p He Hq). simpl in HN. lia.
  - change (Z.of_N (N.pos p)) with (Z.pos p).
    change (binary_normalize prec emax (Z.pos p) 0 false)
      with (binary_round prec emax false p 0).
    destruct (binary_round_small_integer false p Hd) as (q & e & -> & He & Hq).
    apply (timestamp_seconds_exact false q e p He Hq). simpl in HN. lia.
Qed.

(** X17: for a timestamp string that [int] reads as a number of seconds
    in the years 1000 to 9999, [ts_to_parts] gives the UTC date and time of
    that instant, and the date is the one the filename generator renders for
    the same string when the process runs in UTC. *)
Theorem ts_to_parts_is_utc_date (ts : string) (n : Z) :
  py_int_of_string ts = Ok n ->
  -30610224000 <= n <= 253402300799 ->
  ts_to_parts ts
  = (strftime_ymd (civil_from_days (n / 86400)),
     zero_pad 2 (n mod 86400 / 3600) +:+ ":" +:+ zero_pad 2 (n mod 3600 / 60))
  /\ exists f,
      py_float ts = Ok f
      /\ render utc f = Ok (fst (ts_to_parts ts)).
Proof.
  intros Hint Hrange.
  destruct (py_float_of_int_string ts n Hint) as (Hne & neg & N & Hn & Hf).
  assert (Hyear : 1 <= year (civil_from_days (n / 86400)) <= 9999).
  { apply civil_year_range. Z.div_mod_to_equations. lia. }
  assert (Hprev : 1 <= year (civil_from_days ((n - 86400) / 86400)) <= 9999).
  { apply civil_year_range. Z.div_mod_to_equations. lia. }
  assert (Hparts : ts_to_parts ts
    = (strftime_ymd (civil_from_days (n / 86400)),
       zero_pad 2 (n mod 86400 / 3600) +:+ ":" +:+ zero_pad 2 (n mod 3600 / 60))).
  { unfold ts_to_parts. apply str_truthy_true in Hne. rewrite Hne, Hint.
    cbn [negb bind]. unfold fromtimestamp_utc, year_ok.
    assert (H1 : (- 2 ^ 63 <=? n) && (n <? 2 ^ 63) = true)
      by (apply andb_true_iff; split; [apply Z.leb_le | apply Z.ltb_lt]; lia).
    assert (H2 : (- 2 ^ 31 <=? year (civil_from_days (n / 86400)) - 1900)
                 && (year (civil_from_days (n / 86400)) - 1900 <? 2 ^ 31) = true)
      by (apply andb_true_iff; split; [apply Z.leb_le | apply Z.ltb_lt]; lia).
    assert (H3 : (1 <=? year (civil_from_days (n / 86400)))
                 && (year (civil_from_days (n / 86400)) <=? 9999) = true)
      by (apply andb_true_iff; split; apply Z.leb_le; lia).
    rewrite H1, H2, H3. reflexivity. }
  split; [exact Hparts |].
  exists (float_of_decimal neg N 0). split; [exact Hf |].
  rewrite Hparts. cbn [fst]. unfold render, fromtimestamp.
  rewrite timestamp_seconds_of_integer, <- Hn by (destruct neg; lia).
  cbn [bind]. unfold local_date, utc, year_ok. rewrite !Z.add_0_r.
  assert (H2 : (- 2 ^ 31 <=? year (civil_from_days (n / 86400)) - 1900)
               && (year (civil_from_days (n / 86400)) - 1900 <? 2 ^ 31) = true)
    by (apply andb_true_iff; split; [apply Z.leb_le | apply Z.ltb_lt]; lia).
  assert (H3 : (1 <=? year (civil_from_days (n / 86400)))
               && (year (civil_from_days (n / 86400)) <=? 9999) = true)
    by (apply andb_true_iff; split; apply Z.leb_le; lia).
  assert (H4 : (1 <=? year (civil_from_days ((n - 86400) / 86400)))
               && (year (civil_from_days ((n - 86400) / 86400)) <=? 9999) = true)
    by (apply andb_true_iff; split; apply Z.leb_le; lia).
  rewrite H2, H3, H4. reflexivity.
Qed.

Lemma ts_to_parts_is_utc_date_witness :
  ts_to_parts " 1_700_000_000 " = ("2023-11-14", "22:13")
  /\ exists f,
      py_float " 1_700_000_000 " = Ok f
      /\ render utc f = Ok (fst (ts_to_parts " 1_700_000_000 ")).
Proof.
  destruct (ts_to_parts_is_utc_date " 1_700_000_000 " 1700000000) as [H1 H2].
  - vm_compute. reflexivity.
  - lia.
  - split; [rewrite H1; vm_compute; reflexivity | exact H2].
Defined.

(** ** Finding a generated ROM *)

Lemma prefix_app (a b : string) : String.prefix a (a +:+ b) = true.
Proof.
  induction a as [|c a IH]; [apply prefix_empty |].
  rewrite app_cons, prefix_cons, Ascii.eqb_refl. exact IH.
Qed.

Lemma contains_app (needle a b : string) :
  contains needle (a +:+ needle +:+ b) = true.
Proof.
  induction a as [|c a IH].
  - rewrite app_nil_l. destruct (needle +:+ b) eqn:E; cbn [contains];
      rewrite <- E, prefix_app; reflexivity.
  - rewrite app_cons. cbn [contains]. rewrite IH. apply orb_true_r.
Qed.

(** X20: the ROM file name the generator returns passes the test by which
    [find_game_file] looks a ROM up under the primary identifier of the
    record. *)
Theorem generated_rom_name_is_found
  (tz : Z -> Z) (row : gmap string string)
  (use_custom_filenames use_custom_gamenames filename_category_parenthesis : bool)
  (filename_case rom_folder_organization : string) (fi : FileInfo) :
  generate_filename_and_gamename tz row use_custom_filenames use_custom_gamenames
    filename_category_parenthesis filename_case rom_folder_organization = Ok fi ->
  game_file_matches (format_opt (get_primary_game_id row)) (rom_filename fi) = true.
Proof.
  unfold generate_filename_and_gamename.
  destruct (effective_date tz row) as [d|e]; [| discriminate].
  cbn [bind]. intros [= <-]. cbn [rom_filename].
  unfold game_file_matches, game_file_pattern.
  set (pre := create_safe_filename _). set (id := format_opt _).
  replace (pre +:+ " - " +:+ id +:+ " (" +:+ d +:+ ").tic")
    with ((pre +:+ " ") +:+ ("- " +:+ id +:+ " (") +:+ (d +:+ ").tic")).
  - apply contains_app.
  - rewrite !string_app_assoc. reflexivity.
Qed.

Lemma generated_rom_name_is_found_witness :
  let row : gmap string string :=
    {[ "name_original_reference" := "Cave"; "tic_id" := "42";
       "tic_upd_date" := "2022-01-01" ]} in
  game_file_matches "42" "Cave - 42 (2022-01-01).tic" = true.
Proof.
  intros row.
  apply (generated_rom_name_is_found utc row false false false "unchanged" "single"
           (mkFileInfo "Cave" "Cave" "Cave - 42 (2022-01-01).tic" "Cave - 42.png")).
  vm_compute. reflexivity.
Defined.
